(** * word2txt: text extraction from word-processing packages

    A shallow embedding of [word2txt.py] (paragraph extraction, part
    aggregation, text normalisation, batch conversion) and of
    [txt-merge.py] (decoding fallback, merging), with the properties the
    specification states about them.

    Python strings are sequences of Unicode code points: a string is a
    list of code points, each an [N].  Byte strings are lists of [N]
    below 256. *)

From Stdlib Require Import List NArith Bool Arith Lia String Ascii.
From Stdlib Require Import Sorting.Sorted Sorting.Permutation.
Import ListNotations.

Local Open Scope N_scope.

(** ** Python strings *)

Module PyStr.

Definition char := N.
Definition str := list char.

(** A literal, for readable examples. *)
Definition lit (s : string) : str :=
  List.map N_of_ascii (list_ascii_of_string s).

Definition TAB : char := 9.
Definition LF : char := 10.
Definition CR : char := 13.
Definition SPACE : char := 32.

(** [str.isspace] on one code point; [str.strip()] removes exactly these. *)
Definition is_space (c : char) : bool :=
  ((9 <=? c) && (c <=? 13)) || ((28 <=? c) && (c <=? 32))
  || (c =? 133) || (c =? 160) || (c =? 5760)
  || ((8192 <=? c) && (c <=? 8202))
  || (c =? 8232) || (c =? 8233) || (c =? 8239) || (c =? 8287)
  || (c =? 12288).

(** The line boundaries of [str.splitlines()]. *)
Definition is_linebreak (c : char) : bool :=
  ((10 <=? c) && (c <=? 13)) || ((28 <=? c) && (c <=? 30))
  || (c =? 133) || (c =? 8232) || (c =? 8233).

(** The character class [[ \t]] of the regular expressions. *)
Definition is_hspace (c : char) : bool := (c =? SPACE) || (c =? TAB).

Fixpoint lstrip (s : str) : str :=
  match s with
  | [] => []
  | c :: r => if is_space c then lstrip r else s
  end.

Fixpoint rstrip (s : str) : str :=
  match s with
  | [] => []
  | c :: r =>
      match rstrip r with
      | [] => if is_space c then [] else [c]
      | r' => c :: r'
      end
  end.

(** [s.strip()] *)
Definition strip (s : str) : str := rstrip (lstrip s).

(** [s.splitlines()]: split at every line boundary, [\r\n] counting as
    one; no empty last line when the string ends with a boundary. *)
Fixpoint splitlines (s : str) : list str :=
  match s with
  | [] => []
  | c :: r =>
      if is_linebreak c then
        match r with
        | d :: r' =>
            if (c =? CR) && (d =? LF) then [] :: splitlines r'
            else [] :: splitlines r
        | [] => [[]]
        end
      else
        match splitlines r with
        | [] => [[c]]
        | l :: ls => (c :: l) :: ls
        end
  end.

(** [sep.join(xs)] *)
Fixpoint join (sep : str) (xs : list str) : str :=
  match xs with
  | [] => []
  | x :: rest =>
      match rest with
      | [] => x
      | _ :: _ => x ++ sep ++ join sep rest
      end
  end.

(** [s.split("\n")]: the lines of a text whose only separator is [\n]. *)
Fixpoint split_nl (s : str) : list str :=
  match s with
  | [] => [[]]
  | c :: r =>
      if c =? LF then [] :: split_nl r
      else
        match split_nl r with
        | [] => [[c]]
        | l :: ls => (c :: l) :: ls
        end
  end.

Fixpoint startswith (s p : str) : bool :=
  match p, s with
  | [], _ => true
  | _ :: _, [] => false
  | a :: p', b :: s' => (a =? b) && startswith s' p'
  end.

Definition endswith (s p : str) : bool := startswith (rev s) (rev p).

Fixpoint str_eqb (a b : str) : bool :=
  match a, b with
  | [], [] => true
  | x :: a', y :: b' => (x =? y) && str_eqb a' b'
  | _, _ => false
  end.

(** [a <= b] on strings: lexicographic on code points, a proper prefix
    being smaller. *)
Fixpoint str_leb (a b : str) : bool :=
  match a, b with
  | [], _ => true
  | _ :: _, [] => false
  | x :: a', y :: b' => (x <? y) || ((x =? y) && str_leb a' b')
  end.

(** [sorted(xs, key=key)] (a stable sort): insertion from the right keeps
    equal keys in their original order. *)
Section Sorting.
Context {A : Type} (key : A -> str).

Fixpoint insert_sorted (x : A) (l : list A) : list A :=
  match l with
  | [] => [x]
  | y :: l' =>
      if str_leb (key x) (key y) then x :: l
      else y :: insert_sorted x l'
  end.

Fixpoint sorted (l : list A) : list A :=
  match l with
  | [] => []
  | x :: l' => insert_sorted x (sorted l')
  end.
End Sorting.

End PyStr.
Import PyStr.

(** ** Regular-expression substitutions of [to_text] *)

(** Is the text made of a (possibly empty) run of [[ \t]] and then a
    newline? *)
Fixpoint run_then_newline (s : str) : bool :=
  match s with
  | [] => false
  | c :: r => if is_hspace c then run_then_newline r else c =? LF
  end.

(** [re.sub(r"[ \t]+\n", "\n", s)].  Matching is leftmost and greedy: a
    match starts at a space or tab whose maximal run of spaces and tabs is
    followed by a newline, and is replaced by that newline.  So a space or
    tab is deleted exactly when the run it stands in ends at a newline, and
    every other character is kept. *)
Fixpoint sub_trailing_hspace (s : str) : str :=
  match s with
  | [] => []
  | c :: r =>
      if is_hspace c && run_then_newline r then sub_trailing_hspace r
      else c :: sub_trailing_hspace r
  end.

Definition starts_two_newlines (s : str) : bool :=
  match s with
  | a :: b :: _ => (a =? LF) && (b =? LF)
  | _ => false
  end.

(** [re.sub(r"\n{3,}", "\n\n", s)]: a maximal run of three or more
    newlines is replaced by two, so a newline is deleted exactly when at
    least two more newlines follow it. *)
Fixpoint sub_blank_runs (s : str) : str :=
  match s with
  | [] => []
  | c :: r =>
      if (c =? LF) && starts_two_newlines r then sub_blank_runs r
      else c :: sub_blank_runs r
  end.

(** ** [DocxText] *)

Record DocxText := mkDocxText { paragraphs : list str }.

Definition to_text (d : DocxText) : str :=
  let lines := flat_map splitlines (paragraphs d) in
  let text := join [LF] lines in
  let text := sub_trailing_hspace text in
  let text := sub_blank_runs text in
  strip text ++ [LF].

(** ** XML element trees ([xml.etree.ElementTree]) *)

(** An element: its qualified tag, its text (before the first child), its
    tail (after its end tag) and its children in document order. *)
#[warnings="-register-all"]
Inductive Element : Type :=
  Elem (tag : str) (text : option str) (tail : option str)
       (children : list Element).

Definition tag_of (e : Element) : str :=
  match e with Elem t _ _ _ => t end.
Definition text_of (e : Element) : option str :=
  match e with Elem _ x _ _ => x end.
Definition children_of (e : Element) : list Element :=
  match e with Elem _ _ _ cs => cs end.

(** [e.iter()]: the element itself, then its subtree, depth first. *)
Fixpoint iter (e : Element) : list Element :=
  match e with
  | Elem _ _ _ cs => e :: flat_map iter cs
  end.

(** The qualified name [{uri}local]. *)
Definition qname (uri local : str) : str :=
  lit "{" ++ uri ++ lit "}" ++ local.

(** [root.findall(".//prefix:local", ns)]: the elements below [root], at
    any depth, with that qualified tag, in document order.  The step [//]
    selects proper descendants only: ElementPath skips the context
    element itself. *)
Definition findall_descendants (uri local : str) (root : Element)
  : list Element :=
  filter (fun e => str_eqb (tag_of e) (qname uri local))
         (flat_map iter (children_of root)).

Definition W_NS : str :=
  lit "http://schemas.openxmlformats.org/wordprocessingml/2006/main".

(** One pass of the loop body of [_extract_paragraph_text]: what [node]
    appends to [out]. *)
Definition emit (w : str) (node : Element) : list str :=
  if str_eqb (tag_of node) (qname w (lit "t")) then
    match text_of node with
    | Some (c :: x) => [c :: x]
    | _ => []
    end
  else if str_eqb (tag_of node) (qname w (lit "tab")) then [[TAB]]
  else if str_eqb (tag_of node) (qname w (lit "br"))
          || str_eqb (tag_of node) (qname w (lit "cr")) then [[LF]]
  else [].

Definition _extract_paragraph_text (p : Element) (w : str) : str :=
  let out := fold_left (fun out node => out ++ emit w node) (iter p) [] in
  strip (join [] out).

Definition _extract_paragraphs_from_xml (root : Element) : list str :=
  let w := W_NS in
  fold_left (fun paragraphs p => paragraphs ++ [_extract_paragraph_text p w])
            (findall_descendants w (lit "p") root) [].

(** ** Exceptions and results *)

(** The exceptions the program meets.  [zipfile] raises [BadZipFile] for
    a file that is no archive and for an entry whose check sum is wrong,
    [KeyError] for a name that is absent, and [RuntimeError],
    [NotImplementedError] or [ZlibError] for an entry it cannot decrypt or
    decompress; [ET.fromstring] raises [ParseError] for malformed bytes
    and [ValueError] or [LookupError] for an encoding it does not
    support. *)
Inductive exception :=
  BadZipFile | FileNotFoundError | IsADirectoryError | UnicodeDecodeError
| KeyError | ParseError | ValueError | LookupError
| RuntimeError | NotImplementedError | ZlibError.

Inductive result (A : Type) : Type :=
| Ok (a : A)
| Raise (e : exception).
Arguments Ok {A} a.
Arguments Raise {A} e.

Definition bind {A B} (m : result A) (k : A -> result B) : result B :=
  match m with
  | Ok a => k a
  | Raise e => Raise e
  end.

Notation "x <- m ;; k" := (bind m (fun x => k))
  (at level 61, m at next level, right associativity).

(** A loop whose body may raise. *)
Fixpoint for_each {A S : Type} (body : S -> A -> result S) (xs : list A)
         (s : S) : result S :=
  match xs with
  | [] => Ok s
  | x :: rest => s' <- body s x ;; for_each body rest s'
  end.

(** ** The package: a zip archive *)

Definition bytes := list N.

(** The archive's entries in directory order, names possibly repeated;
    with each name, what reading the entry gives: its bytes, or the
    exception that [zf.read] raises for it. *)
Definition ZipFile := list (str * result bytes).

(** What is at a path: [None] when [zipfile.ZipFile(path)] raises
    [BadZipFile], otherwise the archive. *)
Definition DocxFile := option ZipFile.

Definition namelist (zf : ZipFile) : list str := List.map fst zf.

(** [zf.getinfo(name)]: the last entry of that name; [None] is the
    [KeyError] of a name that is absent. *)
Fixpoint getinfo (zf : ZipFile) (name : str) : option (result bytes) :=
  match zf with
  | [] => None
  | (n, content) :: rest =>
      match getinfo rest name with
      | Some later => Some later
      | None => if str_eqb n name then Some content else None
      end
  end.

(** [zf.read(name)]: what reading the last entry of that name gives;
    [KeyError] for a name that is absent. *)
Definition zf_read (zf : ZipFile) (name : str) : result bytes :=
  match getinfo zf name with
  | Some content => content
  | None => Raise KeyError
  end.

(** [ET.fromstring]: the tree of the bytes, or the exception raised. *)
Class XMLParser := { fromstring : bytes -> result Element }.

(** [zipfile.ZipFile(docx_path)] *)
Definition open_zip (f : DocxFile) : result ZipFile :=
  match f with
  | Some zf => Ok zf
  | None => Raise BadZipFile
  end.

Definition DOCX_WORD_DIR : str := lit "word/".
Definition DOCX_MAIN_DOCUMENT : str := lit "word/document.xml".

(** The handlers catch [KeyError] around the read, [BadZipFile] around
    the opening and the read, and [ParseError] around the parse; every
    other exception leaves the function. *)
Definition _read_xml_from_docx `{XMLParser} (docx : DocxFile)
           (inner_path : str) : result (option Element) :=
  match open_zip docx with
  | Raise BadZipFile => Ok None
  | Raise other => Raise other
  | Ok zf =>
      match zf_read zf inner_path with
      | Raise KeyError => Ok None
      | Raise BadZipFile => Ok None
      | Raise other => Raise other
      | Ok data =>
          match fromstring data with
          | Ok tree => Ok (Some tree)
          | Raise ParseError => Ok None
          | Raise other => Raise other
          end
      end
  end.

(** The condition of the comprehension that builds [extra_xmls]. *)
Definition is_extra_xml (name : str) : bool :=
  startswith name DOCX_WORD_DIR
  && (startswith name (lit "word/header")
      || startswith name (lit "word/footer")
      || (str_eqb name (lit "word/footnotes.xml")
          || str_eqb name (lit "word/endnotes.xml")))
  && endswith name (lit ".xml").

(** One turn of the loop over the supplementary parts. *)
Definition add_part `{XMLParser} (docx : DocxFile) (paragraphs : list str)
           (inner : str) : result (list str) :=
  extra <- _read_xml_from_docx docx inner ;;
  match extra with
  | None => Ok paragraphs
  | Some extra => Ok (paragraphs ++ _extract_paragraphs_from_xml extra)
  end.

Definition extract_docx_text `{XMLParser} (docx : DocxFile)
  : result (option DocxText) :=
  main <- _read_xml_from_docx docx DOCX_MAIN_DOCUMENT ;;
  match main with
  | None => Ok None
  | Some main =>
      let paragraphs := _extract_paragraphs_from_xml main in
      zf <- open_zip docx ;;
      let extra_xmls := filter is_extra_xml (namelist zf) in
      paragraphs <-
        for_each (add_part docx) (sorted (fun n => n) extra_xmls)
                 paragraphs ;;
      Ok (Some (mkDocxText paragraphs))
  end.

(** ** Directories *)

(** What a directory holds under a name: a sub-directory or a regular
    file with its content. *)
Inductive Node (A : Type) : Type :=
| SubDir
| RegularFile (content : A).
Arguments SubDir {A}.
Arguments RegularFile {A} content.

Definition Directory (A : Type) := list (str * Node A).

Definition is_file {A} (p : str * Node A) : bool :=
  match snd p with
  | RegularFile _ => true
  | SubDir => false
  end.

Definition DOT : char := 46.

(** [name.rfind(".")] *)
Fixpoint rfind_dot (name : str) : option nat :=
  match name with
  | [] => None
  | c :: r =>
      match rfind_dot r with
      | Some i => Some (S i)
      | None => if c =? DOT then Some 0%nat else None
      end
  end.

(** [PurePath.suffix]: from the last dot on, unless that dot is the first
    or the last character of the name. *)
Definition suffix (name : str) : str :=
  match rfind_dot name with
  | Some i =>
      if (0 <? i)%nat && (i <? List.length name - 1)%nat then skipn i name
      else []
  | None => []
  end.

(** [PurePath.stem]: the name without its suffix. *)
Definition stem (name : str) : str :=
  match rfind_dot name with
  | Some i =>
      if (0 <? i)%nat && (i <? List.length name - 1)%nat then firstn i name
      else name
  | None => name
  end.

(** [s.lower()].  Only the comparison with [".txt"] uses it, and the only
    code points whose lower case is one of [.], [t], [x] are these and the
    ASCII capitals [T] and [X]; so lowering the ASCII capitals decides
    that comparison as the full Unicode mapping does. *)
Definition lower (s : str) : str :=
  List.map (fun c => if (65 <=? c) && (c <=? 90) then c + 32 else c) s.

(** ** Batch conversion *)

(** [sorted(input_dir.glob("*.docx"))], regular files only. *)
Definition iter_docx_files (input_dir : Directory DocxFile)
  : list (str * Node DocxFile) :=
  filter is_file
    (sorted fst (filter (fun p => endswith (fst p) (lit ".docx")) input_dir)).

(** The files of the output directory: name and text. *)
Definition OutDir := list (str * str).

(** [path.write_text(text)]: create the file or replace its content. *)
Definition write_text (dir : OutDir) (name text : str) : OutDir :=
  (name, text) :: filter (fun f => negb (str_eqb (fst f) name)) dir.

Record Progress := mkProgress {
  output_dir : OutDir;
  converted : nat;
  skipped : nat
}.

(** The state of the loop of [convert_directory] after one more file. *)
Definition convert_one `{XMLParser} (st : Progress)
           (docx_path : str * Node DocxFile) : result Progress :=
  match snd docx_path with
  | SubDir => Raise IsADirectoryError
  | RegularFile docx =>
      docx_text <- extract_docx_text docx ;;
      match docx_text with
      | None =>
          Ok (mkProgress (output_dir st) (converted st) (S (skipped st)))
      | Some d =>
          let out_path := stem (fst docx_path) ++ lit ".txt" in
          Ok (mkProgress (write_text (output_dir st) out_path (to_text d))
                         (S (converted st)) (skipped st))
      end
  end.

Definition convert_directory `{XMLParser} (input_dir : Directory DocxFile)
           (output : OutDir) : result Progress :=
  for_each convert_one (iter_docx_files input_dir) (mkProgress output 0 0).

(** ** [txt-merge.py] *)

Inductive errors := Strict | Replace.

Definition REPLACEMENT : char := 65533.

Definition is_cont (b : N) : bool := (128 <=? b) && (b <=? 191).

(** What a decoding error does: [UnicodeDecodeError] when strict,
    U+FFFD and going on with the rest otherwise. *)
Definition on_error (e : errors) (rest : option str) : option str :=
  match e with
  | Strict => None
  | Replace => option_map (cons REPLACEMENT) rest
  end.

(** The second byte a lead byte admits (no overlong form, no surrogate,
    nothing above U+10FFFF). *)
Definition second_ok (b0 b1 : N) : bool :=
  if b0 =? 224 then (160 <=? b1) && (b1 <=? 191)
  else if b0 =? 237 then (128 <=? b1) && (b1 <=? 159)
  else if b0 =? 240 then (144 <=? b1) && (b1 <=? 191)
  else if b0 =? 244 then (128 <=? b1) && (b1 <=? 143)
  else is_cont b1.

(** [data.decode("utf-8", errors)]; [None] is [UnicodeDecodeError]. *)
Fixpoint utf8_decode (e : errors) (data : bytes) : option str :=
  match data with
  | [] => Some []
  | b0 :: r0 =>
      if b0 <? 128 then option_map (cons b0) (utf8_decode e r0)
      else if (194 <=? b0) && (b0 <=? 223) then
        match r0 with
        | [] => on_error e (Some [])
        | b1 :: r1 =>
            if is_cont b1 then
              option_map (cons ((b0 - 192) * 64 + (b1 - 128)))
                         (utf8_decode e r1)
            else on_error e (utf8_decode e r0)
        end
      else if (224 <=? b0) && (b0 <=? 239) then
        match r0 with
        | [] => on_error e (Some [])
        | b1 :: r1 =>
            if second_ok b0 b1 then
              match r1 with
              | [] => on_error e (Some [])
              | b2 :: r2 =>
                  if is_cont b2 then
                    option_map
                      (cons ((b0 - 224) * 4096 + (b1 - 128) * 64 + (b2 - 128)))
                      (utf8_decode e r2)
                  else on_error e (utf8_decode e r1)
              end
            else on_error e (utf8_decode e r0)
        end
      else if (240 <=? b0) && (b0 <=? 244) then
        match r0 with
        | [] => on_error e (Some [])
        | b1 :: r1 =>
            if second_ok b0 b1 then
              match r1 with
              | [] => on_error e (Some [])
              | b2 :: r2 =>
                  if is_cont b2 then
                    match r2 with
                    | [] => on_error e (Some [])
                    | b3 :: r3 =>
                        if is_cont b3 then
                          option_map
                            (cons ((b0 - 240) * 262144 + (b1 - 128) * 4096
                                   + (b2 - 128) * 64 + (b3 - 128)))
                            (utf8_decode e r3)
                        else on_error e (utf8_decode e r2)
                    end
                  else on_error e (utf8_decode e r1)
              end
            else on_error e (utf8_decode e r0)
        end
      else on_error e (utf8_decode e r0)
  end.

(** The byte-order mark, in UTF-8 and as a code point. *)
Definition BOM_BYTES : bytes := [239; 187; 191].
Definition BOM : char := 65279.

(** Reading with [encoding="utf-8-sig"]: a leading byte-order mark is
    dropped.  The decoder of a text file waits for three bytes before it
    decides whether the file starts with the mark, so a file of fewer
    bytes that are the beginning of the mark (the empty file, [EF],
    [EF BB]) is read as the empty text. *)
Definition utf8_sig_decode (e : errors) (data : bytes) : option str :=
  if (List.length data <? 3)%nat && startswith BOM_BYTES data then Some []
  else if startswith data BOM_BYTES then utf8_decode e (skipn 3 data)
  else utf8_decode e data.

Inductive encoding := UTF_8 | UTF_8_SIG | GB18030.

(** The codec whose tables are not part of the program. *)
Class Codecs := { gb18030_decode : errors -> bytes -> option str }.

Definition decode `{Codecs} (enc : encoding) (e : errors) (data : bytes)
  : option str :=
  match enc with
  | UTF_8 => utf8_decode e data
  | UTF_8_SIG => utf8_sig_decode e data
  | GB18030 => gb18030_decode e data
  end.

(** Reading in text mode turns [\r\n] and [\r] into [\n]. *)
Fixpoint universal_newlines (s : str) : str :=
  match s with
  | [] => []
  | c :: r =>
      if c =? CR then
        match r with
        | d :: r' =>
            if d =? LF then LF :: universal_newlines r'
            else LF :: universal_newlines r
        | [] => [LF]
        end
      else c :: universal_newlines r
  end.

(** [path.read_text(encoding=enc, errors=e)] on a file of content
    [data]. *)
Definition read_text `{Codecs} (enc : encoding) (e : errors) (data : bytes)
  : result str :=
  match decode enc e data with
  | Some s => Ok (universal_newlines s)
  | None => Raise UnicodeDecodeError
  end.

(** The loop of [_read_text_with_fallback] over the encodings still to
    try, and the statement after it. *)
Fixpoint try_encodings `{Codecs} (encodings : list encoding) (data : bytes)
  : result str :=
  match encodings with
  | [] => read_text UTF_8 Replace data
  | enc :: rest =>
      match read_text enc Strict data with
      | Ok s => Ok s
      | Raise UnicodeDecodeError => try_encodings rest data
      | Raise other => Raise other
      end
  end.

Definition _read_text_with_fallback `{Codecs} (data : bytes) : result str :=
  try_encodings [UTF_8; UTF_8_SIG; GB18030] data.

Definition last_part (parts : list str) : str := last parts [].

(** One turn of the loop of [merge_txt_files]. *)
Definition merge_one `{Codecs} (merged_parts : list str)
           (ip : nat * (str * Node bytes)) : result (list str) :=
  let (i, p) := ip in
  match snd p with
  | SubDir => Raise IsADirectoryError
  | RegularFile data =>
      content <- _read_text_with_fallback data ;;
      let merged_parts :=
        if negb (i =? 0)%nat
           && negb (Nat.eqb (List.length merged_parts) 0)
           && negb (endswith (last_part merged_parts) [LF])
        then merged_parts ++ [[LF]] else merged_parts in
      let merged_parts :=
        if negb (i =? 0)%nat then merged_parts ++ [[LF]] else merged_parts in
      Ok (merged_parts ++ [content])
  end.

(** [merge_txt_files]: the text written to [out_file] and the count
    returned.  [src_dir] is [None] when the path is missing or is not a
    directory. *)
Definition merge_txt_files `{Codecs} (src_dir : option (Directory bytes))
  : result (str * nat) :=
  match src_dir with
  | None => Raise FileNotFoundError
  | Some dir =>
      let txt_files :=
        sorted fst
          (filter (fun p => is_file p
                            && str_eqb (lower (suffix (fst p))) (lit ".txt"))
                  dir) in
      merged_parts <-
        for_each merge_one
                 (combine (seq 0 (List.length txt_files)) txt_files) [] ;;
      Ok (join [] merged_parts, List.length txt_files)
  end.

(** ** Predicates the properties are stated with *)

(** Does the last character of [s] satisfy [P]?  ([false] on the empty
    string.) *)
Fixpoint last_sat (P : char -> bool) (s : str) : bool :=
  match s with
  | [] => false
  | c :: r =>
      match r with
      | [] => P c
      | _ :: _ => last_sat P r
      end
  end.

Definition starts_newline (s : str) : bool :=
  match s with
  | c :: _ => c =? LF
  | [] => false
  end.

(** No space or tab stands immediately before a newline. *)
Fixpoint hs_nl_free (s : str) : bool :=
  match s with
  | [] => true
  | c :: r => negb (is_hspace c && starts_newline r) && hs_nl_free r
  end.

(** No three newlines in a row. *)
Fixpoint no_triple_nl (s : str) : bool :=
  match s with
  | [] => true
  | c :: r => negb ((c =? LF) && starts_two_newlines r) && no_triple_nl r
  end.

(** The only line boundary in the text is the newline. *)
Definition nl_only (s : str) : bool :=
  forallb (fun c => negb (is_linebreak c) || (c =? LF)) s.

(** The string is empty or made of white space only. *)
Definition blank (s : str) : bool := forallb is_space s.

(** Is the element a paragraph ([w:p])? *)
Definition is_paragraph (e : Element) : bool :=
  str_eqb (tag_of e) (qname W_NS (lit "p")).

(** The paragraph elements of a tree in document order, by a depth-first
    walk: the element itself when it is a paragraph, then those of each
    child's subtree, child after child. *)
Fixpoint paragraph_elements (e : Element) : list Element :=
  match e with
  | Elem _ _ _ cs =>
      (if is_paragraph e then [e] else []) ++ flat_map paragraph_elements cs
  end.

(** The paragraph elements strictly below the root. *)
Definition paragraphs_below (root : Element) : list Element :=
  flat_map paragraph_elements (children_of root).

(** What a depth-first walk of an element emits: the element's own
    fragment, then those of each child's subtree, child after child. *)
Fixpoint fragments (w : str) (e : Element) : list str :=
  match e with
  | Elem _ _ _ cs => emit w e ++ flat_map (fragments w) cs
  end.

(** Elements of the word-processing namespace, to build sample trees. *)
Definition w_elem (local : string) (text : option str)
           (children : list Element) : Element :=
  Elem (qname W_NS (lit local)) text None children.
Definition w_p (children : list Element) : Element := w_elem "p" None children.
Definition w_r (children : list Element) : Element := w_elem "r" None children.
Definition w_t (x : str) : Element := w_elem "t" (Some x) [].
Definition w_tab : Element := w_elem "tab" None [].
Definition w_br : Element := w_elem "br" None [].
Definition w_body (children : list Element) : Element :=
  w_elem "document" None [w_elem "body" None children].

(** A part whose root element is itself a paragraph. *)
Definition paragraph_root : Element := w_p [w_r [w_t (lit "hi")]].

(** A tab between a run of one space and a run of text; a break between
    a run of text and a run of one space. *)
Definition tab_after_space : Element :=
  w_p [w_r [w_t (lit " ")]; w_r [w_tab]; w_r [w_t (lit "b")]].
Definition break_before_space : Element :=
  w_p [w_r [w_t (lit "a")]; w_r [w_br]; w_r [w_t (lit " ")]].

(** A table cell holding a paragraph, between two paragraphs, one of
    them empty. *)
Definition sample_body : Element :=
  w_body [w_p [];
          w_elem "tbl" None
            [w_elem "tr" None [w_elem "tc" None [w_p [w_r [w_t (lit "cell")]]]]];
          w_p [w_r [w_t (lit "x")]; w_r [w_tab]; w_r [w_t (lit "y")]]].

(** The string has no white space in it. *)
Definition solid (s : str) : bool := forallb (fun c => negb (is_space c)) s.

(** A paragraph of two text runs with one node between them. *)
Definition two_runs (x : str) (between : Element) (y : str) : Element :=
  w_p [w_r [w_t x]; w_r [between]; w_r [w_t y]].

(** A supplementary part, by its entry name: a header, a footer, the
    footnotes or the endnotes, in a file ending in [.xml]. *)
Definition is_supplementary (name : str) : bool :=
  (startswith name (lit "word/header")
   || startswith name (lit "word/footer")
   || str_eqb name (lit "word/footnotes.xml")
   || str_eqb name (lit "word/endnotes.xml"))
  && endswith name (lit ".xml").

(** The paragraph lines a part contributes: none when the part is
    skipped, and none when the reading of it raises. *)
Definition part_lines `{XMLParser} (docx : DocxFile) (name : str)
  : list str :=
  match _read_xml_from_docx docx name with
  | Ok (Some root) => _extract_paragraphs_from_xml root
  | _ => []
  end.

(** The archive without the entries of a given name. *)
Definition omit (name : str) (zf : ZipFile) : ZipFile :=
  filter (fun entry => negb (str_eqb (fst entry) name)) zf.

(** The order of [sorted] on names. *)
Definition str_le (a b : str) : Prop := str_leb a b = true.

(** The order [sorted] puts its elements in: that of their keys. *)
Definition key_le {A : Type} (key : A -> str) (a b : A) : Prop :=
  str_le (key a) (key b).

(** The state of the batch loop after a file that was skipped. *)
Definition skip (st : Progress) : Progress :=
  mkProgress (output_dir st) (converted st) (S (skipped st)).

(** A parser known by a finite table of byte strings and what
    [ET.fromstring] does with each; every other byte string is
    malformed. *)
Fixpoint table_lookup (table : list (bytes * result Element)) (data : bytes)
  : result Element :=
  match table with
  | [] => Raise ParseError
  | (known, outcome) :: rest =>
      if str_eqb known data then outcome else table_lookup rest data
  end.

Definition table_parser (table : list (bytes * result Element)) : XMLParser :=
  {| fromstring := table_lookup table |}.

(** Sample parts: byte strings standing for three well-formed parts, one
    that is malformed, and two that are malformed and declare an
    encoding for which [ET.fromstring] raises [ValueError]. *)
Definition main_bytes : bytes := lit "<w:document>...</w:document>".
Definition header1_bytes : bytes := lit "<w:hdr>first</w:hdr>".
Definition header2_bytes : bytes := lit "<w:hdr>second</w:hdr>".
Definition malformed_bytes : bytes := lit "<w:ftr>".
Definition legacy_main_bytes : bytes :=
  lit "<?xml version='1.0' encoding='gb18030'?><w:document>".
Definition legacy_footer_bytes : bytes :=
  lit "<?xml version='1.0' encoding='gb18030'?><w:ftr>".

Definition header_tree (x : string) : Element :=
  w_elem "hdr" None [w_p [w_r [w_t (lit x)]]].

Definition sample_parser : XMLParser :=
  table_parser [(main_bytes, Ok sample_body);
                (header1_bytes, Ok (header_tree "first"));
                (header2_bytes, Ok (header_tree "second"));
                (legacy_main_bytes, Raise ValueError);
                (legacy_footer_bytes, Raise ValueError)].

(** A package with two headers, the second listed first, and a footer
    that does not parse. *)
Definition sample_package : ZipFile :=
  [(lit "[Content_Types].xml", Ok (lit "<Types/>"));
   (lit "word/header2.xml", Ok header2_bytes);
   (lit "word/document.xml", Ok main_bytes);
   (lit "word/footer1.xml", Ok malformed_bytes);
   (lit "word/header1.xml", Ok header1_bytes)].

(** A package whose main part is such a byte string, and one whose
    footer is. *)
Definition legacy_main_package : ZipFile :=
  [(lit "word/document.xml", Ok legacy_main_bytes)].

Definition legacy_footer_package : ZipFile :=
  [(lit "word/document.xml", Ok main_bytes);
   (lit "word/footer1.xml", Ok legacy_footer_bytes);
   (lit "word/header1.xml", Ok header1_bytes)].

(** A document whose paragraphs have no text. *)
Definition empty_tree : Element := w_body [w_p []; w_p [w_r [w_t (lit " ")]]].
Definition empty_bytes : bytes := lit "<w:document/>".
Definition empty_package : ZipFile :=
  [(lit "word/document.xml", Ok empty_bytes)].
Definition empty_parser : XMLParser :=
  table_parser [(empty_bytes, Ok empty_tree)].

(** An input directory: a file that is no archive, a package, a
    sub-directory and a file of another kind. *)
Definition sample_input : Directory DocxFile :=
  [(lit "report.docx", RegularFile (Some sample_package));
   (lit "broken.docx", RegularFile None);
   (lit "old.docx", SubDir);
   (lit "notes.txt", RegularFile None)].

(** An input directory where a package whose main part makes the parser
    raise [ValueError] comes, in the order of the names, after a file
    that is no archive and before a sound package. *)
Definition legacy_input : Directory DocxFile :=
  [(lit "report.docx", RegularFile (Some sample_package));
   (lit "legacy.docx", RegularFile (Some legacy_main_package));
   (lit "broken.docx", RegularFile None)].

(** The three text files of the merge scenario, and a directory listing
    that returns them in another order, among other things. *)
Definition abc_files : Directory bytes :=
  [(lit "a.txt", RegularFile (lit "A"));
   (lit "b.txt", RegularFile (lit "B"));
   (lit "c.txt", RegularFile (lit "C"))].

Definition cab_listing : Directory bytes :=
  [(lit "c.txt", RegularFile (lit "C"));
   (lit "a.txt", RegularFile (lit "A"));
   (lit "b.txt", RegularFile (lit "B"))].

(** A stand-in for the gb18030 codec that knows its one-byte codes only
    (the ASCII range) and rejects, or replaces, everything else. *)
Definition one_byte_codecs : Codecs :=
  {| gb18030_decode := fun e data =>
       if forallb (fun b => b <? 128) data then Some data
       else match e with
            | Strict => None
            | Replace =>
                Some (List.map (fun b => if b <? 128 then b else REPLACEMENT)
                               data)
            end |}.

(** Bytes that are not UTF-8 in any of the three encodings tried. *)
Definition undecodable : bytes := [65; 255; 66].

(** The characters of a text that are not white space, in order. *)
Definition visible (s : str) : str :=
  filter (fun c => negb (is_space c)) s.

(** The tree without the text that stands outside text nodes: no tail
    anywhere, and no text but in the elements [w:t]. *)
Fixpoint skeleton (w : str) (e : Element) : Element :=
  match e with
  | Elem t x _ cs =>
      Elem t (if str_eqb t (qname w (lit "t")) then x else None) None
           (List.map (skeleton w) cs)
  end.

(** A pretty-printed paragraph: indentation in the tails and in the text
    of the elements that hold the runs. *)
Definition indented_paragraph : Element :=
  Elem (qname W_NS (lit "p")) (Some (LF :: lit "  ")) (Some [LF])
       [Elem (qname W_NS (lit "r")) (Some (LF :: lit "    "))
             (Some (LF :: lit "  "))
             [Elem (qname W_NS (lit "t")) (Some (lit "text"))
                   (Some (LF :: lit "  ")) []]].

(** A paragraph inside the text box of another paragraph. *)
Definition boxed_paragraph : Element := w_p [w_r [w_t (lit "inside")]].
Definition boxing_paragraph : Element :=
  w_p [w_r [w_t (lit "before")];
       w_r [w_elem "pict" None [w_elem "txbxContent" None [boxed_paragraph]]];
       w_r [w_t (lit "after")]].

(** The text of the file of a given name in an output directory. *)
Fixpoint read_output (dir : OutDir) (name : str) : option str :=
  match dir with
  | [] => None
  | (n, text) :: rest =>
      if str_eqb n name then Some text else read_output rest name
  end.

(** The path [convert_directory] writes for an input file. *)
Definition out_name (docx_path : str * Node DocxFile) : str :=
  stem (fst docx_path) ++ lit ".txt".

(** Does extraction give a text for this input file? *)
Definition extractable `{XMLParser} (docx_path : str * Node DocxFile)
  : bool :=
  match snd docx_path with
  | RegularFile docx =>
      match extract_docx_text docx with
      | Ok (Some _) => true
      | _ => false
      end
  | SubDir => false
  end.

(** The entries [merge_txt_files] takes from a directory. *)
Definition selected_txt (p : str * Node bytes) : bool :=
  is_file p && str_eqb (lower (suffix (fst p))) (lit ".txt").

(** The text read from an entry (nothing for a sub-directory). *)
Definition file_text `{Codecs} (p : str * Node bytes) : str :=
  match snd p with
  | RegularFile data =>
      match _read_text_with_fallback data with
      | Ok s => s
      | Raise _ => []
      end
  | SubDir => []
  end.

(** What stands between a text and the next one in the merged file: the
    end of its last line when it has none, and one empty line. *)
Definition separator_after (content : str) : str :=
  if endswith content [LF] then [LF] else [LF; LF].

(** The texts that follow a text, each behind its separator. *)
Fixpoint following (previous : str) (contents : list str) : str :=
  match contents with
  | [] => []
  | content :: rest =>
      separator_after previous ++ content ++ following content rest
  end.

(** The merged text of a list of texts. *)
Definition merge_texts (contents : list str) : str :=
  match contents with
  | [] => []
  | content :: rest => content ++ following content rest
  end.

(** A directory with a sub-directory and files of other kinds beside two
    text files. *)
Definition mixed_dir : Directory bytes :=
  [(lit "b.TXT", RegularFile (lit "second" ++ [13; 10]));
   (lit "notes.md", RegularFile (lit "# notes"));
   (lit "old.txt", SubDir);
   (lit ".txt", RegularFile (lit "hidden"));
   (lit "a.txt", RegularFile (lit "first"))].

(** A code point that UTF-8 can encode: below U+110000 and no
    surrogate. *)
Definition is_scalar (c : char) : bool :=
  (c <? 55296) || ((57344 <=? c) && (c <? 1114112)).

(** The UTF-8 bytes of a code point: its bits in groups of six, from the
    right ([c / 64] is [c >> 6]). *)
Definition encode_char (c : char) : bytes :=
  if c <? 128 then [c]
  else if c <? 2048 then [192 + c / 64; 128 + c mod 64]
  else if c <? 65536 then
    [224 + c / 64 / 64; 128 + (c / 64) mod 64; 128 + c mod 64]
  else
    [240 + c / 64 / 64 / 64; 128 + (c / 64 / 64) mod 64;
     128 + (c / 64) mod 64; 128 + c mod 64].

(** [text.encode("utf-8")], as [write_text(text, encoding="utf-8")] does
    it; [None] is [UnicodeEncodeError]. *)
Definition utf8_encode (text : str) : option bytes :=
  if forallb is_scalar text then Some (flat_map encode_char text) else None.

(** ** [word2txt-ui.py] *)

(** ["\n\n" + "-"*40 + "\n\n"] *)
Definition UI_SEPARATOR : str := [LF; LF] ++ repeat 45 40 ++ [LF; LF].

(** One turn of the loop of [process_files], for the file of index [i]
    among [total]: the text of the document when there is one, then the
    separator unless the file is the last.  (The status line shown while
    the loop runs is not part of the state.) *)
Definition process_one `{XMLParser} (total : nat)
           (st : list str * nat) (ip : nat * (str * DocxFile))
  : result (list str * nat) :=
  let (merged_content, success_count) := st in
  let (i, file_path) := ip in
  text_obj <- extract_docx_text (snd file_path) ;;
  let (merged_content, success_count) :=
    match text_obj with
    | Some d => (merged_content ++ [to_text d], S success_count)
    | None => (merged_content, success_count)
    end in
  let merged_content :=
    if (i <? total - 1)%nat then merged_content ++ [UI_SEPARATOR]
    else merged_content in
  Ok (merged_content, success_count).

(** [process_files]: the text written to the merged file and the count
    reported.  [Raise e] is an exception met in the loop: the handler of
    the function shows it in a dialog, and no file is written. *)
Definition process_files `{XMLParser} (files_found : list (str * DocxFile))
  : result (str * nat) :=
  let total := List.length files_found in
  st <- for_each (process_one total)
                 (combine (seq 0 total) files_found) ([], 0%nat) ;;
  Ok (join [] (fst st), snd st).

(** The text a selected file gives: none when it is not extractable,
    and none when the extraction raises. *)
Definition doc_text `{XMLParser} (file_path : str * DocxFile) : str :=
  match extract_docx_text (snd file_path) with
  | Ok (Some d) => to_text d
  | _ => []
  end.

Definition doc_ok `{XMLParser} (file_path : str * DocxFile) : bool :=
  match extract_docx_text (snd file_path) with
  | Ok (Some _) => true
  | _ => false
  end.

(** ** [md-merge.py] *)

(** [text.replace("\r\n", "\n")]: every [\r\n], from the left. *)
Fixpoint replace_crlf (s : str) : str :=
  match s with
  | [] => []
  | c :: r =>
      match r with
      | d :: r' =>
          if (c =? CR) && (d =? LF) then LF :: replace_crlf r'
          else c :: replace_crlf r
      | [] => [c]
      end
  end.

(** [text.replace("\r", "\n")] *)
Definition replace_cr (s : str) : str :=
  List.map (fun c => if c =? CR then LF else c) s.

Definition _minify_markdown (text : str) : str :=
  let normalized := replace_cr (replace_crlf text) in
  let lines := List.map rstrip (split_nl normalized) in
  let normalized := join [LF] lines in
  let normalized := sub_blank_runs normalized in
  if endswith normalized [LF] then normalized else normalized ++ [LF].

(** No carriage return in the text. *)
Definition no_CR (s : str) : bool := forallb (fun c => negb (c =? CR)) s.

(** No newline in the text: it is one line. *)
Definition one_line (s : str) : bool := forallb (fun c => negb (c =? LF)) s.

(** The kind of a supplementary part, in the order in which the kinds
    come out: endnotes, footers, footnotes, headers. *)
Definition part_rank (name : str) : nat :=
  if str_eqb name (lit "word/endnotes.xml") then 0
  else if startswith name (lit "word/footer") then 1
  else if str_eqb name (lit "word/footnotes.xml") then 2
  else 3.

(** A paragraph line as the extractor gives it for a paragraph with
    text and without a break: not empty, stripped, and free of line
    boundaries. *)
Definition tidy (p : str) : Prop :=
  p <> [] /\ strip p = p
  /\ forallb (fun c => negb (is_linebreak c)) p = true.

(** Tactics for the arithmetic of the encoder: the quotients and
    remainders by 64 of a code point, and the tests of the decoder. *)
Ltac euclid x :=
  pose proof (N.div_mod' x 64);
  pose proof (N.mod_upper_bound x 64 ltac:(discriminate)).

Ltac name_quotients :=
  repeat match goal with
         | |- context [?a mod 64] =>
             let r := fresh "r" in set (r := a mod 64) in *; clearbody r
         | |- context [?a / 64] =>
             let q := fresh "q" in set (q := a / 64) in *; clearbody q
         end.

Ltac settle_test :=
  match goal with
  | |- context [?a <? ?b] =>
      destruct (N.ltb_spec a b); [try (exfalso; lia) | try (exfalso; lia)]
  | |- context [?a <=? ?b] =>
      destruct (N.leb_spec a b); [try (exfalso; lia) | try (exfalso; lia)]
  | |- context [?a =? ?b] =>
      destruct (N.eqb_spec a b); [try (exfalso; lia) | try (exfalso; lia)]
  end; cbn [andb orb].

(** * Properties *)

(** ** Worked examples *)

Example to_text_ex1 :
  to_text (mkDocxText [lit "a  "; lit ""; lit ""; lit ""; lit " b	"; lit "c"])
  = lit "a" ++ [LF] ++ lit " b" ++ [LF] ++ lit "c" ++ [LF].
Proof. reflexivity. Qed.

Example sub_trailing_ex :
  sub_trailing_hspace (lit "a 	 " ++ [LF] ++ lit "  b " ++ [LF; LF; SPACE; LF] ++ lit "c  d" ++ [LF; SPACE; TAB])
  = lit "a" ++ [LF] ++ lit "  b" ++ [LF; LF; LF] ++ lit "c  d" ++ [LF; SPACE; TAB].
Proof. reflexivity. Qed.

Example sub_blank_ex :
  sub_blank_runs ([LF; LF; LF; LF] ++ lit "a" ++ [LF; LF] ++ lit "b" ++ [LF; LF; LF] ++ lit "c" ++ [LF; LF; LF; LF; LF])
  = [LF; LF] ++ lit "a" ++ [LF; LF] ++ lit "b" ++ [LF; LF] ++ lit "c" ++ [LF; LF].
Proof. reflexivity. Qed.

Example splitlines_ex :
  splitlines (lit "a" ++ [CR; LF] ++ lit "b" ++ [LF]) = [lit "a"; lit "b"]
  /\ splitlines [] = [] /\ splitlines [LF] = [[]]
  /\ splitlines (lit "a" ++ [CR; CR; LF] ++ lit "b") = [lit "a"; []; lit "b"].
Proof. repeat split; reflexivity. Qed.

(** ** Strings *)

Section StringFacts.

Lemma str_strong_ind (P : list N -> Prop) :
  (forall s, (forall t, (List.length t < List.length s)%nat -> P t) -> P s) ->
  forall s : list N, P s.
Proof.
  intros step s.
  remember (List.length s) as n eqn:Hn.
  revert s Hn.
  induction n as [n IH] using lt_wf_ind.
  intros s ->. apply step. intros t Ht. exact (IH _ Ht t eq_refl).
Qed.

Lemma is_hspace_is_space c : is_hspace c = true -> is_space c = true.
Proof.
  unfold is_hspace. rewrite orb_true_iff, !N.eqb_eq.
  intros [-> | ->]; reflexivity.
Qed.

Lemma LF_is_space : is_space LF = true.
Proof. reflexivity. Qed.

Lemma LF_not_hspace : is_hspace LF = false.
Proof. reflexivity. Qed.

Lemma eqb_LF_is_space c : (c =? LF) = true -> is_space c = true.
Proof. rewrite N.eqb_eq. intros ->. reflexivity. Qed.

Lemma last_sat_app_one P s c : last_sat P (s ++ [c]) = P c.
Proof.
  induction s as [|a r IH]; [reflexivity|].
  simpl. destruct (r ++ [c]) eqn:E.
  - destruct r; discriminate.
  - exact IH.
Qed.

Lemma last_sat_weaken (P Q : char -> bool) s :
  (forall c, Q c = true -> P c = true) ->
  last_sat P s = false -> last_sat Q s = false.
Proof.
  intros HPQ. induction s as [|a r IH]; [reflexivity|].
  simpl. destruct r as [|b t].
  - intros Ha. destruct (Q a) eqn:E; [|reflexivity].
    rewrite (HPQ _ E) in Ha. discriminate.
  - exact IH.
Qed.

Lemma lstrip_suffix s : exists p, s = p ++ lstrip s /\ blank p = true.
Proof.
  induction s as [|c r [p [Hp Hb]]].
  - exists []. split; reflexivity.
  - simpl. destruct (is_space c) eqn:E.
    + exists (c :: p). split.
      * simpl. f_equal. exact Hp.
      * simpl. rewrite E. exact Hb.
    + exists []. split; reflexivity.
Qed.

Lemma lstrip_head c t s : lstrip s = c :: t -> is_space c = false.
Proof.
  induction s as [|a r IH]; [discriminate|].
  simpl. destruct (is_space a) eqn:E.
  - exact IH.
  - intros [= <- _]. exact E.
Qed.

Lemma lstrip_nonspace c t : is_space c = false -> lstrip (c :: t) = c :: t.
Proof. intros E. simpl. rewrite E. reflexivity. Qed.

Lemma lstrip_blank s : blank s = true -> lstrip s = [].
Proof.
  induction s as [|c r IH]; [reflexivity|].
  simpl. intros H. apply andb_true_iff in H as [Hc Hr].
  rewrite Hc. exact (IH Hr).
Qed.

Lemma rstrip_nonspace c t : is_space c = false -> rstrip (c :: t) = c :: rstrip t.
Proof. intros E. simpl. rewrite E. destruct (rstrip t); reflexivity. Qed.

Lemma rstrip_prefix s : exists q, s = rstrip s ++ q /\ blank q = true.
Proof.
  induction s as [|c r [q [Hq Hb]]].
  - exists []. split; reflexivity.
  - simpl. destruct (rstrip r) as [|d t] eqn:E.
    + simpl in Hq. destruct (is_space c) eqn:Ec.
      * exists (c :: q). split; [simpl; f_equal; exact Hq|].
        simpl. rewrite Ec. exact Hb.
      * exists q. split; [simpl; f_equal; exact Hq | exact Hb].
    + exists q. split; [|exact Hb].
      simpl. f_equal. exact Hq.
Qed.

Lemma rstrip_last s : last_sat is_space (rstrip s) = false.
Proof.
  induction s as [|c r IH]; [reflexivity|].
  simpl. destruct (rstrip r) as [|d t] eqn:E.
  - destruct (is_space c) eqn:Ec; simpl; [reflexivity | exact Ec].
  - exact IH.
Qed.

Lemma rstrip_idem s : rstrip (rstrip s) = rstrip s.
Proof.
  induction s as [|c r IH]; [reflexivity|].
  simpl. destruct (rstrip r) as [|d t] eqn:E.
  - destruct (is_space c) eqn:Ec; simpl; [reflexivity|].
    rewrite Ec. reflexivity.
  - change (rstrip (c :: d :: t)) with
      (match rstrip (d :: t) with
       | [] => if is_space c then [] else [c]
       | r' => c :: r'
       end).
    rewrite IH. reflexivity.
Qed.

Lemma strip_last s : last_sat is_space (strip s) = false.
Proof. apply rstrip_last. Qed.

Lemma strip_idem s : strip (strip s) = strip s.
Proof.
  unfold strip.
  destruct (lstrip s) as [|c t] eqn:E; [reflexivity|].
  pose proof (lstrip_head _ _ _ E) as Hc.
  rewrite (rstrip_nonspace _ _ Hc), (lstrip_nonspace _ _ Hc).
  rewrite <- (rstrip_nonspace _ _ Hc). apply rstrip_idem.
Qed.

Lemma strip_blank s : blank s = true -> strip s = [].
Proof. intros H. unfold strip. rewrite (lstrip_blank _ H). reflexivity. Qed.

(** [strip] keeps a middle part of the string. *)
Lemma strip_infix s :
  exists p q, s = p ++ strip s ++ q /\ blank p = true /\ blank q = true.
Proof.
  destruct (lstrip_suffix s) as [p [Hp Hbp]].
  destruct (rstrip_prefix (lstrip s)) as [q [Hq Hbq]].
  exists p, q. repeat split; try assumption.
  unfold strip. rewrite <- Hq. exact Hp.
Qed.

End StringFacts.

(** ** The two substitutions *)

Section Substitutions.

Lemma run_then_newline_of_head r :
  starts_newline (sub_trailing_hspace r) = true -> run_then_newline r = true.
Proof.
  induction r as [|d r' IH]; [discriminate|].
  simpl. destruct (is_hspace d) eqn:Ed; simpl.
  - destruct (run_then_newline r') eqn:Er; [reflexivity|].
    simpl. intros H. apply N.eqb_eq in H. subst d. discriminate.
  - trivial.
Qed.

Lemma sub_trailing_hspace_free s : hs_nl_free (sub_trailing_hspace s) = true.
Proof.
  induction s as [|c r IH]; [reflexivity|].
  simpl. destruct (is_hspace c && run_then_newline r) eqn:E; [exact IH|].
  simpl. rewrite IH, andb_true_r.
  destruct (is_hspace c) eqn:Ec; [|reflexivity].
  simpl in *.
  destruct (starts_newline (sub_trailing_hspace r)) eqn:Eh; [|reflexivity].
  rewrite (run_then_newline_of_head _ Eh) in E. discriminate.
Qed.

Lemma run_then_newline_not_free c r :
  is_hspace c = true -> run_then_newline r = true ->
  hs_nl_free (c :: r) = false.
Proof.
  revert c. induction r as [|d r' IH]; intros c Hc Hr; [discriminate|].
  simpl in Hr. destruct (is_hspace d) eqn:Ed.
  - change (hs_nl_free (c :: d :: r'))
      with (negb (is_hspace c && (d =? LF)) && hs_nl_free (d :: r')).
    rewrite (IH d Ed Hr). apply andb_false_r.
  - simpl. rewrite Hc, Hr. reflexivity.
Qed.

Lemma sub_trailing_hspace_fixed s :
  hs_nl_free s = true -> sub_trailing_hspace s = s.
Proof.
  induction s as [|c r IH]; [reflexivity|].
  intros H.
  assert (Hr : hs_nl_free r = true).
  { simpl in H. apply andb_true_iff in H. tauto. }
  simpl. destruct (is_hspace c && run_then_newline r) eqn:E.
  - apply andb_true_iff in E as [Ec Er].
    rewrite (run_then_newline_not_free _ _ Ec Er) in H. discriminate.
  - f_equal. exact (IH Hr).
Qed.

Lemma sub_blank_runs_head s :
  starts_newline (sub_blank_runs s) = starts_newline s.
Proof.
  induction s as [|c r IH]; [reflexivity|].
  simpl. destruct ((c =? LF) && starts_two_newlines r) eqn:E; [|reflexivity].
  rewrite IH. apply andb_true_iff in E as [Ec Er]. rewrite Ec.
  destruct r as [|a [|b t]]; try discriminate.
  simpl in *. apply andb_true_iff in Er. tauto.
Qed.

Lemma starts_two_newlines_cons c s :
  starts_two_newlines (c :: s) = (c =? LF) && starts_newline s.
Proof. destruct s; simpl; [rewrite andb_false_r|]; reflexivity. Qed.

Lemma sub_blank_runs_two s :
  starts_two_newlines (sub_blank_runs s) = starts_two_newlines s.
Proof.
  induction s as [|c r IH]; [reflexivity|].
  cbn [sub_blank_runs]. destruct ((c =? LF) && starts_two_newlines r) eqn:E.
  - rewrite IH. apply andb_true_iff in E as [Ec Er]. rewrite Er.
    destruct r as [|a [|b t]]; try discriminate.
    simpl in *. rewrite Ec. apply andb_true_iff in Er as [-> _]. reflexivity.
  - rewrite !starts_two_newlines_cons, sub_blank_runs_head. reflexivity.
Qed.

Lemma sub_blank_runs_no_triple s : no_triple_nl (sub_blank_runs s) = true.
Proof.
  induction s as [|c r IH]; [reflexivity|].
  simpl. destruct ((c =? LF) && starts_two_newlines r) eqn:E; [exact IH|].
  simpl. rewrite sub_blank_runs_two, E, IH. reflexivity.
Qed.

Lemma sub_blank_runs_fixed s :
  no_triple_nl s = true -> sub_blank_runs s = s.
Proof.
  induction s as [|c r IH]; [reflexivity|].
  simpl. intros H. apply andb_true_iff in H as [Hc Hr].
  apply negb_true_iff in Hc. rewrite Hc. f_equal. exact (IH Hr).
Qed.

Lemma sub_blank_runs_hs_nl_free s :
  hs_nl_free s = true -> hs_nl_free (sub_blank_runs s) = true.
Proof.
  induction s as [|c r IH]; [reflexivity|].
  simpl. intros H. apply andb_true_iff in H as [Hc Hr].
  destruct ((c =? LF) && starts_two_newlines r); [exact (IH Hr)|].
  simpl. rewrite sub_blank_runs_head, Hc, (IH Hr). reflexivity.
Qed.

(** Both substitutions only delete characters. *)
Lemma sub_trailing_hspace_forallb (Q : char -> bool) s :
  forallb Q s = true -> forallb Q (sub_trailing_hspace s) = true.
Proof.
  induction s as [|c r IH]; [reflexivity|].
  simpl. intros H. apply andb_true_iff in H as [Hc Hr].
  destruct (is_hspace c && run_then_newline r); simpl;
    [|rewrite Hc]; exact (IH Hr).
Qed.

Lemma sub_blank_runs_forallb (Q : char -> bool) s :
  forallb Q s = true -> forallb Q (sub_blank_runs s) = true.
Proof.
  induction s as [|c r IH]; [reflexivity|].
  simpl. intros H. apply andb_true_iff in H as [Hc Hr].
  destruct ((c =? LF) && starts_two_newlines r); simpl;
    [|rewrite Hc]; exact (IH Hr).
Qed.

End Substitutions.

(** ** Closure of the invariants under taking a part of the text *)

Section Parts.

Lemma hs_nl_free_tail c r : hs_nl_free (c :: r) = true -> hs_nl_free r = true.
Proof. simpl. intros H. apply andb_true_iff in H. tauto. Qed.

Lemma hs_nl_free_app_r p s : hs_nl_free (p ++ s) = true -> hs_nl_free s = true.
Proof.
  induction p as [|c p IH]; [trivial|].
  intros H. apply IH. exact (hs_nl_free_tail _ _ H).
Qed.

Lemma starts_newline_app s q :
  starts_newline s = true -> starts_newline (s ++ q) = true.
Proof. destruct s; [discriminate | trivial]. Qed.

Lemma hs_nl_free_app_l s q : hs_nl_free (s ++ q) = true -> hs_nl_free s = true.
Proof.
  induction s as [|c r IH]; [reflexivity|].
  simpl. intros H. apply andb_true_iff in H as [Hc Hr].
  rewrite (IH Hr), andb_true_r.
  destruct (is_hspace c); [|reflexivity]. simpl in *.
  destruct (starts_newline r) eqn:E; [|reflexivity].
  rewrite (starts_newline_app _ q E) in Hc. discriminate.
Qed.

Lemma no_triple_nl_app_r p s :
  no_triple_nl (p ++ s) = true -> no_triple_nl s = true.
Proof.
  induction p as [|c p IH]; [trivial|].
  simpl. intros H. apply andb_true_iff in H as [_ H]. exact (IH H).
Qed.

Lemma starts_two_newlines_app s q :
  starts_two_newlines s = true -> starts_two_newlines (s ++ q) = true.
Proof. destruct s as [|a [|b t]]; try discriminate; trivial. Qed.

Lemma no_triple_nl_app_l s q :
  no_triple_nl (s ++ q) = true -> no_triple_nl s = true.
Proof.
  induction s as [|c r IH]; [reflexivity|].
  simpl. intros H. apply andb_true_iff in H as [Hc Hr].
  rewrite (IH Hr), andb_true_r.
  destruct (c =? LF); [|reflexivity]. simpl in *.
  destruct (starts_two_newlines r) eqn:E; [|reflexivity].
  rewrite (starts_two_newlines_app _ q E) in Hc. discriminate.
Qed.

Lemma forallb_strip (Q : char -> bool) s :
  forallb Q s = true -> forallb Q (strip s) = true.
Proof.
  destruct (strip_infix s) as [p [q [Hs _]]].
  intros H. rewrite Hs, !forallb_app in H.
  apply andb_true_iff in H as [_ H]. apply andb_true_iff in H. tauto.
Qed.

Lemma hs_nl_free_strip s : hs_nl_free s = true -> hs_nl_free (strip s) = true.
Proof.
  destruct (strip_infix s) as [p [q [Hs _]]].
  intros H. rewrite Hs in H.
  exact (hs_nl_free_app_l _ _ (hs_nl_free_app_r _ _ H)).
Qed.

Lemma no_triple_nl_strip s :
  no_triple_nl s = true -> no_triple_nl (strip s) = true.
Proof.
  destruct (strip_infix s) as [p [q [Hs _]]].
  intros H. rewrite Hs in H.
  exact (no_triple_nl_app_l _ _ (no_triple_nl_app_r _ _ H)).
Qed.

(** Appending the final newline. *)
Lemma hs_nl_free_snoc_LF s :
  hs_nl_free s = true -> last_sat is_hspace s = false ->
  hs_nl_free (s ++ [LF]) = true.
Proof.
  induction s as [|c r IH]; [reflexivity|].
  intros H Hl. simpl in H. apply andb_true_iff in H as [Hc Hr].
  destruct r as [|d t].
  - simpl in *. rewrite Hl. reflexivity.
  - change ((c :: d :: t) ++ [LF]) with (c :: (d :: t) ++ [LF]).
    change (hs_nl_free (c :: (d :: t) ++ [LF]))
      with (negb (is_hspace c && (d =? LF))
            && hs_nl_free ((d :: t) ++ [LF])).
    rewrite (IH Hr Hl). simpl in Hc. rewrite Hc. reflexivity.
Qed.

Lemma no_triple_nl_snoc_LF s :
  no_triple_nl s = true -> last_sat (fun c => c =? LF) s = false ->
  no_triple_nl (s ++ [LF]) = true.
Proof.
  induction s as [|c r IH]; [reflexivity|].
  intros H Hl. simpl in H. apply andb_true_iff in H as [Hc Hr].
  destruct r as [|d [|e t]].
  - simpl. rewrite !andb_false_r. reflexivity.
  - simpl in *. rewrite Hl, !andb_false_r. reflexivity.
  - change (no_triple_nl ((c :: d :: e :: t) ++ [LF]))
      with (negb ((c =? LF) && ((d =? LF) && (e =? LF)))
            && no_triple_nl ((d :: e :: t) ++ [LF])).
    rewrite (IH Hr Hl). simpl in Hc. rewrite Hc. reflexivity.
Qed.

End Parts.

(** ** Lines *)

Section Lines.

Lemma str_ind2 (P : list char -> Prop) :
  P [] -> (forall c, P [c]) ->
  (forall c d r, P r -> P (d :: r) -> P (c :: d :: r)) ->
  forall s : list char, P s.
Proof.
  intros H0 H1 H2 s.
  assert (H : P s /\ forall c, P (c :: s)); [|exact (proj1 H)].
  induction s as [|d r [IHr IHc]]; split; auto.
Qed.

Lemma splitlines_cons c d r :
  splitlines (c :: d :: r) =
  if is_linebreak c then
    if (c =? CR) && (d =? LF) then [] :: splitlines r
    else [] :: splitlines (d :: r)
  else match splitlines (d :: r) with
       | [] => [[c]]
       | l :: ls => (c :: l) :: ls
       end.
Proof. reflexivity. Qed.

Lemma splitlines_forallb (Q : char -> bool) s :
  forallb Q s = true -> Forall (fun l => forallb Q l = true) (splitlines s).
Proof.
  induction s as [|c|c d r IHr IHd] using str_ind2; intros H.
  - constructor.
  - simpl in *. destruct (is_linebreak c); repeat constructor. exact H.
  - assert (Hd : forallb Q (d :: r) = true)
      by (simpl in H; apply andb_true_iff in H; tauto).
    assert (Hr : forallb Q r = true)
      by (simpl in Hd; apply andb_true_iff in Hd; tauto).
    assert (Hc : Q c = true)
      by (simpl in H; apply andb_true_iff in H; tauto).
    specialize (IHr Hr). specialize (IHd Hd).
    rewrite splitlines_cons.
    destruct (is_linebreak c).
    + destruct ((c =? CR) && (d =? LF)); constructor; auto.
    + destruct (splitlines (d :: r)) as [|l ls].
      * repeat constructor. simpl. rewrite Hc. reflexivity.
      * inversion IHd; subst. constructor; [|assumption].
        simpl. rewrite Hc. assumption.
Qed.

Lemma splitlines_no_break s :
  Forall (fun l => forallb (fun c => negb (is_linebreak c)) l = true)
         (splitlines s).
Proof.
  induction s as [|c|c d r IHr IHd] using str_ind2.
  - constructor.
  - simpl. destruct (is_linebreak c) eqn:E; repeat constructor.
    simpl. rewrite E. reflexivity.
  - rewrite splitlines_cons.
    destruct (is_linebreak c) eqn:E.
    + destruct ((c =? CR) && (d =? LF)); constructor; auto.
    + destruct (splitlines (d :: r)) as [|l ls].
      * repeat constructor. simpl. rewrite E. reflexivity.
      * inversion IHd; subst. constructor; [|assumption].
        simpl. rewrite E. assumption.
Qed.

Lemma splitlines_nonempty c r : splitlines (c :: r) <> [].
Proof.
  simpl. destruct (is_linebreak c).
  - destruct r as [|d r']; [discriminate|].
    destruct ((c =? CR) && (d =? LF)); discriminate.
  - destruct (splitlines r); discriminate.
Qed.

Lemma forallb_weaken (P Q : char -> bool) s :
  (forall c, P c = true -> Q c = true) ->
  forallb P s = true -> forallb Q s = true.
Proof.
  intros HPQ. induction s as [|c r IH]; [reflexivity|].
  simpl. intros H. apply andb_true_iff in H as [Hc Hr].
  rewrite (HPQ _ Hc). exact (IH Hr).
Qed.

Lemma join_cons_cons sep x y rest :
  join sep (x :: y :: rest) = x ++ sep ++ join sep (y :: rest).
Proof. reflexivity. Qed.

Lemma join_push c l ls : join [LF] ((c :: l) :: ls) = c :: join [LF] (l :: ls).
Proof. destruct ls; reflexivity. Qed.

Lemma join_forallb (Q : char -> bool) ls :
  Q LF = true -> Forall (fun l => forallb Q l = true) ls ->
  forallb Q (join [LF] ls) = true.
Proof.
  intros HQ. induction ls as [|x rest IH]; intros H; [reflexivity|].
  inversion H as [|? ? Hx Hrest]; subst.
  destruct rest as [|y rest']; [exact Hx|].
  rewrite join_cons_cons, !forallb_app, Hx.
  cbn [forallb]. rewrite HQ. exact (IH Hrest).
Qed.

Lemma Forall_flat_map_splitlines (P : str -> Prop) ps :
  (forall p, In p ps -> Forall P (splitlines p)) ->
  Forall P (flat_map splitlines ps).
Proof.
  induction ps as [|p rest IH]; intros H; [constructor|].
  simpl. apply Forall_app. split.
  - apply H. left. reflexivity.
  - apply IH. intros q Hq. apply H. right. exact Hq.
Qed.

(** Cutting a text at its newlines and joining the pieces again. *)
Lemma join_splitlines_snoc s :
  nl_only s = true -> join [LF] (splitlines (s ++ [LF])) = s.
Proof.
  induction s as [|c r IH]; [reflexivity|].
  intros H. unfold nl_only in H. simpl in H.
  apply andb_true_iff in H as [Hc Hr]. specialize (IH Hr).
  change ((c :: r) ++ [LF]) with (c :: (r ++ [LF])).
  destruct (r ++ [LF]) as [|d t] eqn:E; [destruct r; discriminate|].
  pose proof (splitlines_nonempty d t) as Hne.
  rewrite splitlines_cons.
  destruct (is_linebreak c) eqn:Eb.
  - simpl in Hc. apply N.eqb_eq in Hc. subst c.
    change ((LF =? CR) && (d =? LF)) with false. cbv iota.
    destruct (splitlines (d :: t)) as [|l ls] eqn:El; [contradiction|].
    rewrite join_cons_cons. simpl. f_equal. exact IH.
  - destruct (splitlines (d :: t)) as [|l ls] eqn:El; [contradiction|].
    rewrite join_push. f_equal. exact IH.
Qed.

(** The lines of a text without a space or tab before a newline, and
    not at its end either, have no trailing space or tab. *)
Lemma split_nl_nonempty s : split_nl s <> [].
Proof.
  destruct s as [|c r]; simpl; [discriminate|].
  destruct (c =? LF); [discriminate|].
  destruct (split_nl r); discriminate.
Qed.

Lemma split_nl_empty_head s ls :
  split_nl s = [] :: ls -> s = [] \/ starts_newline s = true.
Proof.
  destruct s as [|c r]; [left; reflexivity|].
  simpl. destruct (c =? LF) eqn:E; [right; reflexivity|].
  destruct (split_nl r); discriminate.
Qed.

Lemma split_nl_no_trailing s :
  hs_nl_free s = true -> last_sat is_hspace s = false ->
  Forall (fun line => last_sat is_hspace line = false) (split_nl s).
Proof.
  induction s as [|c r IH]; intros H Hl.
  - repeat constructor.
  - simpl in H. apply andb_true_iff in H as [Hc Hr].
    assert (Hlr : last_sat is_hspace r = false).
    { destruct r; [reflexivity | exact Hl]. }
    specialize (IH Hr Hlr).
    simpl. destruct (c =? LF) eqn:E.
    + constructor; [reflexivity | exact IH].
    + destruct (split_nl r) as [|l ls] eqn:El.
      * exfalso. exact (split_nl_nonempty _ El).
      * inversion IH; subst. constructor; [|assumption].
        destruct l as [|d l']; [|assumption].
        destruct (split_nl_empty_head _ _ El) as [-> | Hn].
        -- exact Hl.
        -- rewrite Hn, andb_true_r in Hc. simpl.
           apply negb_true_iff in Hc. exact Hc.
Qed.

Lemma no_triple_nl_spec s :
  no_triple_nl s = true -> forall a b, s <> a ++ [LF; LF; LF] ++ b.
Proof.
  intros H a b ->. apply no_triple_nl_app_r in H. discriminate.
Qed.

End Lines.

(** ** The normaliser *)

Section Normaliser.

(** The text before the final newline, and what holds of it. *)
Lemma to_text_shape (d : DocxText) :
  exists body,
    to_text d = body ++ [LF]
    /\ strip body = body
    /\ last_sat is_space body = false
    /\ hs_nl_free body = true
    /\ no_triple_nl body = true
    /\ nl_only body = true.
Proof.
  unfold to_text.
  set (text := join [LF] (flat_map splitlines (paragraphs d))).
  exists (strip (sub_blank_runs (sub_trailing_hspace text))).
  split; [reflexivity|]. split; [apply strip_idem|].
  split; [apply strip_last|]. split; [|split].
  - apply hs_nl_free_strip, sub_blank_runs_hs_nl_free,
      sub_trailing_hspace_free.
  - apply no_triple_nl_strip, sub_blank_runs_no_triple.
  - apply forallb_strip, sub_blank_runs_forallb, sub_trailing_hspace_forallb.
    apply join_forallb; [reflexivity|].
    apply Forall_flat_map_splitlines. intros p _.
    eapply Forall_impl; [|apply splitlines_no_break].
    intros l. apply forallb_weaken. intros c Hc. rewrite Hc. reflexivity.
Qed.

(** C6. Every text the normaliser produces has no line ending in a space
    or a tab, has no three newlines in a row, and ends with exactly one
    newline. *)
Theorem C6_normalized_text_invariant (d : DocxText) :
  Forall (fun line => last_sat is_hspace line = false) (split_nl (to_text d))
  /\ (forall a b, to_text d <> a ++ [LF; LF; LF] ++ b)
  /\ (exists body, to_text d = body ++ [LF]
                   /\ last_sat (fun c => c =? LF) body = false).
Proof.
  destruct (to_text_shape d) as [body [E [_ [Hl [Hf [Ht _]]]]]].
  assert (Hlh : last_sat is_hspace body = false)
    by exact (last_sat_weaken _ _ _ is_hspace_is_space Hl).
  assert (Hln : last_sat (fun c => c =? LF) body = false)
    by exact (last_sat_weaken _ _ _ eqb_LF_is_space Hl).
  rewrite E. split; [|split].
  - apply split_nl_no_trailing.
    + exact (hs_nl_free_snoc_LF _ Hf Hlh).
    + rewrite last_sat_app_one. reflexivity.
  - apply no_triple_nl_spec. exact (no_triple_nl_snoc_LF _ Ht Hln).
  - exists body. split; [reflexivity | exact Hln].
Qed.

(** C7. The normaliser is idempotent: its output, given back as the one
    paragraph of a document, is returned unchanged. *)
Theorem C7_to_text_idempotent (d : DocxText) :
  to_text (mkDocxText [to_text d]) = to_text d.
Proof.
  destruct (to_text_shape d) as [body [E [Hs [_ [Hf [Ht Hn]]]]]].
  rewrite E. unfold to_text at 1. simpl paragraphs. simpl flat_map.
  rewrite app_nil_r, (join_splitlines_snoc _ Hn).
  rewrite (sub_trailing_hspace_fixed _ Hf), (sub_blank_runs_fixed _ Ht), Hs.
  reflexivity.
Qed.

End Normaliser.

(** ** Element trees *)

Section Trees.

Lemma Element_nested_ind (P : Element -> Prop) :
  (forall t x tl cs, Forall P cs -> P (Elem t x tl cs)) ->
  forall e, P e.
Proof.
  intros step. fix IH 1. intros [t x tl cs]. apply step.
  induction cs as [|c cs IHcs]; constructor; [apply IH | exact IHcs].
Qed.

Lemma filter_flat_map {A B} (f : B -> bool) (g : A -> list B) l :
  filter f (flat_map g l) = flat_map (fun a => filter f (g a)) l.
Proof.
  induction l as [|a l IH]; [reflexivity|].
  simpl. rewrite filter_app, IH. reflexivity.
Qed.

Lemma flat_map_ext_Forall {A B} (f g : A -> list B) l :
  Forall (fun a => f a = g a) l -> flat_map f l = flat_map g l.
Proof.
  induction 1 as [|a l Ha _ IH]; [reflexivity|].
  simpl. rewrite Ha, IH. reflexivity.
Qed.

(** Filtering the depth-first listing is the depth-first walk. *)
Lemma filter_iter_paragraphs e :
  filter is_paragraph (iter e) = paragraph_elements e.
Proof.
  induction e as [t x tl cs IH] using Element_nested_ind.
  cbn [iter paragraph_elements filter].
  rewrite filter_flat_map, (flat_map_ext_Forall _ _ _ IH).
  destruct (is_paragraph (Elem t x tl cs)); reflexivity.
Qed.

Lemma findall_paragraphs root :
  findall_descendants W_NS (lit "p") root = paragraphs_below root.
Proof.
  unfold findall_descendants, paragraphs_below.
  change (fun e => str_eqb (tag_of e) (qname W_NS (lit "p")))
    with is_paragraph.
  rewrite filter_flat_map. apply flat_map_ext_Forall.
  apply Forall_forall. intros e _. apply filter_iter_paragraphs.
Qed.

Lemma fold_left_snoc {A B} (f : A -> B) l acc :
  fold_left (fun out a => out ++ [f a]) l acc = acc ++ List.map f l.
Proof.
  revert acc. induction l as [|a l IH]; intros acc; simpl.
  - rewrite app_nil_r. reflexivity.
  - rewrite IH, <- app_assoc. reflexivity.
Qed.

Lemma fold_left_extend {A B} (f : A -> list B) l acc :
  fold_left (fun out a => out ++ f a) l acc = acc ++ flat_map f l.
Proof.
  revert acc. induction l as [|a l IH]; intros acc; simpl.
  - rewrite app_nil_r. reflexivity.
  - rewrite IH, <- app_assoc. reflexivity.
Qed.

Lemma extract_paragraphs_map root :
  _extract_paragraphs_from_xml root =
  List.map (fun p => _extract_paragraph_text p W_NS) (paragraphs_below root).
Proof.
  unfold _extract_paragraphs_from_xml.
  rewrite fold_left_snoc, findall_paragraphs. reflexivity.
Qed.

Lemma flat_map_flat_map {A B C} (f : B -> list C) (g : A -> list B) l :
  flat_map f (flat_map g l) = flat_map (fun a => flat_map f (g a)) l.
Proof.
  induction l as [|a l IH]; [reflexivity|].
  simpl. rewrite flat_map_app, IH. reflexivity.
Qed.

Lemma flat_map_emit_iter w e : flat_map (emit w) (iter e) = fragments w e.
Proof.
  induction e as [t x tl cs IH] using Element_nested_ind.
  cbn [iter fragments flat_map]. f_equal.
  rewrite flat_map_flat_map.
  apply flat_map_ext_Forall. exact IH.
Qed.

Lemma join_nil_concat xs : join [] xs = List.concat xs.
Proof.
  induction xs as [|x rest IH]; [reflexivity|].
  destruct rest as [|y rest'].
  - simpl. rewrite app_nil_r. reflexivity.
  - rewrite join_cons_cons, IH. reflexivity.
Qed.

Lemma extract_paragraph_text_fragments p w :
  _extract_paragraph_text p w = strip (List.concat (fragments w p)).
Proof.
  unfold _extract_paragraph_text.
  rewrite fold_left_extend, join_nil_concat, flat_map_emit_iter. reflexivity.
Qed.

End Trees.

(** ** Stripping a concatenation *)

Section Stripping.

Lemma rstrip_blank s : blank s = true -> rstrip s = [].
Proof.
  induction s as [|c r IH]; [reflexivity|].
  simpl. intros H. apply andb_true_iff in H as [Hc Hr].
  rewrite (IH Hr), Hc. reflexivity.
Qed.

Lemma rstrip_nil_blank s : rstrip s = [] -> blank s = true.
Proof.
  induction s as [|c r IH]; [reflexivity|].
  simpl. destruct (rstrip r) as [|d t]; [|discriminate].
  destruct (is_space c); [|discriminate].
  intros _. exact (IH eq_refl).
Qed.

Lemma lstrip_app_blank p s : blank p = true -> lstrip (p ++ s) = lstrip s.
Proof.
  induction p as [|c p IH]; [reflexivity|].
  simpl. intros H. apply andb_true_iff in H as [Hc Hp].
  rewrite Hc. exact (IH Hp).
Qed.

Lemma lstrip_app_nonblank a s : blank a = false -> lstrip (a ++ s) = lstrip a ++ s.
Proof.
  induction a as [|c a IH]; [discriminate|].
  simpl. destruct (is_space c); [exact IH | reflexivity].
Qed.

Lemma rstrip_app_blank t q : blank q = true -> rstrip (t ++ q) = rstrip t.
Proof.
  intros H. induction t as [|c r IH]; [exact (rstrip_blank _ H)|].
  simpl. rewrite IH. reflexivity.
Qed.

Lemma rstrip_app_nonblank s b : blank b = false -> rstrip (s ++ b) = s ++ rstrip b.
Proof.
  intros H. induction s as [|c r IH]; [reflexivity|].
  simpl. rewrite IH.
  destruct (r ++ rstrip b) as [|d t] eqn:E; [|reflexivity].
  apply app_eq_nil in E as [_ E].
  rewrite (rstrip_nil_blank _ E) in H. discriminate.
Qed.

Lemma blank_app a b : blank (a ++ b) = blank a && blank b.
Proof. apply forallb_app. Qed.

Lemma strip_app_blank_l p s : blank p = true -> strip (p ++ s) = strip s.
Proof. intros H. unfold strip. rewrite (lstrip_app_blank _ _ H). reflexivity. Qed.

Lemma strip_app_blank_r s q : blank q = true -> strip (s ++ q) = strip s.
Proof.
  intros H. unfold strip. destruct (blank s) eqn:E.
  - rewrite !lstrip_blank; [reflexivity | exact E |].
    rewrite blank_app, E, H. reflexivity.
  - rewrite (lstrip_app_nonblank _ _ E). apply rstrip_app_blank. exact H.
Qed.

(** Text with something other than white space on both sides is kept by
    [strip], whatever it is. *)
Lemma strip_between a mid b :
  blank a = false -> blank b = false ->
  strip (a ++ mid ++ b) = lstrip a ++ mid ++ rstrip b.
Proof.
  intros Ha Hb. unfold strip.
  rewrite (lstrip_app_nonblank _ _ Ha), !app_assoc.
  rewrite (rstrip_app_nonblank _ _ Hb). reflexivity.
Qed.

Lemma rstrip_fixed s : last_sat is_space s = false -> rstrip s = s.
Proof.
  induction s as [|c r IH]; [reflexivity|].
  destruct r as [|d t].
  - simpl. intros ->. reflexivity.
  - intros H. change (rstrip (c :: d :: t)) with
      (match rstrip (d :: t) with
       | [] => if is_space c then [] else [c]
       | r' => c :: r'
       end).
    rewrite (IH H). reflexivity.
Qed.

Lemma last_sat_app P s y : y <> [] -> last_sat P (s ++ y) = last_sat P y.
Proof.
  intros Hy. induction s as [|c r IH]; [reflexivity|].
  simpl. destruct (r ++ y) eqn:E; [|exact IH].
  apply app_eq_nil in E as [_ E]. contradiction.
Qed.

Lemma solid_last y : solid y = true -> last_sat is_space y = false.
Proof.
  induction y as [|c r IH]; [reflexivity|].
  simpl. intros H. apply andb_true_iff in H as [Hc Hr].
  destruct r; [apply negb_true_iff; exact Hc | exact (IH Hr)].
Qed.

Lemma is_linebreak_is_space c : is_linebreak c = true -> is_space c = true.
Proof.
  unfold is_linebreak. intros H.
  rewrite !orb_true_iff, !andb_true_iff, !N.eqb_eq, !N.leb_le in H.
  unfold is_space.
  destruct H as [[[[[H1 H2] | [H1 H2]] | ->] | ->] | ->]; try reflexivity.
  - replace (9 <=? c) with true by (symmetry; apply N.leb_le; lia).
    replace (c <=? 13) with true by (symmetry; apply N.leb_le; lia).
    reflexivity.
  - replace (c <=? 13) with false by (symmetry; apply N.leb_gt; lia).
    replace (28 <=? c) with true by (symmetry; apply N.leb_le; lia).
    replace (c <=? 32) with true by (symmetry; apply N.leb_le; lia).
    rewrite andb_false_r. reflexivity.
Qed.

Lemma nl_only_app a b : nl_only (a ++ b) = nl_only a && nl_only b.
Proof. apply forallb_app. Qed.

Lemma solid_nl_only s : solid s = true -> nl_only s = true.
Proof.
  apply forallb_weaken. intros c Hc.
  destruct (is_linebreak c) eqn:E; [|reflexivity].
  rewrite (is_linebreak_is_space _ E) in Hc. discriminate.
Qed.

Lemma solid_hs_nl_free x s : solid x = true -> hs_nl_free (x ++ s) = hs_nl_free s.
Proof.
  induction x as [|c r IH]; [reflexivity|].
  simpl. intros H. apply andb_true_iff in H as [Hc Hr].
  rewrite (IH Hr). destruct (is_hspace c) eqn:E; [|reflexivity].
  rewrite (is_hspace_is_space _ E) in Hc. discriminate.
Qed.

Lemma solid_no_triple_nl x s :
  solid x = true -> no_triple_nl (x ++ s) = no_triple_nl s.
Proof.
  induction x as [|c r IH]; [reflexivity|].
  simpl. intros H. apply andb_true_iff in H as [Hc Hr].
  rewrite (IH Hr). destruct (c =? LF) eqn:E; [|reflexivity].
  rewrite (eqb_LF_is_space _ E) in Hc. discriminate.
Qed.

Lemma solid_starts_newline y : solid y = true -> starts_newline y = false.
Proof.
  destruct y as [|c r]; [reflexivity|].
  simpl. intros H. apply andb_true_iff in H as [Hc _].
  destruct (c =? LF) eqn:E; [|reflexivity].
  rewrite (eqb_LF_is_space _ E) in Hc. discriminate.
Qed.

Lemma solid_starts_two_newlines y :
  solid y = true -> starts_two_newlines y = false.
Proof.
  destruct y as [|c r]; [reflexivity|].
  intros H. rewrite starts_two_newlines_cons.
  change (starts_newline (c :: ?r)) with (c =? LF).
  pose proof (solid_starts_newline _ H) as Hc. simpl in Hc.
  rewrite Hc. reflexivity.
Qed.

End Stripping.

(** ** Texts the normaliser leaves alone *)

Section CleanTexts.

Lemma join_splitlines s :
  nl_only s = true -> last_sat (fun c => c =? LF) s = false ->
  join [LF] (splitlines s) = s.
Proof.
  induction s as [|c r IH]; [reflexivity|].
  intros H Hl. unfold nl_only in H. simpl in H.
  apply andb_true_iff in H as [Hc Hr].
  destruct r as [|d t].
  - simpl in *. destruct (is_linebreak c); [|reflexivity].
    simpl in Hc. rewrite Hc in Hl. discriminate.
  - specialize (IH Hr Hl).
    pose proof (splitlines_nonempty d t) as Hne.
    rewrite splitlines_cons.
    destruct (is_linebreak c) eqn:Eb.
    + simpl in Hc. apply N.eqb_eq in Hc. subst c.
      change ((LF =? CR) && (d =? LF)) with false. cbv iota.
      destruct (splitlines (d :: t)) as [|l ls] eqn:El; [contradiction|].
      rewrite join_cons_cons. simpl. f_equal. exact IH.
    + destruct (splitlines (d :: t)) as [|l ls] eqn:El; [contradiction|].
      rewrite join_push. f_equal. exact IH.
Qed.

Lemma to_text_clean s :
  nl_only s = true -> hs_nl_free s = true -> no_triple_nl s = true ->
  strip s = s ->
  to_text (mkDocxText [s]) = s ++ [LF].
Proof.
  intros Hn Hf Ht Hs.
  assert (Hl : last_sat (fun c => c =? LF) s = false).
  { apply (last_sat_weaken is_space); [exact eqb_LF_is_space|].
    rewrite <- Hs. apply strip_last. }
  unfold to_text. simpl paragraphs. simpl flat_map.
  rewrite app_nil_r, (join_splitlines _ Hn Hl).
  rewrite (sub_trailing_hspace_fixed _ Hf), (sub_blank_runs_fixed _ Ht), Hs.
  reflexivity.
Qed.

(** Two pieces of text without white space, and a tab or a newline
    between them. *)
Lemma solid_pair_clean x sep y :
  x <> [] -> y <> [] -> solid x = true -> solid y = true ->
  sep = TAB \/ sep = LF ->
  strip (x ++ [sep] ++ y) = x ++ [sep] ++ y
  /\ to_text (mkDocxText [x ++ [sep] ++ y]) = x ++ [sep] ++ y ++ [LF].
Proof.
  intros Hx Hy Sx Sy Hsep.
  assert (Hstrip : strip (x ++ [sep] ++ y) = x ++ [sep] ++ y).
  { unfold strip. destruct x as [|c x']; [contradiction|].
    simpl in Sx. apply andb_true_iff in Sx as [Hc _].
    apply negb_true_iff in Hc.
    change ((c :: x') ++ [sep] ++ y) with (c :: (x' ++ [sep] ++ y)).
    rewrite (lstrip_nonspace _ _ Hc). apply rstrip_fixed.
    rewrite app_comm_cons, app_assoc, (last_sat_app _ _ _ Hy).
    exact (solid_last _ Sy). }
  split; [exact Hstrip|].
  replace (x ++ [sep] ++ y ++ [LF]) with ((x ++ [sep] ++ y) ++ [LF])
    by (rewrite <- !app_assoc; reflexivity).
  apply to_text_clean; [| | |exact Hstrip].
  - rewrite !nl_only_app, (solid_nl_only _ Sx), (solid_nl_only _ Sy).
    destruct Hsep as [-> | ->]; reflexivity.
  - rewrite (solid_hs_nl_free _ _ Sx).
    change ([sep] ++ y) with (sep :: y). cbn [hs_nl_free].
    rewrite (solid_starts_newline _ Sy), andb_false_r.
    rewrite <- (app_nil_r y), (solid_hs_nl_free _ _ Sy). reflexivity.
  - rewrite (solid_no_triple_nl _ _ Sx).
    change ([sep] ++ y) with (sep :: y). cbn [no_triple_nl].
    rewrite (solid_starts_two_newlines _ Sy), andb_false_r.
    rewrite <- (app_nil_r y), (solid_no_triple_nl _ _ Sy). reflexivity.
Qed.

Lemma splitlines_nobreak_LF y :
  forallb (fun c => negb (is_linebreak c)) y = true ->
  splitlines (y ++ [LF]) = [y].
Proof.
  induction y as [|c r IH]; [reflexivity|].
  simpl. intros H. apply andb_true_iff in H as [Hc Hr].
  apply negb_true_iff in Hc. rewrite Hc, (IH Hr). reflexivity.
Qed.

Lemma splitlines_nobreak_app x d r :
  forallb (fun c => negb (is_linebreak c)) x = true ->
  splitlines (x ++ LF :: d :: r) = x :: splitlines (d :: r).
Proof.
  induction x as [|c x' IH]; intros H.
  - cbn [app]. rewrite splitlines_cons. reflexivity.
  - simpl in H. apply andb_true_iff in H as [Hc Hx].
    apply negb_true_iff in Hc.
    cbn [app splitlines]. rewrite Hc, (IH Hx). reflexivity.
Qed.

Lemma solid_nobreak s :
  solid s = true -> forallb (fun c => negb (is_linebreak c)) s = true.
Proof.
  apply forallb_weaken. intros c Hc.
  destruct (is_linebreak c) eqn:E; [|reflexivity].
  rewrite (is_linebreak_is_space _ E) in Hc. discriminate.
Qed.

Lemma fragments_w_elem local text cs :
  fragments W_NS (w_elem local text cs)
  = emit W_NS (w_elem local text cs) ++ flat_map (fragments W_NS) cs.
Proof. reflexivity. Qed.

Lemma emit_w_p cs : emit W_NS (w_elem "p" None cs) = [].
Proof. reflexivity. Qed.

Lemma emit_w_r cs : emit W_NS (w_elem "r" None cs) = [].
Proof. reflexivity. Qed.

Lemma emit_w_t c x : emit W_NS (w_elem "t" (Some (c :: x)) []) = [c :: x].
Proof. reflexivity. Qed.

Lemma fragments_two_runs c x between d y :
  fragments W_NS (two_runs (c :: x) between (d :: y))
  = [c :: x] ++ fragments W_NS between ++ [d :: y].
Proof.
  unfold two_runs, w_p, w_r, w_t.
  rewrite fragments_w_elem, emit_w_p. cbn [flat_map].
  rewrite !fragments_w_elem, !emit_w_r. cbn [flat_map].
  rewrite !fragments_w_elem, !emit_w_t. cbn [flat_map app].
  rewrite !app_nil_r. reflexivity.
Qed.

End CleanTexts.

(** ** The paragraph text extractor *)

Section Extractor.

(** C1, as stated, fails on a part whose root element is a paragraph: the
    tree has one paragraph element and no line is returned for it. *)
Lemma C1_counterexample_root_paragraph :
  paragraph_elements paragraph_root = [paragraph_root]
  /\ _extract_paragraphs_from_xml paragraph_root = []
  /\ _extract_paragraphs_from_xml paragraph_root
     <> List.map (fun p => _extract_paragraph_text p W_NS)
                 (paragraph_elements paragraph_root).
Proof.
  split; [reflexivity|]. split; [reflexivity|].
  vm_compute. discriminate.
Qed.

(** C1 (amended). The extractor returns exactly one line per paragraph
    element strictly below the root of the part, in document order
    (depth first), paragraphs inside tables or other containers included;
    these are all the paragraph elements of the tree but the root itself
    when it is one.  A paragraph that emits nothing gives the empty
    string, which stays in the list. *)
Theorem C1_paragraph_lines (root p : Element) :
  fragments W_NS p = [] ->
  _extract_paragraphs_from_xml root
  = List.map (fun q => _extract_paragraph_text q W_NS) (paragraphs_below root)
  /\ List.length (_extract_paragraphs_from_xml root)
     = List.length (paragraphs_below root)
  /\ paragraph_elements root
     = (if is_paragraph root then [root] else []) ++ paragraphs_below root
  /\ _extract_paragraph_text p W_NS = [].
Proof.
  intros Hp. split; [apply extract_paragraphs_map|]. split; [|split].
  - rewrite extract_paragraphs_map. apply length_map.
  - destruct root as [t x tl cs]. reflexivity.
  - rewrite extract_paragraph_text_fragments, Hp. reflexivity.
Qed.

Lemma C1_paragraph_lines_witness :
  fragments W_NS (w_p []) = []
  /\ paragraphs_below sample_body
     = [w_p [];
        w_p [w_r [w_t (lit "cell")]];
        w_p [w_r [w_t (lit "x")]; w_r [w_tab]; w_r [w_t (lit "y")]]]
  /\ _extract_paragraphs_from_xml sample_body
     = List.map (fun q => _extract_paragraph_text q W_NS)
                (paragraphs_below sample_body)
  /\ _extract_paragraphs_from_xml sample_body
     = [[]; lit "cell"; lit "x" ++ [TAB] ++ lit "y"]
  /\ _extract_paragraph_text (w_p []) W_NS = [].
Proof.
  pose proof (C1_paragraph_lines sample_body (w_p []) eq_refl)
    as [Hmap [_ [_ Hempty]]].
  split; [reflexivity|]. split; [reflexivity|].
  split; [exact Hmap|]. split; [reflexivity | exact Hempty].
Defined.

(** C2, as stated, fails when the text next to a tab or a break is white
    space only: the tab between the two runs of [tab_after_space], and the
    break of [break_before_space], which is neither the first nor the last
    fragment, are stripped with it. *)
Lemma C2_counterexample_blank_run :
  fragments W_NS tab_after_space = [lit " "; [TAB]; lit "b"]
  /\ _extract_paragraph_text tab_after_space W_NS = lit "b"
  /\ ~ In TAB (_extract_paragraph_text tab_after_space W_NS)
  /\ fragments W_NS break_before_space = [lit "a"; [LF]; lit " "]
  /\ _extract_paragraph_text break_before_space W_NS = lit "a"
  /\ ~ In LF (_extract_paragraph_text break_before_space W_NS).
Proof.
  repeat split; try reflexivity.
  - vm_compute. intros [H | []]. discriminate.
  - vm_compute. intros [H | []]. discriminate.
Qed.

(** C2 (amended). The line of a paragraph is the concatenation, in
    depth-first order, of what its nodes emit (the text of a text node, a
    tab for a tab node, a newline for a break node), stripped as a whole.
    A newline emitted first or last disappears.  A tab or a newline with
    text other than white space emitted before it and after it is kept:
    between two runs of text without white space, a tab gives one line
    with the tab between the two, and a break gives two output lines. *)
Theorem C2_paragraph_line (p : Element) (w before after x y : str) :
  blank before = false -> blank after = false ->
  x <> [] -> y <> [] -> solid x = true -> solid y = true ->
  _extract_paragraph_text p w = strip (List.concat (fragments w p))
  /\ (forall s, strip ([LF] ++ s) = strip s /\ strip (s ++ [LF]) = strip s)
  /\ (forall sep, strip (before ++ [sep] ++ after)
                  = lstrip before ++ [sep] ++ rstrip after)
  /\ _extract_paragraph_text (two_runs x w_tab y) W_NS = x ++ [TAB] ++ y
  /\ splitlines (to_text (mkDocxText
                   [_extract_paragraph_text (two_runs x w_tab y) W_NS]))
     = [x ++ [TAB] ++ y]
  /\ _extract_paragraph_text (two_runs x w_br y) W_NS = x ++ [LF] ++ y
  /\ splitlines (to_text (mkDocxText
                   [_extract_paragraph_text (two_runs x w_br y) W_NS]))
     = [x; y].
Proof.
  intros Hb Ha Hx Hy Sx Sy.
  destruct (solid_pair_clean x TAB y Hx Hy Sx Sy (or_introl eq_refl))
    as [Tstrip Ttext].
  destruct (solid_pair_clean x LF y Hx Hy Sx Sy (or_intror eq_refl))
    as [Bstrip Btext].
  assert (Etab : _extract_paragraph_text (two_runs x w_tab y) W_NS
                 = x ++ [TAB] ++ y).
  { rewrite extract_paragraph_text_fragments.
    destruct x as [|c x']; [contradiction|].
    destruct y as [|d y']; [contradiction|].
    rewrite fragments_two_runs.
    change (fragments W_NS w_tab) with [[TAB]].
    cbn [List.concat app]. rewrite app_nil_r. exact Tstrip. }
  assert (Ebr : _extract_paragraph_text (two_runs x w_br y) W_NS
                = x ++ [LF] ++ y).
  { rewrite extract_paragraph_text_fragments.
    destruct x as [|c x']; [contradiction|].
    destruct y as [|d y']; [contradiction|].
    rewrite fragments_two_runs.
    change (fragments W_NS w_br) with [[LF]].
    cbn [List.concat app]. rewrite app_nil_r. exact Bstrip. }
  split; [apply extract_paragraph_text_fragments|].
  split.
  { intros s. split.
    - apply (strip_app_blank_l [LF]). reflexivity.
    - apply strip_app_blank_r. reflexivity. }
  split; [intros sep; apply strip_between; assumption|].
  split; [exact Etab|]. split; [|split; [exact Ebr|]].
  - transitivity (splitlines (x ++ [TAB] ++ y ++ [LF]));
      [f_equal; rewrite Etab; exact Ttext|].
    replace (x ++ [TAB] ++ y ++ [LF]) with ((x ++ [TAB] ++ y) ++ [LF])
      by (rewrite <- !app_assoc; reflexivity).
    apply splitlines_nobreak_LF.
    rewrite !forallb_app, (solid_nobreak _ Sx), (solid_nobreak _ Sy).
    reflexivity.
  - transitivity (splitlines (x ++ [LF] ++ y ++ [LF]));
      [f_equal; rewrite Ebr; exact Btext|].
    destruct y as [|d y']; [contradiction|].
    cbn [app].
    rewrite (splitlines_nobreak_app _ _ _ (solid_nobreak _ Sx)).
    f_equal. apply (splitlines_nobreak_LF (d :: y')).
    exact (solid_nobreak _ Sy).
Qed.

Lemma C2_paragraph_line_witness :
  _extract_paragraph_text (two_runs (lit "x") w_tab (lit "y")) W_NS
  = lit "x" ++ [TAB] ++ lit "y"
  /\ splitlines (to_text (mkDocxText
       [_extract_paragraph_text (two_runs (lit "x") w_br (lit "y")) W_NS]))
     = [lit "x"; lit "y"]
  /\ strip (lit " a" ++ [LF] ++ lit "b ") = lit "a" ++ [LF] ++ lit "b".
Proof.
  destruct (C2_paragraph_line sample_body W_NS (lit " a") (lit "b ")
              (lit "x") (lit "y"))
    as [_ [_ [Hmid [Htab [_ [_ Hbr]]]]]];
    try reflexivity; try discriminate.
  split; [exact Htab|]. split; [exact Hbr|]. exact (Hmid LF).
Defined.

End Extractor.

(** ** Order and sorting *)

Section Order.

Lemma str_eqb_eq a b : str_eqb a b = true <-> a = b.
Proof.
  revert b. induction a as [|x a IH]; intros [|y b]; simpl;
    try (split; [discriminate | discriminate]); [tauto|].
  rewrite andb_true_iff, N.eqb_eq, IH. split.
  - intros [-> ->]. reflexivity.
  - intros [= -> ->]. split; reflexivity.
Qed.

Lemma str_eqb_refl a : str_eqb a a = true.
Proof. apply str_eqb_eq. reflexivity. Qed.

Lemma str_eqb_neq a b : str_eqb a b = false <-> a <> b.
Proof.
  split.
  - intros H E. apply str_eqb_eq in E. rewrite E in H. discriminate.
  - intros H. destruct (str_eqb a b) eqn:E; [|reflexivity].
    apply str_eqb_eq in E. contradiction.
Qed.

Lemma str_leb_total a b : str_leb a b = false -> str_leb b a = true.
Proof.
  revert b. induction a as [|x a IH]; intros [|y b]; simpl;
    try discriminate; try reflexivity.
  intros H. apply orb_false_iff in H as [Hlt H].
  apply N.ltb_ge in Hlt.
  destruct (N.eqb_spec x y) as [-> | Hne].
  - simpl in H. rewrite N.eqb_refl, (IH _ H). apply orb_true_r.
  - replace (y <? x) with true by (symmetry; apply N.ltb_lt; lia).
    reflexivity.
Qed.

Lemma str_leb_trans a b c :
  str_leb a b = true -> str_leb b c = true -> str_leb a c = true.
Proof.
  revert b c. induction a as [|x a IH]; intros [|y b] [|z c]; simpl;
    try discriminate; try reflexivity.
  rewrite !orb_true_iff, !andb_true_iff, !N.ltb_lt, !N.eqb_eq.
  intros [Hxy | [-> Hab]] [Hyz | [-> Hbc]].
  - left. lia.
  - left. exact Hxy.
  - left. exact Hyz.
  - right. split; [reflexivity | exact (IH _ _ Hab Hbc)].
Qed.

Lemma str_leb_antisym a b :
  str_leb a b = true -> str_leb b a = true -> a = b.
Proof.
  revert b. induction a as [|x a IH]; intros [|y b]; simpl;
    try discriminate; try reflexivity.
  rewrite !orb_true_iff, !andb_true_iff, !N.ltb_lt, !N.eqb_eq.
  intros [Hxy | [-> Hab]] [Hyx | [E Hba]]; try lia.
  f_equal. exact (IH _ Hab Hba).
Qed.

Context {A : Type} (key : A -> str).

Local Abbreviation le := (key_le key).

Lemma insert_sorted_perm x l : Permutation (insert_sorted key x l) (x :: l).
Proof.
  induction l as [|y l IH]; simpl; [reflexivity|].
  destruct (str_leb (key x) (key y)); [reflexivity|].
  rewrite IH. apply perm_swap.
Qed.

Lemma sorted_perm l : Permutation (sorted key l) l.
Proof.
  induction l as [|x l IH]; simpl; [reflexivity|].
  rewrite insert_sorted_perm, IH. reflexivity.
Qed.

Lemma insert_sorted_sorted x l :
  StronglySorted le l -> StronglySorted le (insert_sorted key x l).
Proof.
  induction 1 as [|y l Hs IH Hall]; simpl.
  - repeat constructor.
  - destruct (str_leb (key x) (key y)) eqn:E.
    + constructor; [constructor; assumption|].
      constructor; [exact E|].
      eapply Forall_impl; [|exact Hall].
      intros z Hz. exact (str_leb_trans _ _ _ E Hz).
    + constructor; [exact IH|].
      apply (Permutation_Forall (Permutation_sym (insert_sorted_perm x l))).
      constructor; [|exact Hall].
      exact (str_leb_total _ _ E).
Qed.

Lemma sorted_sorted l : StronglySorted le (sorted key l).
Proof.
  induction l as [|x l IH]; simpl; [constructor|].
  apply insert_sorted_sorted. exact IH.
Qed.

Lemma insert_sorted_below x l :
  Forall (le x) l -> insert_sorted key x l = x :: l.
Proof.
  destruct 1 as [|y l Hy _]; [reflexivity|].
  simpl. unfold key_le, str_le in Hy. rewrite Hy. reflexivity.
Qed.

Lemma filter_step (p : A -> bool) a l :
  filter p (a :: l) = if p a then a :: filter p l else filter p l.
Proof. reflexivity. Qed.

Lemma filter_insert_sorted (p : A -> bool) x l :
  StronglySorted le l ->
  filter p (insert_sorted key x l)
  = if p x then insert_sorted key x (filter p l) else filter p l.
Proof.
  induction 1 as [|y l Hs IH Hall]; cbn [insert_sorted].
  - simpl. destruct (p x); reflexivity.
  - destruct (str_leb (key x) (key y)) eqn:E.
    + rewrite (filter_step p x). destruct (p x) eqn:Ex; [|reflexivity].
      symmetry. apply insert_sorted_below.
      assert (Hx : Forall (le x) (y :: l)).
      { constructor; [exact E|].
        eapply Forall_impl; [|exact Hall].
        intros z Hz. exact (str_leb_trans _ _ _ E Hz). }
      apply Forall_forall. intros z Hz.
      apply filter_In in Hz as [Hz _].
      exact (proj1 (Forall_forall _ _) Hx z Hz).
    + rewrite !(filter_step p y), IH.
      destruct (p y) eqn:Ey; destruct (p x) eqn:Ex; try reflexivity.
      cbn [insert_sorted]. rewrite E. reflexivity.
Qed.

Lemma filter_sorted (p : A -> bool) l :
  filter p (sorted key l) = sorted key (filter p l).
Proof.
  induction l as [|x l IH]; [reflexivity|].
  simpl. rewrite (filter_insert_sorted p x _ (sorted_sorted l)), IH.
  destruct (p x); reflexivity.
Qed.

Lemma StronglySorted_perm_eq (l l' : list A) :
  (forall a b, In a l -> In b l -> le a b -> le b a -> a = b) ->
  StronglySorted le l -> StronglySorted le l' -> Permutation l l' -> l = l'.
Proof.
  revert l'. induction l as [|x t IH]; intros l' Hanti Hl Hl' Hp.
  - symmetry. apply Permutation_nil. exact Hp.
  - destruct l' as [|y t'].
    { apply Permutation_sym, Permutation_nil in Hp. discriminate. }
    inversion Hl as [|? ? Ht Hx]; subst.
    inversion Hl' as [|? ? Ht' Hy]; subst.
    assert (E : x = y).
    { assert (Hxin : In x (y :: t'))
        by (apply (Permutation_in _ Hp); left; reflexivity).
      assert (Hyin : In y (x :: t))
        by (apply (Permutation_in _ (Permutation_sym Hp)); left; reflexivity).
      destruct Hxin as [-> | Hxin]; [reflexivity|].
      destruct Hyin as [-> | Hyin]; [reflexivity|].
      apply Hanti.
      - left. reflexivity.
      - right. exact Hyin.
      - exact (proj1 (Forall_forall _ _) Hx y Hyin).
      - exact (proj1 (Forall_forall _ _) Hy x Hxin). }
    subst y. f_equal. apply IH.
    + intros a b Ha Hb. apply Hanti; right; assumption.
    + exact Ht.
    + exact Ht'.
    + exact (Permutation_cons_inv Hp).
Qed.

(** The listing order does not matter when no two entries have the same
    key. *)
Lemma sorted_perm_unique (l1 l2 : list A) :
  (forall a b, In a l1 -> In b l1 -> key a = key b -> a = b) ->
  Permutation l1 l2 -> sorted key l1 = sorted key l2.
Proof.
  intros Hinj Hp. apply StronglySorted_perm_eq.
  - intros a b Ha Hb Hab Hba.
    apply Hinj.
    + exact (Permutation_in _ (sorted_perm l1) Ha).
    + exact (Permutation_in _ (sorted_perm l1) Hb).
    + exact (str_leb_antisym _ _ Hab Hba).
  - apply sorted_sorted.
  - apply sorted_sorted.
  - rewrite (sorted_perm l1), (sorted_perm l2). exact Hp.
Qed.

End Order.

(** ** The part aggregator *)

Section Aggregator.

Context `{XMLParser}.

Lemma startswith_app s p q :
  startswith s (p ++ q) = true -> startswith s p = true.
Proof.
  revert s. induction p as [|a p IH]; intros s; [destruct s; reflexivity|].
  destruct s as [|b s]; [discriminate|].
  simpl. rewrite !andb_true_iff. intros [Hab Hs]. split; [exact Hab|].
  exact (IH _ Hs).
Qed.

Lemma startswith_refl s : startswith s s = true.
Proof.
  induction s as [|a s IH]; [reflexivity|].
  simpl. rewrite N.eqb_refl. exact IH.
Qed.

(** The first test of the comprehension follows from the others. *)
Lemma is_extra_xml_supplementary name :
  is_extra_xml name = is_supplementary name.
Proof.
  unfold is_extra_xml, is_supplementary, DOCX_WORD_DIR.
  rewrite <- (orb_assoc (startswith name (lit "word/header") || _)).
  destruct (startswith name (lit "word/")) eqn:E; [reflexivity|].
  cbn [andb].
  destruct (startswith name (lit "word/header")) eqn:E1.
  { rewrite (startswith_app name (lit "word/") (lit "header") E1) in E.
    discriminate. }
  destruct (startswith name (lit "word/footer")) eqn:E2.
  { rewrite (startswith_app name (lit "word/") (lit "footer") E2) in E.
    discriminate. }
  destruct (str_eqb name (lit "word/footnotes.xml")) eqn:E3.
  { apply str_eqb_eq in E3. subst name. discriminate. }
  destruct (str_eqb name (lit "word/endnotes.xml")) eqn:E4.
  { apply str_eqb_eq in E4. subst name. discriminate. }
  reflexivity.
Qed.

Lemma filter_ext_eq {A} (f g : A -> bool) l :
  (forall a, f a = g a) -> filter f l = filter g l.
Proof.
  intros E. induction l as [|a l IH]; [reflexivity|].
  simpl. rewrite E, IH. reflexivity.
Qed.


Lemma add_part_raises docx acc n e :
  _read_xml_from_docx docx n = Raise e -> add_part docx acc n = Raise e.
Proof. intros E. unfold add_part. rewrite E. reflexivity. Qed.


(** The loop stops at a part for which the reading raises. *)
Lemma for_each_parts_raises docx names n acc :
  In n names ->
  (exists e, _read_xml_from_docx docx n = Raise e) ->
  exists e, for_each (add_part docx) names acc = Raise e.
Proof.
  intros Hin [e E]. revert acc.
  induction names as [|m names IH]; intros acc; [contradiction|].
  cbn [for_each].
  destruct (add_part docx acc m) as [acc'|e'] eqn:Em;
    [|exists e'; reflexivity].
  cbn [bind]. destruct Hin as [-> | Hin]; [|exact (IH Hin acc')].
  rewrite (add_part_raises _ _ _ _ E) in Em. discriminate.
Qed.

Lemma for_each_ext {A S} (f g : S -> A -> result S) xs s :
  (forall s' x, In x xs -> f s' x = g s' x) ->
  for_each f xs s = for_each g xs s.
Proof.
  revert s. induction xs as [|x xs IH]; intros s Hfg; [reflexivity|].
  cbn [for_each]. rewrite (Hfg s x (or_introl eq_refl)).
  destruct (g s x) as [s'|e]; [|reflexivity].
  cbn [bind]. apply IH. intros s'' y Hy. apply Hfg. right. exact Hy.
Qed.

Lemma extract_docx_text_main zf main :
  _read_xml_from_docx (Some zf) DOCX_MAIN_DOCUMENT = Ok (Some main) ->
  extract_docx_text (Some zf)
  = (paragraphs <-
       for_each (add_part (Some zf))
                (sorted (fun n => n) (filter is_supplementary (namelist zf)))
                (_extract_paragraphs_from_xml main) ;;
     Ok (Some (mkDocxText paragraphs))).
Proof.
  intros Hmain. unfold extract_docx_text. rewrite Hmain.
  cbn [open_zip bind].
  rewrite (filter_ext_eq _ _ _ is_extra_xml_supplementary). reflexivity.
Qed.

Lemma In_sorted_supplementary (zf : ZipFile) n :
  In n (sorted (fun n => n) (filter is_supplementary (namelist zf))) <->
  In n (namelist zf) /\ is_supplementary n = true.
Proof.
  rewrite <- filter_In. split; apply Permutation_in.
  - apply (sorted_perm (fun n : str => n)).
  - apply Permutation_sym, (sorted_perm (fun n : str => n)).
Qed.


(** The exceptions of the read and of the parse that the handlers
    catch. *)
Lemma read_xml_none zf name :
  _read_xml_from_docx (Some zf) name = Ok None <->
  zf_read zf name = Raise KeyError
  \/ zf_read zf name = Raise BadZipFile
  \/ exists data, zf_read zf name = Ok data
                  /\ fromstring data = Raise ParseError.
Proof.
  unfold _read_xml_from_docx. cbn [open_zip].
  destruct (zf_read zf name) as [data|e] eqn:E.
  - destruct (fromstring data) as [tree|e] eqn:Ep.
    + split; [discriminate|].
      intros [Hz | [Hz | [data' [[= <-] Hp]]]]; congruence.
    + split.
      * intros Hn. right. right. exists data. split; [reflexivity|].
        destruct e; try discriminate. exact Ep.
      * intros [Hz | [Hz | [data' [[= <-] Hp]]]]; try discriminate.
        rewrite Ep in Hp. injection Hp as ->. reflexivity.
  - split.
    + intros Hn. destruct e; try discriminate; tauto.
    + intros [[= ->] | [[= ->] | [data' [Hz _]]]];
        [reflexivity | reflexivity | discriminate].
Qed.

(** Every other exception of the read or of the parse leaves
    [_read_xml_from_docx]. *)
Lemma read_xml_raise_parse zf name data e :
  zf_read zf name = Ok data -> fromstring data = Raise e ->
  e <> ParseError ->
  _read_xml_from_docx (Some zf) name = Raise e.
Proof.
  intros Hz Hp Hne. unfold _read_xml_from_docx. cbn [open_zip].
  rewrite Hz, Hp. destruct e; try reflexivity. contradiction.
Qed.

Lemma read_xml_raise_read zf name e :
  zf_read zf name = Raise e -> e <> KeyError -> e <> BadZipFile ->
  _read_xml_from_docx (Some zf) name = Raise e.
Proof.
  intros Hz Hk Hb. unfold _read_xml_from_docx. cbn [open_zip].
  rewrite Hz. destruct e; try reflexivity; contradiction.
Qed.

(** The ways of not getting the main part. *)
Lemma read_main_none docx :
  _read_xml_from_docx docx DOCX_MAIN_DOCUMENT = Ok None <->
  docx = None
  \/ exists zf, docx = Some zf
       /\ (zf_read zf DOCX_MAIN_DOCUMENT = Raise KeyError
           \/ zf_read zf DOCX_MAIN_DOCUMENT = Raise BadZipFile
           \/ exists data, zf_read zf DOCX_MAIN_DOCUMENT = Ok data
                           /\ fromstring data = Raise ParseError).
Proof.
  destruct docx as [zf|].
  - rewrite read_xml_none. split.
    + intros Hz. right. exists zf. split; [reflexivity | exact Hz].
    + intros [Hd | [zf' [[= <-] Hz]]]; [discriminate | exact Hz].
  - split; [intros _; left|]; reflexivity.
Qed.

Lemma extract_docx_text_none docx :
  extract_docx_text docx = Ok None <->
  _read_xml_from_docx docx DOCX_MAIN_DOCUMENT = Ok None.
Proof.
  unfold extract_docx_text.
  destruct (_read_xml_from_docx docx DOCX_MAIN_DOCUMENT) as [[main|]|e] eqn:E;
    cbn [bind].
  - split; [|discriminate].
    destruct docx as [zf|]; cbn [open_zip bind]; [|discriminate].
    destruct (for_each _ _ _); cbn [bind]; discriminate.
  - split; reflexivity.
  - split; discriminate.
Qed.

(** An exception that leaves the reading of the main part leaves
    [extract_docx_text]. *)
Lemma extract_docx_text_main_raises docx e :
  _read_xml_from_docx docx DOCX_MAIN_DOCUMENT = Raise e ->
  extract_docx_text docx = Raise e.
Proof. intros E. unfold extract_docx_text. rewrite E. reflexivity. Qed.

Lemma for_each_app {A S} (body : S -> A -> result S) l1 l2 s :
  for_each body (l1 ++ l2) s
  = (s' <- for_each body l1 s ;; for_each body l2 s').
Proof.
  revert s. induction l1 as [|a l1 IH]; intros s; [reflexivity|].
  simpl. destruct (body s a) as [s1|e]; simpl; [apply IH | reflexivity].
Qed.

Lemma convert_one_raises st name docx e :
  extract_docx_text docx = Raise e ->
  convert_one st (name, RegularFile docx) = Raise e.
Proof.
  intros E. unfold convert_one. cbn [snd fst]. rewrite E. reflexivity.
Qed.

Lemma convert_one_skips st name docx :
  extract_docx_text docx = Ok None ->
  convert_one st (name, RegularFile docx) = Ok (skip st).
Proof.
  intros E. unfold convert_one. cbn [snd fst]. rewrite E. reflexivity.
Qed.

Lemma iter_docx_files_are_files input :
  Forall (fun p => is_file p = true) (iter_docx_files input).
Proof.
  apply Forall_forall. intros p Hp.
  unfold iter_docx_files in Hp. apply filter_In in Hp. tauto.
Qed.

End Aggregator.

(** ** Supplementary parts *)

Section Supplementary.

Context {P : XMLParser}.


Lemma getinfo_omit_other bad zf name :
  name <> bad -> getinfo (omit bad zf) name = getinfo zf name.
Proof.
  intros Hne. induction zf as [|[n d] zf IH]; [reflexivity|].
  cbn [omit filter fst]. fold (omit bad zf).
  destruct (str_eqb n bad) eqn:E; cbn [negb getinfo].
  - rewrite IH. apply str_eqb_eq in E. subst n.
    destruct (getinfo zf name); [reflexivity|].
    replace (str_eqb bad name) with false; [reflexivity|].
    symmetry. apply str_eqb_neq. congruence.
  - rewrite IH. reflexivity.
Qed.

Lemma zf_read_omit_other bad zf name :
  name <> bad -> zf_read (omit bad zf) name = zf_read zf name.
Proof.
  intros Hne. unfold zf_read. rewrite (getinfo_omit_other _ _ _ Hne).
  reflexivity.
Qed.

Lemma read_xml_omit_other bad zf name :
  name <> bad ->
  _read_xml_from_docx (Some (omit bad zf)) name
  = _read_xml_from_docx (Some zf) name.
Proof.
  intros Hne. unfold _read_xml_from_docx. cbn [open_zip].
  rewrite (zf_read_omit_other _ _ _ Hne). reflexivity.
Qed.

Lemma namelist_omit bad zf :
  namelist (omit bad zf)
  = filter (fun n => negb (str_eqb n bad)) (namelist zf).
Proof.
  induction zf as [|[n d] zf IH]; [reflexivity|].
  cbn [omit filter fst namelist List.map]. fold (omit bad zf).
  destruct (str_eqb n bad); cbn [negb]; [exact IH|].
  cbn [namelist List.map fst]. f_equal. exact IH.
Qed.

Lemma filter_comm {A} (f g : A -> bool) l :
  filter f (filter g l) = filter g (filter f l).
Proof.
  induction l as [|a l IH]; [reflexivity|].
  simpl. destruct (f a) eqn:Ef; destruct (g a) eqn:Eg; simpl;
    rewrite ?Ef, ?Eg, IH; reflexivity.
Qed.

(** Without the entries of a name whose part is skipped, the loop over
    the parts ends as with them. *)
Lemma for_each_omit bad zf names acc :
  _read_xml_from_docx (Some zf) bad = Ok None ->
  for_each (add_part (Some (omit bad zf)))
           (filter (fun n => negb (str_eqb n bad)) names) acc
  = for_each (add_part (Some zf)) names acc.
Proof.
  intros Hbad. revert acc.
  induction names as [|n names IH]; intros acc; [reflexivity|].
  cbn [filter for_each]. destruct (str_eqb n bad) eqn:E; cbn [negb].
  - apply str_eqb_eq in E. subst n.
    unfold add_part at 2. rewrite Hbad. cbn [bind]. apply IH.
  - cbn [for_each].
    assert (Hn : add_part (Some (omit bad zf)) acc n
                 = add_part (Some zf) acc n).
    { unfold add_part. rewrite read_xml_omit_other; [reflexivity|].
      apply str_eqb_neq. exact E. }
    rewrite Hn. destruct (add_part (Some zf) acc n) as [acc'|e];
      [|reflexivity].
    cbn [bind]. apply IH.
Qed.

Lemma extract_docx_text_omit_skipped zf main bad :
  _read_xml_from_docx (Some zf) DOCX_MAIN_DOCUMENT = Ok (Some main) ->
  DOCX_MAIN_DOCUMENT <> bad ->
  _read_xml_from_docx (Some zf) bad = Ok None ->
  extract_docx_text (Some zf) = extract_docx_text (Some (omit bad zf)).
Proof.
  intros Hmain Hne Hbad.
  assert (Hmain' : _read_xml_from_docx (Some (omit bad zf)) DOCX_MAIN_DOCUMENT
                   = Ok (Some main)).
  { rewrite (read_xml_omit_other _ _ _ Hne). exact Hmain. }
  rewrite (extract_docx_text_main _ _ Hmain),
    (extract_docx_text_main _ _ Hmain').
  rewrite namelist_omit, filter_comm.
  rewrite <- (filter_sorted (fun n : str => n)
                            (fun n => negb (str_eqb n bad))).
  rewrite (for_each_omit _ _ _ _ Hbad). reflexivity.
Qed.

Lemma getinfo_In zf name content :
  getinfo zf name = Some content -> In name (namelist zf).
Proof.
  revert content. induction zf as [|[n d] zf IH]; intros content;
    [discriminate|].
  cbn [getinfo namelist List.map fst].
  destruct (getinfo zf name) as [later|].
  - intros _. right. apply (IH later). reflexivity.
  - destruct (str_eqb n name) eqn:E; [|discriminate].
    intros _. left. apply str_eqb_eq. exact E.
Qed.

Lemma zf_read_Ok_In zf name data :
  zf_read zf name = Ok data -> In name (namelist zf).
Proof.
  unfold zf_read. destruct (getinfo zf name) as [content|] eqn:E;
    [|discriminate].
  intros _. exact (getinfo_In _ _ _ E).
Qed.


(** C4. Extraction reports "not extractable" exactly when the file is no
    zip archive, or has no entry [word/document.xml], or the check sum
    of that entry is wrong, or the parser raises [ParseError] on its
    bytes; the batch converter then leaves the output directory as it
    is, counts the file as skipped and goes on with the files that
    follow.  Every other exception raised while the main part is read or
    parsed, such as the [ValueError] of the parser on bytes that declare
    a multi-byte encoding, leaves [extract_docx_text]: the file is not
    reported as not extractable, and the batch ends there with that
    exception, the files that follow being left unconverted. *)
Theorem C4_not_extractable (docx : DocxFile) (e : exception) (st : Progress)
        (name : str) (before after : list (str * Node DocxFile)) :
  (extract_docx_text docx = Ok None <->
   docx = None
   \/ exists zf, docx = Some zf
        /\ (zf_read zf DOCX_MAIN_DOCUMENT = Raise KeyError
            \/ zf_read zf DOCX_MAIN_DOCUMENT = Raise BadZipFile
            \/ exists data, zf_read zf DOCX_MAIN_DOCUMENT = Ok data
                            /\ fromstring data = Raise ParseError))
  /\ (extract_docx_text docx = Ok None ->
      convert_one st (name, RegularFile docx) = Ok (skip st)
      /\ output_dir (skip st) = output_dir st
      /\ converted (skip st) = converted st
      /\ skipped (skip st) = S (skipped st)
      /\ for_each convert_one (before ++ (name, RegularFile docx) :: after) st
         = (st' <- for_each convert_one before st ;;
            for_each convert_one after (skip st')))
  /\ ((exists zf, docx = Some zf
         /\ (zf_read zf DOCX_MAIN_DOCUMENT = Raise e
               /\ e <> KeyError /\ e <> BadZipFile
             \/ exists data, zf_read zf DOCX_MAIN_DOCUMENT = Ok data
                             /\ fromstring data = Raise e
                             /\ e <> ParseError)) ->
      extract_docx_text docx = Raise e
      /\ forall st', for_each convert_one before st = Ok st' ->
           for_each convert_one (before ++ (name, RegularFile docx) :: after)
                    st
           = Raise e).
Proof.
  split; [rewrite extract_docx_text_none; apply read_main_none|].
  split.
  - intros Hnone.
    split; [exact (convert_one_skips _ _ _ Hnone)|].
    repeat (split; [reflexivity|]).
    rewrite for_each_app.
    destruct (for_each convert_one before st) as [s|e']; [|reflexivity].
    cbn [bind for_each]. rewrite (convert_one_skips _ _ _ Hnone).
    reflexivity.
  - intros [zf [-> Hraise]].
    assert (Hext : extract_docx_text (Some zf) = Raise e).
    { apply extract_docx_text_main_raises.
      destruct Hraise as [[Hz [Hk Hb]] | [data [Hz [Hp Hne]]]].
      - exact (read_xml_raise_read _ _ _ Hz Hk Hb).
      - exact (read_xml_raise_parse _ _ _ _ Hz Hp Hne). }
    split; [exact Hext|].
    intros st' Hbefore. rewrite for_each_app, Hbefore.
    cbn [bind for_each]. rewrite (convert_one_raises _ _ _ _ Hext).
    reflexivity.
Qed.

(** C5. A supplementary part on whose bytes the parser raises
    [ParseError] contributes no line: the result is the one obtained
    from the package without that part, and the document is not
    reported as not extractable.  When the parser raises another
    exception on the bytes, such as the [ValueError] of bytes that
    declare a multi-byte encoding, the part is not skipped: the
    extraction of the whole document raises. *)
Theorem C5_supplementary_failure (zf : ZipFile) (main : Element)
        (bad : str) (data : bytes) (e : exception) :
  _read_xml_from_docx (Some zf) DOCX_MAIN_DOCUMENT = Ok (Some main) ->
  is_supplementary bad = true ->
  zf_read zf bad = Ok data -> fromstring data = Raise e ->
  (e = ParseError ->
   part_lines (Some zf) bad = []
   /\ extract_docx_text (Some zf) = extract_docx_text (Some (omit bad zf))
   /\ extract_docx_text (Some zf) <> Ok None)
  /\ (e <> ParseError ->
      _read_xml_from_docx (Some zf) bad = Raise e
      /\ exists e', extract_docx_text (Some zf) = Raise e').
Proof.
  intros Hmain Hsupp Hread Hparse. split.
  - intros ->.
    assert (Hbad : _read_xml_from_docx (Some zf) bad = Ok None).
    { apply read_xml_none. right. right. exists data.
      split; [exact Hread | exact Hparse]. }
    assert (Hne : DOCX_MAIN_DOCUMENT <> bad).
    { intros <-. discriminate Hsupp. }
    split; [unfold part_lines; rewrite Hbad; reflexivity|].
    split; [exact (extract_docx_text_omit_skipped _ _ _ Hmain Hne Hbad)|].
    rewrite extract_docx_text_none, Hmain. discriminate.
  - intros Hne.
    pose proof (read_xml_raise_parse _ _ _ _ Hread Hparse Hne) as Hbad.
    split; [exact Hbad|].
    rewrite (extract_docx_text_main _ _ Hmain).
    destruct (for_each_parts_raises (Some zf)
                (sorted (fun n => n) (filter is_supplementary (namelist zf)))
                bad (_extract_paragraphs_from_xml main))
      as [e' He'].
    + apply In_sorted_supplementary.
      split; [exact (zf_read_Ok_In _ _ _ Hread) | exact Hsupp].
    + exists e. exact Hbad.
    + exists e'. rewrite He'. reflexivity.
Qed.

Lemma to_text_blank ps :
  Forall (fun p => blank p = true) ps -> to_text (mkDocxText ps) = [LF].
Proof.
  intros Hps. unfold to_text. cbn [paragraphs].
  rewrite strip_blank; [reflexivity|].
  apply sub_blank_runs_forallb, sub_trailing_hspace_forallb.
  apply join_forallb; [reflexivity|].
  apply Forall_flat_map_splitlines. intros p Hp.
  apply splitlines_forallb.
  exact (proj1 (Forall_forall _ _) Hps p Hp).
Qed.

(** C10. The normaliser never returns the empty string; on the empty
    list, and on a list whose entries are all empty or white space, it
    returns the one character newline.  So a document that is extracted
    with no text in it gets an output file of one newline and is counted
    as converted. *)
Theorem C10_never_empty (docx : DocxFile) (d : DocxText) (st : Progress)
        (name : str) :
  extract_docx_text docx = Ok (Some d) ->
  Forall (fun p => blank p = true) (paragraphs d) ->
  (forall d', to_text d' <> [])
  /\ to_text (mkDocxText []) = [LF]
  /\ to_text d = [LF]
  /\ convert_one st (name, RegularFile docx)
     = Ok (mkProgress
             (write_text (output_dir st) (stem name ++ lit ".txt") [LF])
             (S (converted st)) (skipped st)).
Proof.
  intros Hext Hblank.
  assert (Hd : to_text d = [LF]).
  { destruct d as [ps]. apply to_text_blank. exact Hblank. }
  split.
  { intros d' E. unfold to_text in E. apply app_eq_nil in E as [_ E].
    discriminate. }
  split; [reflexivity|]. split; [exact Hd|].
  unfold convert_one. cbn [snd fst]. rewrite Hext. cbn [bind].
  rewrite Hd. reflexivity.
Qed.

End Supplementary.

(** ** The sample package *)

Section Samples.



Lemma C4_not_extractable_witness :
  (@extract_docx_text sample_parser None = Ok None
   /\ @convert_one sample_parser (mkProgress [] 0 0)
        (lit "broken.docx", RegularFile None)
      = Ok (mkProgress [] 0 1))
  /\ (@fromstring sample_parser legacy_main_bytes = Raise ValueError
      /\ @extract_docx_text sample_parser (Some legacy_main_package)
         = Raise ValueError
      /\ @convert_directory sample_parser legacy_input [] = Raise ValueError).
Proof.
  split.
  - destruct (@C4_not_extractable sample_parser None ValueError
                (mkProgress [] 0 0) (lit "broken.docx") [] [])
      as [Hiff [Hskip _]].
    pose proof (proj2 Hiff (or_introl eq_refl)) as Hnone.
    split; [exact Hnone | exact (proj1 (Hskip Hnone))].
  - destruct (@C4_not_extractable sample_parser (Some legacy_main_package)
                ValueError (mkProgress [] 0 0) (lit "legacy.docx")
                [(lit "broken.docx", RegularFile None)]
                [(lit "report.docx", RegularFile (Some sample_package))])
      as [_ [_ Hraise]].
    destruct Hraise as [Hext Hbatch].
    + exists legacy_main_package. split; [reflexivity|].
      right. exists legacy_main_bytes.
      split; [reflexivity|]. split; [reflexivity | discriminate].
    + split; [reflexivity|]. split; [exact Hext|].
      exact (Hbatch _ eq_refl).
Defined.

Lemma C5_supplementary_failure_witness :
  (@part_lines sample_parser (Some sample_package) (lit "word/footer1.xml")
   = []
   /\ @extract_docx_text sample_parser (Some sample_package)
      = @extract_docx_text sample_parser
          (Some (omit (lit "word/footer1.xml") sample_package)))
  /\ (@fromstring sample_parser legacy_footer_bytes = Raise ValueError
      /\ (exists e, @extract_docx_text sample_parser
                      (Some legacy_footer_package) = Raise e)
      /\ @extract_docx_text sample_parser (Some legacy_footer_package)
         = Raise ValueError
      /\ @extract_docx_text sample_parser
           (Some (omit (lit "word/footer1.xml") legacy_footer_package))
         = Ok (Some (mkDocxText
                       [[]; lit "cell"; lit "x" ++ [TAB] ++ lit "y";
                        lit "first"]))).
Proof.
  split.
  - destruct (@C5_supplementary_failure sample_parser sample_package
                sample_body (lit "word/footer1.xml") malformed_bytes
                ParseError eq_refl eq_refl eq_refl eq_refl)
      as [Hskip _].
    destruct (Hskip eq_refl) as [Hlines [Heq _]].
    split; [exact Hlines | exact Heq].
  - destruct (@C5_supplementary_failure sample_parser legacy_footer_package
                sample_body (lit "word/footer1.xml") legacy_footer_bytes
                ValueError eq_refl eq_refl eq_refl eq_refl)
      as [_ Hraise].
    destruct Hraise as [_ Hext]; [discriminate|].
    split; [reflexivity|]. split; [exact Hext|].
    split; reflexivity.
Defined.

Lemma C10_never_empty_witness :
  @extract_docx_text empty_parser (Some empty_package)
  = Ok (Some (mkDocxText [[]; []]))
  /\ to_text (mkDocxText [[]; []]) = [LF]
  /\ @convert_one empty_parser (mkProgress [] 0 0)
       (lit "empty.docx", RegularFile (Some empty_package))
     = Ok (mkProgress [(lit "empty.txt", [LF])] 1 0).
Proof.
  destruct (@C10_never_empty empty_parser (Some empty_package)
              (mkDocxText [[]; []]) (mkProgress [] 0 0) (lit "empty.docx")
              eq_refl)
    as [_ [_ [Htext Hone]]].
  - repeat constructor.
  - split; [reflexivity|]. split; [exact Htext | exact Hone].
Defined.

End Samples.

(** ** Decoding *)

Section Decoding.

Context {C : Codecs}.

Lemma on_error_replace_some rest :
  (exists s, rest = Some s) -> exists s, on_error Replace rest = Some s.
Proof. intros [s ->]. eexists. reflexivity. Qed.

Lemma option_map_some {A B} (f : A -> B) o :
  (exists s, o = Some s) -> exists s, option_map f o = Some s.
Proof. intros [s ->]. eexists. reflexivity. Qed.

(** Decoding with replacement never fails. *)
Lemma utf8_decode_replace_total data :
  exists s, utf8_decode Replace data = Some s.
Proof.
  induction data as [data IH] using str_strong_ind.
  destruct data as [|b0 r0]; [eexists; reflexivity|].
  cbn [utf8_decode].
  repeat match goal with
         | |- context [if ?b then _ else _] => destruct b
         | |- context [match ?l with [] => _ | _ :: _ => _ end] =>
             is_var l; destruct l
         end;
    first [ apply option_map_some | apply on_error_replace_some ];
    first [ eexists; reflexivity | apply IH; simpl; lia ].
Qed.

Lemma read_text_replace_total data :
  exists s, read_text UTF_8 Replace data = Ok s.
Proof.
  unfold read_text. cbn [decode].
  destruct (utf8_decode_replace_total data) as [s ->].
  eexists. reflexivity.
Qed.

Lemma read_text_outcome enc e data :
  (exists s, read_text enc e data = Ok s)
  \/ read_text enc e data = Raise UnicodeDecodeError.
Proof.
  unfold read_text. destruct (decode enc e data) as [s|].
  - left. eexists. reflexivity.
  - right. reflexivity.
Qed.

Lemma try_encodings_total encodings data :
  exists s, try_encodings encodings data = Ok s.
Proof.
  induction encodings as [|enc rest IH]; cbn [try_encodings].
  - apply read_text_replace_total.
  - destruct (read_text_outcome enc Strict data) as [[s ->] | ->].
    + eexists. reflexivity.
    + exact IH.
Qed.

Lemma merge_loop_total (files : list (nat * (str * Node bytes))) parts :
  Forall (fun ip => is_file (snd ip) = true) files ->
  exists merged, for_each merge_one files parts = Ok merged.
Proof.
  intros Hfiles. revert parts.
  induction Hfiles as [|[i [name node]] files Hf _ IH]; intros parts.
  - eexists. reflexivity.
  - destruct node as [|data]; [discriminate|].
    cbn [for_each merge_one snd].
    unfold _read_text_with_fallback.
    destruct (try_encodings_total [UTF_8; UTF_8_SIG; GB18030] data)
      as [s ->].
    cbn [bind]. apply IH.
Qed.

Lemma Forall_combine_snd {A B} (Q : B -> Prop) (xs : list A) (ys : list B) :
  Forall Q ys -> Forall (fun p => Q (snd p)) (combine xs ys).
Proof.
  intros Hys. revert xs.
  induction Hys as [|y ys Hy _ IH]; intros [|x xs]; simpl;
    constructor; [exact Hy | apply IH].
Qed.

Lemma merge_txt_files_total dir :
  exists merged, merge_txt_files (Some dir) = Ok merged.
Proof.
  unfold merge_txt_files.
  set (txt_files := sorted fst (filter _ dir)).
  destruct (merge_loop_total
              (combine (seq 0 (List.length txt_files)) txt_files) [])
    as [parts ->].
  - apply (Forall_combine_snd (fun p : str * Node bytes => is_file p = true)).
    apply Forall_forall. intros p Hp.
    apply (Permutation_in _ (sorted_perm fst _)) in Hp.
    apply filter_In in Hp as [_ Hp].
    apply andb_true_iff in Hp. tauto.
  - eexists. reflexivity.
Qed.

(** C9. Reading tries UTF-8, then UTF-8 with a byte-order mark, then
    gb18030, and takes the first that decodes; when none does, it decodes
    as UTF-8 with the bytes that cannot be decoded replaced.  Every byte
    string is read as some text, and the merge of a directory always ends
    with a result. *)
Theorem C9_decoding_fallback (data : bytes) (dir : Directory bytes) :
  (exists s, _read_text_with_fallback data = Ok s)
  /\ (forall s, read_text UTF_8 Strict data = Ok s ->
                _read_text_with_fallback data = Ok s)
  /\ (read_text UTF_8 Strict data = Raise UnicodeDecodeError ->
      forall s, read_text UTF_8_SIG Strict data = Ok s ->
                _read_text_with_fallback data = Ok s)
  /\ (read_text UTF_8 Strict data = Raise UnicodeDecodeError ->
      read_text UTF_8_SIG Strict data = Raise UnicodeDecodeError ->
      forall s, read_text GB18030 Strict data = Ok s ->
                _read_text_with_fallback data = Ok s)
  /\ (read_text UTF_8 Strict data = Raise UnicodeDecodeError ->
      read_text UTF_8_SIG Strict data = Raise UnicodeDecodeError ->
      read_text GB18030 Strict data = Raise UnicodeDecodeError ->
      _read_text_with_fallback data = read_text UTF_8 Replace data)
  /\ (exists merged, merge_txt_files (Some dir) = Ok merged).
Proof.
  unfold _read_text_with_fallback.
  split; [apply try_encodings_total|].
  split; [intros s E; cbn [try_encodings]; rewrite E; reflexivity|].
  split; [intros E1 s E2; cbn [try_encodings]; rewrite E1, E2; reflexivity|].
  split; [intros E1 E2 s E3; cbn [try_encodings]; rewrite E1, E2, E3;
          reflexivity|].
  split; [intros E1 E2 E3; cbn [try_encodings]; rewrite E1, E2, E3;
          reflexivity|].
  apply merge_txt_files_total.
Qed.

Lemma forallb_filter_all {A} (f : A -> bool) l :
  forallb f l = true -> filter f l = l.
Proof.
  induction l as [|a l IH]; [reflexivity|].
  simpl. intros H. apply andb_true_iff in H as [Ha Hl].
  rewrite Ha, (IH Hl). reflexivity.
Qed.

Lemma forallb_perm {A} (f : A -> bool) l l' :
  Permutation l l' -> forallb f l = true -> forallb f l' = true.
Proof.
  intros Hp H. apply forallb_forall. intros a Ha.
  apply (proj1 (forallb_forall f l) H).
  exact (Permutation_in _ (Permutation_sym Hp) Ha).
Qed.

(** C8. A directory that holds exactly [a.txt], [b.txt] and [c.txt], of
    contents [A], [B] and [C], is merged in name order into the text
    [A], two newlines, [B], two newlines, [C], with nothing after it,
    and the count returned is 3. *)
Theorem C8_merge_three (dir : Directory bytes) :
  Permutation dir abc_files ->
  merge_txt_files (Some dir)
  = Ok (lit "A" ++ [LF; LF] ++ lit "B" ++ [LF; LF] ++ lit "C", 3%nat).
Proof.
  intros Hp. unfold merge_txt_files.
  rewrite forallb_filter_all
    by (apply (forallb_perm _ _ _ (Permutation_sym Hp)); reflexivity).
  rewrite (sorted_perm_unique fst dir abc_files); [reflexivity| |exact Hp].
  intros a b Ha Hb.
  apply (Permutation_in _ Hp) in Ha. apply (Permutation_in _ Hp) in Hb.
  simpl in Ha, Hb.
  destruct Ha as [<- | [<- | [<- | []]]];
    destruct Hb as [<- | [<- | [<- | []]]];
    intros E; try reflexivity; discriminate E.
Qed.

End Decoding.

Section MergeSamples.

Lemma C8_merge_three_witness :
  Permutation cab_listing abc_files
  /\ @merge_txt_files one_byte_codecs (Some cab_listing)
     = Ok (lit "A" ++ [LF; LF] ++ lit "B" ++ [LF; LF] ++ lit "C", 3%nat).
Proof.
  assert (Hp : Permutation cab_listing abc_files).
  { unfold cab_listing, abc_files.
    eapply perm_trans; [apply perm_swap|]. apply perm_skip, perm_swap. }
  split; [exact Hp|].
  exact (@C8_merge_three one_byte_codecs cab_listing Hp).
Defined.

Lemma C9_decoding_fallback_witness :
  @read_text one_byte_codecs UTF_8 Strict undecodable
  = Raise UnicodeDecodeError
  /\ @read_text one_byte_codecs UTF_8_SIG Strict undecodable
     = Raise UnicodeDecodeError
  /\ @read_text one_byte_codecs GB18030 Strict undecodable
     = Raise UnicodeDecodeError
  /\ @_read_text_with_fallback one_byte_codecs undecodable
     = Ok [65; REPLACEMENT; 66]
  /\ @_read_text_with_fallback one_byte_codecs (lit "A") = Ok (lit "A").
Proof.
  destruct (@C9_decoding_fallback one_byte_codecs undecodable cab_listing)
    as [_ [_ [_ [_ [Hlast _]]]]].
  destruct (@C9_decoding_fallback one_byte_codecs (lit "A") cab_listing)
    as [_ [Hfirst _]].
  split; [reflexivity|]. split; [reflexivity|]. split; [reflexivity|].
  split.
  - rewrite (Hlast eq_refl eq_refl eq_refl). reflexivity.
  - exact (Hfirst (lit "A") eq_refl).
Defined.

End MergeSamples.

(** * Further properties of the code *)

(** ** What the normaliser keeps *)

Section NormaliserContent.

Lemma visible_app a b : visible (a ++ b) = visible a ++ visible b.
Proof. apply filter_app. Qed.

Lemma visible_cons c s :
  visible (c :: s) = (if is_space c then [] else [c]) ++ visible s.
Proof. unfold visible. simpl. destruct (is_space c); reflexivity. Qed.

Lemma visible_space c s : is_space c = true -> visible (c :: s) = visible s.
Proof. intros E. unfold visible. simpl. rewrite E. reflexivity. Qed.

Lemma visible_blank s : blank s = true -> visible s = [].
Proof.
  induction s as [|c r IH]; [reflexivity|].
  intros H. simpl in H. apply andb_true_iff in H as [Hc Hr].
  rewrite (visible_space _ _ Hc). exact (IH Hr).
Qed.

Lemma visible_nil_blank s : visible s = [] -> blank s = true.
Proof.
  induction s as [|c r IH]; [reflexivity|].
  unfold visible. simpl. destruct (is_space c); [exact IH | discriminate].
Qed.

Lemma visible_splitlines s : visible (List.concat (splitlines s)) = visible s.
Proof.
  induction s as [|c|c d r IHr IHd] using str_ind2.
  - reflexivity.
  - cbn [splitlines]. destruct (is_linebreak c) eqn:E; [|reflexivity].
    rewrite (visible_space _ _ (is_linebreak_is_space _ E)). reflexivity.
  - rewrite splitlines_cons. destruct (is_linebreak c) eqn:E.
    + rewrite (visible_space c _ (is_linebreak_is_space _ E)).
      destruct ((c =? CR) && (d =? LF)) eqn:E2.
      * apply andb_true_iff in E2 as [_ Ed].
        rewrite (visible_space d _ (eqb_LF_is_space _ Ed)). exact IHr.
      * exact IHd.
    + destruct (splitlines (d :: r)) as [|l ls].
      * change (List.concat [[c]]) with [c].
        rewrite (visible_cons c (d :: r)), <- IHd, (visible_cons c []).
        reflexivity.
      * change (List.concat ((c :: l) :: ls))
          with (c :: List.concat (l :: ls)).
        rewrite (visible_cons c (List.concat (l :: ls))), IHd.
        rewrite (visible_cons c (d :: r)). reflexivity.
Qed.

Lemma visible_join ls : visible (join [LF] ls) = visible (List.concat ls).
Proof.
  induction ls as [|x rest IH]; [reflexivity|].
  destruct rest as [|y rest'].
  - simpl. rewrite app_nil_r. reflexivity.
  - rewrite join_cons_cons.
    change (List.concat (x :: y :: rest'))
      with (x ++ List.concat (y :: rest')).
    rewrite (visible_app x), (visible_app [LF]), IH, (visible_app x).
    reflexivity.
Qed.

Lemma visible_flat_map_splitlines ps :
  visible (List.concat (flat_map splitlines ps)) = visible (List.concat ps).
Proof.
  induction ps as [|p rest IH]; [reflexivity|].
  cbn [flat_map List.concat].
  rewrite concat_app, !visible_app, IH, visible_splitlines. reflexivity.
Qed.

Lemma visible_sub_trailing_hspace s : visible (sub_trailing_hspace s) = visible s.
Proof.
  induction s as [|c r IH]; [reflexivity|].
  cbn [sub_trailing_hspace].
  destruct (is_hspace c && run_then_newline r) eqn:E.
  - apply andb_true_iff in E as [Ec _].
    rewrite (visible_space _ _ (is_hspace_is_space _ Ec)). exact IH.
  - rewrite !visible_cons, IH. reflexivity.
Qed.

Lemma visible_sub_blank_runs s : visible (sub_blank_runs s) = visible s.
Proof.
  induction s as [|c r IH]; [reflexivity|].
  cbn [sub_blank_runs].
  destruct ((c =? LF) && starts_two_newlines r) eqn:E.
  - apply andb_true_iff in E as [Ec _].
    rewrite (visible_space _ _ (eqb_LF_is_space _ Ec)). exact IH.
  - rewrite !visible_cons, IH. reflexivity.
Qed.

Lemma visible_strip s : visible (strip s) = visible s.
Proof.
  destruct (strip_infix s) as [p [q [Hs [Hp Hq]]]].
  rewrite Hs at 2.
  rewrite !visible_app, (visible_blank _ Hp), (visible_blank _ Hq).
  rewrite app_nil_r. reflexivity.
Qed.

Lemma to_text_visible (d : DocxText) :
  visible (to_text d) = visible (List.concat (paragraphs d)).
Proof.
  unfold to_text.
  rewrite visible_app, visible_strip, visible_sub_blank_runs.
  rewrite visible_sub_trailing_hspace, visible_join.
  rewrite visible_flat_map_splitlines. apply app_nil_r.
Qed.

(** X1. The normaliser changes white space only: the characters other
    than white space of its output are those of the paragraphs, all of
    them and in the same order. *)
Theorem X1_to_text_keeps_visible_text (d : DocxText) :
  visible (to_text d) = visible (List.concat (paragraphs d)).
Proof. apply to_text_visible. Qed.

Lemma to_text_nl_only (d : DocxText) : nl_only (to_text d) = true.
Proof.
  destruct (to_text_shape d) as [body [E [_ [_ [_ [_ Hn]]]]]].
  rewrite E, nl_only_app, Hn. reflexivity.
Qed.

(** X2. The only line boundary in the output is the newline: carriage
    returns, vertical tabs, form feeds, the separators U+001C to U+001E,
    U+0085, U+2028 and U+2029 of the paragraphs do not survive. *)
Theorem X2_to_text_newlines_only (d : DocxText) :
  nl_only (to_text d) = true.
Proof. apply to_text_nl_only. Qed.

Lemma concat_blank ps :
  blank (List.concat ps) = true <-> Forall (fun p => blank p = true) ps.
Proof.
  induction ps as [|p rest IH]; [split; constructor|].
  cbn [List.concat]. rewrite blank_app, andb_true_iff, IH. split.
  - intros [Hp Hr]. constructor; assumption.
  - intros Hall. inversion Hall; subst. split; assumption.
Qed.

(** X3. The output is the lone newline exactly when no paragraph has a
    character other than white space; otherwise it starts with a
    character that is not white space. *)
Theorem X3_to_text_lone_newline (d : DocxText) :
  (to_text d = [LF] <-> Forall (fun p => blank p = true) (paragraphs d))
  /\ (to_text d = [LF]
      \/ exists c rest, to_text d = c :: rest /\ is_space c = false).
Proof.
  split.
  - split.
    + intros E. apply concat_blank, visible_nil_blank.
      rewrite <- to_text_visible. rewrite E. reflexivity.
    + destruct d as [ps]. apply to_text_blank.
  - destruct (to_text_shape d) as [body [E [Hs _]]].
    rewrite E. destruct body as [|c rest]; [left; reflexivity|].
    right. exists c, (rest ++ [LF]). split; [reflexivity|].
    unfold strip in Hs.
    destruct (lstrip (c :: rest)) as [|a t] eqn:El; [discriminate|].
    pose proof (lstrip_head _ _ _ El) as Ha.
    rewrite (rstrip_nonspace _ _ Ha) in Hs. injection Hs as <- _. exact Ha.
Qed.

Lemma flat_map_splitlines_nonempty ps :
  flat_map splitlines
           (filter (fun p => negb (Nat.eqb (List.length p) 0)) ps)
  = flat_map splitlines ps.
Proof.
  induction ps as [|p rest IH]; [reflexivity|].
  cbn [filter flat_map]. destruct p as [|c p']; [exact IH|].
  cbn [List.length Nat.eqb negb flat_map]. rewrite IH. reflexivity.
Qed.

(** X4. Empty paragraphs leave no trace: the output is the one of the
    document without them (an empty paragraph gives no empty line). *)
Theorem X4_to_text_drops_empty_paragraphs (ps : list str) :
  to_text (mkDocxText
             (filter (fun p => negb (Nat.eqb (List.length p) 0)) ps))
  = to_text (mkDocxText ps).
Proof.
  unfold to_text. cbn [paragraphs].
  rewrite flat_map_splitlines_nonempty. reflexivity.
Qed.

End NormaliserContent.

(** ** What the extractor reads of a tree *)

Section TreeContent.

Lemma emit_skeleton w e : emit w (skeleton w e) = emit w e.
Proof.
  destruct e as [t x tl cs]. unfold emit. cbn [skeleton tag_of text_of].
  destruct (str_eqb t (qname w (lit "t"))); reflexivity.
Qed.

Lemma flat_map_map {A B C} (f : B -> list C) (g : A -> B) l :
  flat_map f (List.map g l) = flat_map (fun a => f (g a)) l.
Proof.
  induction l as [|a l IH]; [reflexivity|].
  simpl. rewrite IH. reflexivity.
Qed.

Lemma map_flat_map {A B C} (f : B -> C) (g : A -> list B) l :
  List.map f (flat_map g l) = flat_map (fun a => List.map f (g a)) l.
Proof.
  induction l as [|a l IH]; [reflexivity|].
  simpl. rewrite map_app, IH. reflexivity.
Qed.

Lemma fragments_skeleton w e : fragments w (skeleton w e) = fragments w e.
Proof.
  induction e as [t x tl cs IH] using Element_nested_ind.
  change (fragments w (skeleton w (Elem t x tl cs)))
    with (emit w (skeleton w (Elem t x tl cs))
          ++ flat_map (fragments w) (List.map (skeleton w) cs)).
  rewrite emit_skeleton, flat_map_map. cbn [fragments]. f_equal.
  apply flat_map_ext_Forall. exact IH.
Qed.

Lemma is_paragraph_skeleton e : is_paragraph (skeleton W_NS e) = is_paragraph e.
Proof. destruct e. reflexivity. Qed.

Lemma paragraph_elements_skeleton e :
  paragraph_elements (skeleton W_NS e)
  = List.map (skeleton W_NS) (paragraph_elements e).
Proof.
  induction e as [t x tl cs IH] using Element_nested_ind.
  change (paragraph_elements (skeleton W_NS (Elem t x tl cs)))
    with ((if is_paragraph (skeleton W_NS (Elem t x tl cs))
           then [skeleton W_NS (Elem t x tl cs)] else [])
          ++ flat_map paragraph_elements (List.map (skeleton W_NS) cs)).
  rewrite is_paragraph_skeleton, flat_map_map.
  cbn [paragraph_elements]. rewrite map_app, map_flat_map. f_equal.
  - destruct (is_paragraph (Elem t x tl cs)); reflexivity.
  - apply flat_map_ext_Forall. exact IH.
Qed.

Lemma extract_paragraph_text_skeleton w p :
  _extract_paragraph_text (skeleton w p) w = _extract_paragraph_text p w.
Proof.
  rewrite !extract_paragraph_text_fragments, fragments_skeleton.
  reflexivity.
Qed.

(** X5. Text outside the text nodes never reaches the output: the tails
    (the indentation of a pretty-printed part, for one) and the text
    directly in any other element can be removed from the tree without
    changing a line. *)
Theorem X5_text_outside_text_nodes_ignored (root : Element) :
  _extract_paragraphs_from_xml (skeleton W_NS root)
  = _extract_paragraphs_from_xml root.
Proof.
  rewrite !extract_paragraphs_map.
  destruct root as [t x tl cs]. unfold paragraphs_below.
  cbn [skeleton children_of].
  rewrite flat_map_map.
  rewrite (flat_map_ext_Forall _ (fun a => List.map (skeleton W_NS)
                                             (paragraph_elements a))).
  - rewrite <- map_flat_map, map_map. apply map_ext.
    intros p. apply extract_paragraph_text_skeleton.
  - apply Forall_forall. intros c _. apply paragraph_elements_skeleton.
Qed.

Lemma iter_self e : In e (iter e).
Proof. destruct e. left. reflexivity. Qed.

Lemma iter_trans q p r : In q (iter p) -> In p (iter r) -> In q (iter r).
Proof.
  intros Hq. induction r as [t x tl cs IH] using Element_nested_ind.
  cbn [iter]. intros [<- | Hp]; [exact Hq|].
  right. apply in_flat_map in Hp as [c [Hc Hp]].
  apply in_flat_map. exists c. split; [exact Hc|].
  exact (proj1 (Forall_forall _ _) IH c Hc Hp).
Qed.

Lemma fragments_of_descendant w q p :
  In q (iter p) ->
  exists a b, fragments w p = a ++ fragments w q ++ b.
Proof.
  induction p as [t x tl cs IH] using Element_nested_ind.
  cbn [iter]. intros [<- | Hq].
  - exists [], []. rewrite app_nil_r. reflexivity.
  - apply in_flat_map in Hq as [c [Hc Hq]].
    destruct (proj1 (Forall_forall _ _) IH c Hc Hq) as [a [b E]].
    apply in_split in Hc as [l1 [l2 ->]].
    exists (emit w (Elem t x tl (l1 ++ c :: l2))
            ++ flat_map (fragments w) l1 ++ a),
           (b ++ flat_map (fragments w) l2).
    cbn [fragments]. rewrite flat_map_app. cbn [flat_map].
    rewrite E, <- !app_assoc. reflexivity.
Qed.

Lemma paragraphs_below_iter root p :
  In p (paragraphs_below root) <->
  is_paragraph p = true /\ exists c, In c (children_of root) /\ In p (iter c).
Proof.
  rewrite <- findall_paragraphs. unfold findall_descendants.
  change (fun e => str_eqb (tag_of e) (qname W_NS (lit "p")))
    with is_paragraph.
  rewrite filter_In, in_flat_map. tauto.
Qed.

(** X6. A paragraph inside another paragraph (in a text box, say) is
    listed on its own, and what it emits is also part of what the
    enclosing paragraph emits: its text comes out twice. *)
Theorem X6_nested_paragraph_twice (root p q : Element) :
  In p (paragraphs_below root) -> In q (iter p) -> is_paragraph q = true ->
  In (_extract_paragraph_text q W_NS) (_extract_paragraphs_from_xml root)
  /\ In (_extract_paragraph_text p W_NS) (_extract_paragraphs_from_xml root)
  /\ exists a b, List.concat (fragments W_NS p)
                 = a ++ List.concat (fragments W_NS q) ++ b.
Proof.
  intros Hp Hq Hpar.
  assert (Hq' : In q (paragraphs_below root)).
  { apply paragraphs_below_iter in Hp as [_ [c [Hc Hp]]].
    apply paragraphs_below_iter. split; [exact Hpar|].
    exists c. split; [exact Hc | exact (iter_trans _ _ _ Hq Hp)]. }
  rewrite extract_paragraphs_map.
  split; [apply (in_map (fun e => _extract_paragraph_text e W_NS)); exact Hq'|].
  split; [apply (in_map (fun e => _extract_paragraph_text e W_NS)); exact Hp|].
  destruct (fragments_of_descendant W_NS q p Hq) as [a [b E]].
  exists (List.concat a), (List.concat b).
  rewrite E, !concat_app. reflexivity.
Qed.

Lemma X6_nested_paragraph_twice_witness :
  _extract_paragraphs_from_xml (w_body [boxing_paragraph])
  = [lit "beforeinsideafter"; lit "inside"]
  /\ In (lit "inside") (_extract_paragraphs_from_xml (w_body [boxing_paragraph]))
  /\ In (lit "beforeinsideafter")
        (_extract_paragraphs_from_xml (w_body [boxing_paragraph])).
Proof.
  destruct (X6_nested_paragraph_twice (w_body [boxing_paragraph])
              boxing_paragraph boxed_paragraph)
    as [Hin [Hout _]].
  - left. reflexivity.
  - do 6 right. left. reflexivity.
  - reflexivity.
  - split; [reflexivity|]. split; [exact Hin | exact Hout].
Defined.

(** X7. The lines of a part are those of the subtrees of the root's
    children, child after child, each child that is a paragraph giving its
    own line first; the root's own tag, text and tail play no part. *)
Theorem X7_lines_by_children (root : Element) :
  _extract_paragraphs_from_xml root
  = flat_map (fun c => (if is_paragraph c
                        then [_extract_paragraph_text c W_NS] else [])
                       ++ _extract_paragraphs_from_xml c)
             (children_of root).
Proof.
  rewrite extract_paragraphs_map. unfold paragraphs_below.
  rewrite map_flat_map. apply flat_map_ext_Forall.
  apply Forall_forall. intros c _.
  rewrite extract_paragraphs_map.
  destruct c as [t x tl cs]. cbn [paragraph_elements].
  rewrite map_app. unfold paragraphs_below. cbn [children_of].
  destruct (is_paragraph (Elem t x tl cs)); reflexivity.
Qed.

End TreeContent.

Example indented_paragraph_text :
  _extract_paragraphs_from_xml (w_body [indented_paragraph]) = [lit "text"].
Proof. reflexivity. Qed.

(** ** What the aggregator reads of a package *)

Section PackageContent.

Context {P : XMLParser}.

Lemma filter_all_In {A} (f : A -> bool) l :
  (forall a, In a l -> f a = true) -> filter f l = l.
Proof.
  induction l as [|a l IH]; intros H; [reflexivity|].
  simpl. rewrite (H a (or_introl eq_refl)), IH; [reflexivity|].
  intros b Hb. apply H. right. exact Hb.
Qed.

Lemma flat_map_ext_In {A B} (f g : A -> list B) l :
  (forall a, In a l -> f a = g a) -> flat_map f l = flat_map g l.
Proof.
  intros H. apply flat_map_ext_Forall, Forall_forall. exact H.
Qed.

(** The loop over the parts depends on the package through the reading
    of the parts only. *)
Lemma for_each_parts_ext docx docx' names acc :
  (forall n, In n names ->
             _read_xml_from_docx docx' n = _read_xml_from_docx docx n) ->
  for_each (add_part docx') names acc = for_each (add_part docx) names acc.
Proof.
  intros Hread. apply for_each_ext. intros s n Hn.
  unfold add_part. rewrite (Hread n Hn). reflexivity.
Qed.

(** X8. Only the main part and the supplementary parts are read: the
    entries of any other name (styles, comments, media, ...) can be taken
    out of the package without changing the result. *)
Theorem X8_other_entries_ignored (zf : ZipFile) (n : str) :
  n <> DOCX_MAIN_DOCUMENT -> is_supplementary n = false ->
  extract_docx_text (Some (omit n zf)) = extract_docx_text (Some zf).
Proof.
  intros Hmain Hsupp.
  assert (Hread : _read_xml_from_docx (Some (omit n zf)) DOCX_MAIN_DOCUMENT
                  = _read_xml_from_docx (Some zf) DOCX_MAIN_DOCUMENT).
  { apply read_xml_omit_other. congruence. }
  destruct (_read_xml_from_docx (Some zf) DOCX_MAIN_DOCUMENT)
    as [[main|]|e] eqn:E.
  - rewrite (extract_docx_text_main _ _ E), (extract_docx_text_main _ _ Hread).
    rewrite namelist_omit, filter_comm.
    assert (Hother : forall a, In a (filter is_supplementary (namelist zf)) ->
                               a <> n).
    { intros a Ha ->. apply filter_In in Ha as [_ Ha]. congruence. }
    rewrite (filter_all_In (fun a => negb (str_eqb a n))).
    + rewrite (for_each_parts_ext (Some zf) (Some (omit n zf)));
        [reflexivity|].
      intros a Ha.
      apply (Permutation_in _ (sorted_perm (fun m : str => m) _)) in Ha.
      exact (read_xml_omit_other _ _ _ (Hother a Ha)).
    + intros a Ha. apply negb_true_iff, str_eqb_neq. exact (Hother a Ha).
  - rewrite (proj2 (extract_docx_text_none _) E).
    exact (proj2 (extract_docx_text_none _) Hread).
  - rewrite (extract_docx_text_main_raises _ _ E).
    exact (extract_docx_text_main_raises _ _ Hread).
Qed.

Lemma getinfo_In_iff zf n d :
  NoDup (namelist zf) -> (getinfo zf n = Some d <-> In (n, d) zf).
Proof.
  revert d. induction zf as [|[m e] zf IH]; intros d Hnd.
  - split; [discriminate | contradiction].
  - cbn [namelist List.map fst] in Hnd. inversion Hnd as [|? ? Hm Hnd']; subst.
    pose proof (fun d' => IH d' Hnd') as IH'. clear IH. cbn [getinfo].
    destruct (getinfo zf n) as [later|] eqn:E.
    + assert (Hin : In (n, later) zf) by (apply IH'; reflexivity).
      split.
      * intros [= <-]. right. exact Hin.
      * intros [[= -> ->] | Hd].
        -- exfalso. apply Hm.
           apply (in_map fst) in Hin. exact Hin.
        -- apply IH'. exact Hd.
    + split.
      * destruct (str_eqb m n) eqn:Em; [|discriminate].
        intros [= <-]. apply str_eqb_eq in Em. subst m. left. reflexivity.
      * intros [[= -> ->] | Hd].
        -- rewrite str_eqb_refl. reflexivity.
        -- apply IH' in Hd. discriminate.
Qed.

Lemma getinfo_perm zf zf' n :
  Permutation zf zf' -> NoDup (namelist zf) -> getinfo zf' n = getinfo zf n.
Proof.
  intros Hp Hnd.
  assert (Hnd' : NoDup (namelist zf')).
  { exact (Permutation_NoDup (Permutation_map fst Hp) Hnd). }
  destruct (getinfo zf n) as [d|] eqn:E.
  - apply (getinfo_In_iff _ _ _ Hnd'). apply (Permutation_in _ Hp).
    apply (getinfo_In_iff _ _ _ Hnd). exact E.
  - destruct (getinfo zf' n) as [d'|] eqn:E'; [|reflexivity].
    apply (getinfo_In_iff _ _ _ Hnd') in E'.
    apply (Permutation_in _ (Permutation_sym Hp)) in E'.
    apply (getinfo_In_iff _ _ _ Hnd) in E'. congruence.
Qed.

Lemma zf_read_perm zf zf' n :
  Permutation zf zf' -> NoDup (namelist zf) -> zf_read zf' n = zf_read zf n.
Proof.
  intros Hp Hnd. unfold zf_read. rewrite (getinfo_perm _ _ n Hp Hnd).
  reflexivity.
Qed.

Lemma perm_filter {A} (f : A -> bool) l l' :
  Permutation l l' -> Permutation (filter f l) (filter f l').
Proof.
  induction 1 as [|a l l' _ IH|a b l|l1 l2 l3 _ IH1 _ IH2]; simpl.
  - constructor.
  - destruct (f a); [constructor|]; exact IH.
  - destruct (f a), (f b); try reflexivity. apply perm_swap.
  - exact (perm_trans IH1 IH2).
Qed.

(** X9. The order of the entries in the archive plays no part, as long
    as no name occurs twice. *)
Theorem X9_entry_order_irrelevant (zf zf' : ZipFile) :
  Permutation zf zf' -> NoDup (namelist zf) ->
  extract_docx_text (Some zf') = extract_docx_text (Some zf).
Proof.
  intros Hp Hnd.
  assert (Hread : forall n, _read_xml_from_docx (Some zf') n
                            = _read_xml_from_docx (Some zf) n).
  { intros n. unfold _read_xml_from_docx. cbn [open_zip].
    rewrite (zf_read_perm _ _ n Hp Hnd). reflexivity. }
  destruct (_read_xml_from_docx (Some zf) DOCX_MAIN_DOCUMENT)
    as [[main|]|e] eqn:E.
  - assert (E' := E). rewrite <- Hread in E'.
    rewrite (extract_docx_text_main _ _ E), (extract_docx_text_main _ _ E').
    rewrite (sorted_perm_unique (fun n : str => n)
               (filter is_supplementary (namelist zf'))
               (filter is_supplementary (namelist zf))).
    + rewrite (for_each_parts_ext (Some zf) (Some zf')); [reflexivity|].
      intros n _. apply Hread.
    + intros a b _ _ Hab. exact Hab.
    + apply perm_filter, Permutation_map, Permutation_sym. exact Hp.
  - rewrite (proj2 (extract_docx_text_none _) E).
    apply extract_docx_text_none. rewrite Hread. exact E.
  - rewrite (extract_docx_text_main_raises _ _ E).
    apply extract_docx_text_main_raises. rewrite Hread. exact E.
Qed.

End PackageContent.

Section PackageSamples.

Lemma X8_other_entries_ignored_witness :
  @extract_docx_text sample_parser
     (Some (omit (lit "[Content_Types].xml") sample_package))
  = @extract_docx_text sample_parser (Some sample_package).
Proof.
  apply (@X8_other_entries_ignored sample_parser sample_package
           (lit "[Content_Types].xml")).
  - discriminate.
  - reflexivity.
Defined.

Lemma X9_entry_order_irrelevant_witness :
  @extract_docx_text sample_parser (Some (rev sample_package))
  = @extract_docx_text sample_parser (Some sample_package).
Proof.
  apply (@X9_entry_order_irrelevant sample_parser).
  - apply Permutation_rev.
  - unfold sample_package. cbn [namelist List.map fst].
    repeat constructor; cbn [In]; intros H;
      repeat (destruct H as [H | H]; [discriminate H|]); exact H.
Defined.

End PackageSamples.

(** ** The batch converter *)

Section Batch.

Context {P : XMLParser}.

(** X10. The files converted are exactly the regular files of the input
    directory whose name ends in [.docx] (in that case of letters), taken
    in ascending order of their names. *)
Theorem X10_iter_docx_files_exact (input : Directory DocxFile)
        (p : str * Node DocxFile) :
  (In p (iter_docx_files input) <->
   In p input /\ is_file p = true /\ endswith (fst p) (lit ".docx") = true)
  /\ StronglySorted (key_le fst) (iter_docx_files input).
Proof.
  unfold iter_docx_files. split.
  - rewrite filter_In.
    split.
    + intros [Hin Hf].
      apply (Permutation_in _ (sorted_perm fst _)) in Hin.
      apply filter_In in Hin. tauto.
    + intros [Hin [Hf He]]. split; [|exact Hf].
      apply (Permutation_in _ (Permutation_sym (sorted_perm fst _))).
      apply filter_In. tauto.
  - rewrite filter_sorted. apply sorted_sorted.
Qed.

Lemma read_output_filter_other dir n m :
  n <> m ->
  read_output (filter (fun f => negb (str_eqb (fst f) n)) dir) m
  = read_output dir m.
Proof.
  intros Hne. induction dir as [|[k t] dir IH]; [reflexivity|].
  cbn [filter fst]. destruct (str_eqb k n) eqn:E; cbn [negb read_output].
  - apply str_eqb_eq in E. subst k.
    replace (str_eqb n m) with false by (symmetry; apply str_eqb_neq; exact Hne).
    exact IH.
  - rewrite IH. reflexivity.
Qed.

Lemma read_output_write dir n t : read_output (write_text dir n t) n = Some t.
Proof. unfold write_text. cbn [read_output]. rewrite str_eqb_refl. reflexivity. Qed.

Lemma read_output_write_other dir n t m :
  n <> m -> read_output (write_text dir n t) m = read_output dir m.
Proof.
  intros Hne. unfold write_text. cbn [read_output].
  replace (str_eqb n m) with false by (symmetry; apply str_eqb_neq; exact Hne).
  apply read_output_filter_other. exact Hne.
Qed.

(** One file: the three outcomes of [convert_one] on a regular file. *)
Lemma convert_one_cases st name docx :
  (extract_docx_text docx = Ok None
   /\ extractable (name, RegularFile docx) = false
   /\ convert_one st (name, RegularFile docx) = Ok (skip st))
  \/ (exists d, extract_docx_text docx = Ok (Some d)
        /\ extractable (name, RegularFile docx) = true
        /\ convert_one st (name, RegularFile docx)
           = Ok (mkProgress
                   (write_text (output_dir st)
                               (out_name (name, RegularFile docx)) (to_text d))
                   (S (converted st)) (skipped st)))
  \/ (exists e, extract_docx_text docx = Raise e
        /\ convert_one st (name, RegularFile docx) = Raise e).
Proof.
  unfold convert_one, extractable, out_name. cbn [snd fst].
  destruct (extract_docx_text docx) as [[d|]|e] eqn:E.
  - right. left. exists d. repeat split; reflexivity.
  - left. repeat split; reflexivity.
  - right. right. exists e. split; reflexivity.
Qed.

(** The loop returns exactly when no extraction raises. *)
Lemma for_each_convert_returns files st :
  Forall (fun p => is_file p = true) files ->
  (forall name docx, In (name, RegularFile docx) files ->
                     exists r, extract_docx_text docx = Ok r) <->
  exists st', for_each convert_one files st = Ok st'.
Proof.
  intros Hfiles. revert st.
  induction Hfiles as [|[name node] files Hf _ IH]; intros st.
  - split; [intros _; exists st; reflexivity | intros _ nm dx []].
  - destruct node as [|docx]; [discriminate|]. cbn [for_each].
    destruct (convert_one_cases st name docx)
      as [[Hd [_ E1]] | [[d [Hd [_ E1]]] | [e [Hd E1]]]];
      rewrite E1; cbn [bind].
    + rewrite <- IH. split.
      * intros Hall nm dx Hin. apply (Hall nm). right. exact Hin.
      * intros Hall nm dx [[= -> ->] | Hin];
          [exists None; exact Hd | exact (Hall nm dx Hin)].
    + rewrite <- IH. split.
      * intros Hall nm dx Hin. apply (Hall nm). right. exact Hin.
      * intros Hall nm dx [[= -> ->] | Hin];
          [exists (Some d); exact Hd | exact (Hall nm dx Hin)].
    + split.
      * intros Hall. destruct (Hall name docx (or_introl eq_refl)) as [r Hr].
        congruence.
      * intros [st' Hst]. discriminate.
Qed.

Lemma for_each_convert_exact files st st' :
  Forall (fun p => is_file p = true) files ->
  for_each convert_one files st = Ok st' ->
  converted st' = (converted st + List.length (filter extractable files))%nat
  /\ skipped st'
     = (skipped st
        + List.length (filter (fun p => negb (extractable p)) files))%nat
  /\ (forall m, ~ In m (List.map out_name files) ->
                read_output (output_dir st') m = read_output (output_dir st) m)
  /\ (forall n t, In (n, t) (output_dir st') ->
        In (n, t) (output_dir st)
        \/ exists name docx d,
             In (name, RegularFile docx) files
             /\ extract_docx_text docx = Ok (Some d)
             /\ n = stem name ++ lit ".txt" /\ t = to_text d).
Proof.
  intros Hfiles. revert st.
  induction Hfiles as [|[name node] files Hf _ IH]; intros st E.
  - cbn [for_each] in E. injection E as <-.
    cbn [filter List.length List.map].
    rewrite !Nat.add_0_r. repeat split; auto.
  - destruct node as [|docx]; [discriminate|]. cbn [for_each] in E.
    destruct (convert_one_cases st name docx)
      as [[_ [Hx E1]] | [[d [Hd [Hx E1]]] | [e [_ E1]]]];
      rewrite E1 in E; cbn [bind] in E; [| |discriminate].
    + destruct (IH (skip st) E) as [Hc [Hs [Hr Hp]]].
      cbn [filter]. rewrite Hx. cbn [negb List.length].
      split; [exact Hc|].
      split; [rewrite Hs; cbn [skip skipped]; lia|].
      split.
      * intros m Hm. apply Hr. intros Hin. apply Hm. right. exact Hin.
      * intros n t Hin. destruct (Hp n t Hin) as [Hold | Hnew].
        -- left. exact Hold.
        -- right. destruct Hnew as [nm [dx [d [H1 H2]]]].
           exists nm, dx, d. split; [right; exact H1 | exact H2].
    + set (st1 := mkProgress
                    (write_text (output_dir st)
                                (out_name (name, RegularFile docx)) (to_text d))
                    (S (converted st)) (skipped st)) in *.
      destruct (IH st1 E) as [Hc [Hs [Hr Hp]]].
      cbn [filter]. rewrite Hx. cbn [negb List.length].
      split; [rewrite Hc; cbn [st1 converted]; lia|].
      split; [exact Hs|].
      split.
      * intros m Hm. rewrite Hr.
        -- cbn [st1 output_dir]. apply read_output_write_other.
           intros Heq. apply Hm. left. exact Heq.
        -- intros Hin. apply Hm. right. exact Hin.
      * intros n t Hin. destruct (Hp n t Hin) as [Hold | Hnew].
        -- cbn [st1 output_dir] in Hold. unfold write_text in Hold.
           destruct Hold as [[= <- <-] | Hold].
           ++ right. exists name, docx, d.
              split; [left; reflexivity|]. repeat split. exact Hd.
           ++ left. apply filter_In in Hold. tauto.
        -- right. destruct Hnew as [nm [dx [d' [H1 H2]]]].
           exists nm, dx, d'. split; [right; exact H1 | exact H2].
Qed.

(** X11. The batch returns exactly when the extraction raises for none
    of the files it takes; the two counters it then returns are exact:
    the number of files for which extraction gave a text, and the number
    of those for which it gave none. *)
Theorem X11_convert_directory_counts (input : Directory DocxFile)
        (output : OutDir) :
  ((forall name docx, In (name, RegularFile docx) (iter_docx_files input) ->
                      exists r, extract_docx_text docx = Ok r) <->
   exists done, convert_directory input output = Ok done)
  /\ forall done,
       convert_directory input output = Ok done ->
       converted done
       = List.length (filter extractable (iter_docx_files input))
       /\ skipped done
          = List.length (filter (fun p => negb (extractable p))
                                (iter_docx_files input)).
Proof.
  split.
  - exact (for_each_convert_returns (iter_docx_files input)
             (mkProgress output 0 0) (iter_docx_files_are_files input)).
  - intros done E.
    destruct (for_each_convert_exact (iter_docx_files input)
                (mkProgress output 0 0) done
                (iter_docx_files_are_files input) E)
      as [Hc [Hs _]].
    split; assumption.
Qed.

(** X12. When the run returns, every file of the output directory is
    either a file that was there before, or the text of an extracted
    input under the input's name with [.txt] for its extension; and a
    file whose name is not one of these is left as it was. *)
Theorem X12_convert_directory_output (input : Directory DocxFile)
        (output : OutDir) (done : Progress) :
  convert_directory input output = Ok done ->
  (forall n t, In (n, t) (output_dir done) ->
     In (n, t) output
     \/ exists name docx d,
          In (name, RegularFile docx) (iter_docx_files input)
          /\ extract_docx_text docx = Ok (Some d)
          /\ n = stem name ++ lit ".txt" /\ t = to_text d)
  /\ (forall m, ~ In m (List.map out_name (iter_docx_files input)) ->
                read_output (output_dir done) m = read_output output m).
Proof.
  intros E.
  destruct (for_each_convert_exact (iter_docx_files input)
              (mkProgress output 0 0) done
              (iter_docx_files_are_files input) E)
    as [_ [_ [Hr Hp]]].
  split; [exact Hp | exact Hr].
Qed.

Lemma convert_one_extracted st name docx d :
  extract_docx_text docx = Ok (Some d) ->
  convert_one st (name, RegularFile docx)
  = Ok (mkProgress
          (write_text (output_dir st) (stem name ++ lit ".txt") (to_text d))
          (S (converted st)) (skipped st)).
Proof.
  intros Hd. unfold convert_one. cbn [snd fst]. rewrite Hd. reflexivity.
Qed.

Lemma for_each_convert_written files st st' name docx d :
  Forall (fun p => is_file p = true) files ->
  NoDup (List.map out_name files) ->
  for_each convert_one files st = Ok st' ->
  In (name, RegularFile docx) files ->
  extract_docx_text docx = Ok (Some d) ->
  read_output (output_dir st') (stem name ++ lit ".txt") = Some (to_text d).
Proof.
  intros Hfiles. revert st.
  induction Hfiles as [|[nm node] files Hf Hfs IH]; intros st Hnd E Hin Hd;
    [contradiction|].
  destruct node as [|dx]; [discriminate|].
  cbn [List.map] in Hnd. inversion Hnd as [|? ? Hfresh Hnd']; subst.
  cbn [for_each] in E.
  destruct Hin as [[= -> ->] | Hin].
  - rewrite (convert_one_extracted st name docx d Hd) in E.
    cbn [bind] in E.
    destruct (for_each_convert_exact files _ st' Hfs E)
      as [_ [_ [Hr _]]].
    change (stem name ++ lit ".txt") with (out_name (name, RegularFile docx)).
    rewrite (Hr _ Hfresh). cbn [output_dir]. apply read_output_write.
  - destruct (convert_one st (nm, RegularFile dx)) as [st1|e] eqn:E1;
      [|discriminate].
    cbn [bind] in E. exact (IH st1 Hnd' E Hin Hd).
Qed.

(** X13. After the run, the text of every extracted input is in the
    output directory under the input's name with [.txt] for its
    extension, provided no two inputs are written to the same path. *)
Theorem X13_convert_directory_written (input : Directory DocxFile)
        (output : OutDir) (done : Progress) (name : str) (docx : DocxFile)
        (d : DocxText) :
  NoDup (List.map out_name (iter_docx_files input)) ->
  convert_directory input output = Ok done ->
  In (name, RegularFile docx) (iter_docx_files input) ->
  extract_docx_text docx = Ok (Some d) ->
  read_output (output_dir done) (stem name ++ lit ".txt") = Some (to_text d).
Proof.
  intros Hnd E Hin Hd.
  exact (for_each_convert_written _ _ _ _ _ _
           (iter_docx_files_are_files input) Hnd E Hin Hd).
Qed.

End Batch.

Section BatchSamples.

Lemma sample_input_returns name docx :
  In (name, RegularFile docx) (iter_docx_files sample_input) ->
  exists r, @extract_docx_text sample_parser docx = Ok r.
Proof.
  intros Hin. vm_compute in Hin.
  destruct Hin as [[= <- <-] | [[= <- <-] | []]]; eexists; reflexivity.
Defined.

Lemma X11_convert_directory_counts_witness :
  (exists done, @convert_directory sample_parser sample_input [] = Ok done)
  /\ (1 = List.length (filter (@extractable sample_parser)
                              (iter_docx_files sample_input)))%nat
  /\ (1 = List.length (filter (fun p => negb (@extractable sample_parser p))
                              (iter_docx_files sample_input)))%nat.
Proof.
  destruct (@X11_convert_directory_counts sample_parser sample_input [])
    as [Hreturns Hcounts].
  split; [exact (proj1 Hreturns sample_input_returns)|].
  exact (Hcounts
           (mkProgress
              [(lit "report.txt",
                lit "cell" ++ [LF] ++ lit "x" ++ [TAB] ++ lit "y" ++ [LF]
                ++ lit "first" ++ [LF] ++ lit "second" ++ [LF])]
              1 1)
           eq_refl).
Defined.

Lemma X12_convert_directory_output_witness :
  @convert_directory sample_parser sample_input [(lit "keep.txt", lit "old")]
  = Ok (mkProgress
          [(lit "report.txt",
            lit "cell" ++ [LF] ++ lit "x" ++ [TAB] ++ lit "y" ++ [LF]
            ++ lit "first" ++ [LF] ++ lit "second" ++ [LF]);
           (lit "keep.txt", lit "old")]
          1 1)
  /\ read_output
       [(lit "report.txt",
         lit "cell" ++ [LF] ++ lit "x" ++ [TAB] ++ lit "y" ++ [LF]
         ++ lit "first" ++ [LF] ++ lit "second" ++ [LF]);
        (lit "keep.txt", lit "old")]
       (lit "keep.txt")
     = read_output [(lit "keep.txt", lit "old")] (lit "keep.txt").
Proof.
  split; [reflexivity|].
  apply (proj2 (@X12_convert_directory_output sample_parser sample_input
                  [(lit "keep.txt", lit "old")] _ eq_refl)).
  intros Hin. vm_compute in Hin.
  destruct Hin as [Hin | [Hin | []]]; discriminate Hin.
Defined.

Lemma X13_convert_directory_written_witness :
  @convert_directory sample_parser sample_input []
  = Ok (mkProgress
          [(lit "report.txt",
            lit "cell" ++ [LF] ++ lit "x" ++ [TAB] ++ lit "y" ++ [LF]
            ++ lit "first" ++ [LF] ++ lit "second" ++ [LF])]
          1 1)
  /\ read_output
       [(lit "report.txt",
         lit "cell" ++ [LF] ++ lit "x" ++ [TAB] ++ lit "y" ++ [LF]
         ++ lit "first" ++ [LF] ++ lit "second" ++ [LF])]
       (lit "report.txt")
     = Some (to_text (mkDocxText
                        [[]; lit "cell"; lit "x" ++ [TAB] ++ lit "y";
                         lit "first"; lit "second"])).
Proof.
  split; [reflexivity|].
  assert (Hnd : NoDup (List.map out_name
                         (@iter_docx_files sample_input))).
  { cbn. repeat constructor; cbn [In]; intros H;
      repeat (destruct H as [H | H]; [discriminate H|]); exact H. }
  assert (Hin : In (lit "report.docx", RegularFile (Some sample_package))
                   (iter_docx_files sample_input)).
  { right. left. reflexivity. }
  exact (@X13_convert_directory_written sample_parser sample_input []
           (mkProgress
              [(lit "report.txt",
                lit "cell" ++ [LF] ++ lit "x" ++ [TAB] ++ lit "y" ++ [LF]
                ++ lit "first" ++ [LF] ++ lit "second" ++ [LF])]
              1 1)
           (lit "report.docx") (Some sample_package)
           (mkDocxText [[]; lit "cell"; lit "x" ++ [TAB] ++ lit "y";
                        lit "first"; lit "second"])
           Hnd eq_refl Hin eq_refl).
Defined.

End BatchSamples.

(** ** The merge of text files *)

Section Merge.

Context {C : Codecs}.

Lemma read_text_of name data :
  _read_text_with_fallback data = Ok (file_text (name, RegularFile data)).
Proof.
  unfold file_text. cbn [snd]. unfold _read_text_with_fallback.
  destruct (try_encodings_total [UTF_8; UTF_8_SIG; GB18030] data) as [s ->].
  reflexivity.
Qed.

Lemma concat_snoc {A} (xs : list (list A)) x :
  List.concat (xs ++ [x]) = List.concat xs ++ x.
Proof. rewrite concat_app. simpl. rewrite app_nil_r. reflexivity. Qed.

(** One turn of the loop after the first. *)
Lemma merge_one_next parts i name data :
  parts <> [] ->
  exists parts',
    merge_one parts (S i, (name, RegularFile data)) = Ok parts'
    /\ List.concat parts'
       = List.concat parts ++ separator_after (last_part parts)
         ++ file_text (name, RegularFile data)
    /\ parts' <> []
    /\ last_part parts' = file_text (name, RegularFile data).
Proof.
  intros Hne. unfold merge_one. cbn [snd].
  rewrite (read_text_of name data). cbn [bind Nat.eqb negb andb].
  replace (Nat.eqb (List.length parts) 0) with false
    by (destruct parts; [contradiction | reflexivity]).
  cbn [negb andb]. eexists. split; [reflexivity|].
  unfold separator_after, last_part.
  destruct (endswith (last parts []) [LF]); cbn [negb];
    (split; [|split; [destruct parts; discriminate | apply last_last]]).
  - rewrite (concat_snoc (parts ++ [[LF]])), (concat_snoc parts).
    rewrite <- !app_assoc. reflexivity.
  - rewrite (concat_snoc ((parts ++ [[LF]]) ++ [[LF]])).
    rewrite (concat_snoc (parts ++ [[LF]])), (concat_snoc parts).
    rewrite <- !app_assoc. reflexivity.
Qed.

Lemma merge_loop_following (files : list (str * Node bytes)) i parts :
  Forall (fun p => is_file p = true) files -> parts <> [] ->
  exists final,
    for_each merge_one (combine (seq (S i) (List.length files)) files) parts
    = Ok final
    /\ List.concat final
       = List.concat parts
         ++ following (last_part parts) (List.map file_text files).
Proof.
  intros Hfiles. revert i parts.
  induction Hfiles as [|[name node] files Hf _ IH]; intros i parts Hne.
  - exists parts. split; [reflexivity|].
    cbn [List.map following]. rewrite app_nil_r. reflexivity.
  - destruct node as [|data]; [discriminate|].
    destruct (merge_one_next parts i name data Hne)
      as [parts' [E [Hc [Hne' Hlast]]]].
    destruct (IH (S i) parts' Hne') as [final [E' Hc']].
    exists final. cbn [List.length seq combine for_each].
    rewrite E. cbn [bind]. split; [exact E'|].
    rewrite Hc', Hc, Hlast. cbn [List.map following].
    rewrite <- !app_assoc. reflexivity.
Qed.

Lemma merge_loop_texts (files : list (str * Node bytes)) :
  Forall (fun p => is_file p = true) files ->
  exists final,
    for_each merge_one (combine (seq 0 (List.length files)) files) []
    = Ok final
    /\ List.concat final = merge_texts (List.map file_text files).
Proof.
  intros Hfiles. destruct Hfiles as [|[name node] files Hf Hfs].
  - exists []. split; reflexivity.
  - destruct node as [|data]; [discriminate|].
    destruct (merge_loop_following files 0
                [file_text (name, RegularFile data)] Hfs)
      as [final [E Hc]]; [discriminate|].
    exists final. cbn [List.length seq combine for_each].
    unfold merge_one at 1. cbn [snd].
    rewrite (read_text_of name data). cbn [bind Nat.eqb negb andb app].
    split; [exact E|].
    rewrite Hc. cbn [List.concat last_part last List.map merge_texts].
    rewrite app_nil_r. reflexivity.
Qed.

Lemma selected_sorted_files (dir : Directory bytes) :
  Forall (fun p => is_file p = true) (sorted fst (filter selected_txt dir)).
Proof.
  apply Forall_forall. intros p Hp.
  apply (Permutation_in _ (sorted_perm fst _)) in Hp.
  apply filter_In in Hp as [_ Hp]. unfold selected_txt in Hp.
  apply andb_true_iff in Hp. tauto.
Qed.

Lemma merge_txt_files_texts (dir : Directory bytes) :
  merge_txt_files (Some dir)
  = Ok (merge_texts
          (List.map file_text (sorted fst (filter selected_txt dir))),
        List.length (filter selected_txt dir)).
Proof.
  unfold merge_txt_files.
  change (fun p : str * Node bytes =>
            is_file p && str_eqb (lower (suffix (fst p))) (lit ".txt"))
    with selected_txt.
  destruct (merge_loop_texts _ (selected_sorted_files dir)) as [final [E Hc]].
  rewrite E. cbn [bind]. rewrite join_nil_concat, Hc.
  rewrite (Permutation_length (sorted_perm fst (filter selected_txt dir))).
  reflexivity.
Qed.

(** X14. The merged file is the texts of the selected files in name
    order, each but the first behind one empty line (after the end of the
    line before it, when that was missing); nothing is put before the
    first text or after the last.  The count returned is the number of
    selected files. *)
Theorem X14_merge_txt_files_text (dir : Directory bytes) :
  merge_txt_files (Some dir)
  = Ok (merge_texts
          (List.map file_text (sorted fst (filter selected_txt dir))),
        List.length (filter selected_txt dir)).
Proof. apply merge_txt_files_texts. Qed.

Lemma startswith_nil s : startswith s [] = true.
Proof. destruct s; reflexivity. Qed.

Lemma following_normalised (previous : DocxText) (ds : list DocxText) :
  following (to_text previous) (List.map to_text ds)
  = List.concat (List.map (fun d => LF :: to_text d) ds).
Proof.
  revert previous. induction ds as [|d ds IH]; intros previous;
    [reflexivity|].
  cbn [List.map following List.concat]. rewrite IH.
  unfold separator_after, endswith, to_text at 1.
  rewrite rev_app_distr. cbn [rev app startswith].
  rewrite N.eqb_refl, startswith_nil. reflexivity.
Qed.

(** X15. Merging texts that the normaliser produced puts exactly one
    empty line between two of them and changes nothing else. *)
Theorem X15_merge_of_normalised_texts (ds : list DocxText) :
  merge_texts (List.map to_text ds)
  = join [LF] (List.map to_text ds).
Proof.
  destruct ds as [|d ds]; [reflexivity|].
  cbn [List.map merge_texts]. rewrite following_normalised.
  revert d. induction ds as [|d' ds IH]; intros d.
  - cbn. rewrite app_nil_r. reflexivity.
  - cbn [List.map]. rewrite join_cons_cons. cbn [List.concat].
    f_equal. cbn [app]. f_equal. apply IH.
Qed.

End Merge.

Section MergeSelection.

Context {C : Codecs}.

Lemma filter_idem {A} (f : A -> bool) l : filter f (filter f l) = filter f l.
Proof.
  apply filter_all_In. intros a Ha. apply filter_In in Ha. tauto.
Qed.

Lemma NoDup_map_fst_inj {A B} (l : list (A * B)) a b :
  NoDup (List.map fst l) -> In a l -> In b l -> fst a = fst b -> a = b.
Proof.
  induction l as [|x l IH]; intros Hnd Ha Hb E; [contradiction|].
  cbn [List.map] in Hnd. inversion Hnd as [|? ? Hx Hnd']; subst.
  destruct Ha as [-> | Ha]; destruct Hb as [-> | Hb].
  - reflexivity.
  - exfalso. apply Hx. rewrite E. apply in_map. exact Hb.
  - exfalso. apply Hx. rewrite <- E. apply in_map. exact Ha.
  - exact (IH Hnd' Ha Hb E).
Qed.

(** X16. The merge depends on the selected files only, not on the order
    in which the directory lists its entries (no name being listed
    twice), nor on its sub-directories and its files of other kinds. *)
Theorem X16_merge_listing_irrelevant (dir dir' : Directory bytes) :
  NoDup (List.map fst dir) -> Permutation dir dir' ->
  merge_txt_files (Some dir') = merge_txt_files (Some dir)
  /\ merge_txt_files (Some (filter selected_txt dir))
     = merge_txt_files (Some dir).
Proof.
  intros Hnd Hp. rewrite !merge_txt_files_texts, filter_idem.
  split; [|reflexivity].
  rewrite (sorted_perm_unique fst (filter selected_txt dir')
                              (filter selected_txt dir)).
  - rewrite (Permutation_length (perm_filter selected_txt _ _ Hp)).
    reflexivity.
  - intros a b Ha Hb. apply filter_In in Ha as [Ha _].
    apply filter_In in Hb as [Hb _].
    apply (NoDup_map_fst_inj dir').
    + exact (Permutation_NoDup (Permutation_map fst Hp) Hnd).
    + exact Ha.
    + exact Hb.
  - apply perm_filter, Permutation_sym. exact Hp.
Qed.

Lemma rfind_dot_none_app a b :
  rfind_dot (a ++ b) = match rfind_dot b with
                       | Some i => Some (List.length a + i)%nat
                       | None => rfind_dot a
                       end.
Proof.
  induction a as [|c a IH]; [cbn; destruct (rfind_dot b); reflexivity|].
  cbn [app rfind_dot List.length]. rewrite IH.
  destruct (rfind_dot b); [reflexivity|].
  destruct (rfind_dot a); reflexivity.
Qed.

Lemma lower_txt_shape ext :
  lower ext = lit ".txt" ->
  exists a b c, ext = [DOT; a; b; c] /\ rfind_dot [a; b; c] = None.
Proof.
  destruct ext as [|d [|a [|b [|c [|e ext]]]]]; try discriminate.
  unfold lower. cbn [List.map]. intros [= Hd Ha Hb Hc].
  assert (Hlow : forall x y,
             (if (65 <=? x) && (x <=? 90) then x + 32 else x) = y ->
             (97 <=? y) && (y <=? 122) = true \/ x = y).
  { intros x y <-. destruct ((65 <=? x) && (x <=? 90)) eqn:E; [|right; reflexivity].
    left. apply andb_true_iff in E as [E1 E2].
    apply N.leb_le in E1, E2. apply andb_true_iff.
    split; apply N.leb_le; lia. }
  assert (Ed : d = DOT).
  { destruct (Hlow _ _ Hd) as [H | H]; [discriminate H | exact H]. }
  exists a, b, c. split; [rewrite Ed; reflexivity|].
  assert (Hnd : forall x y, (if (65 <=? x) && (x <=? 90) then x + 32 else x) = y ->
                            y <> DOT -> (x =? DOT) = false).
  { intros x y E Hy. apply N.eqb_neq. intros ->. apply Hy. rewrite <- E.
    reflexivity. }
  cbn [rfind_dot].
  rewrite (Hnd _ _ Ha), (Hnd _ _ Hb), (Hnd _ _ Hc); try discriminate.
  reflexivity.
Qed.

(** X17. A file is selected when its name is a non-empty base followed
    by [.txt] in any case of letters, and only then: a file named just
    [.txt] is not, nor is a name with anything after the extension. *)
Theorem X17_txt_names (name : str) :
  str_eqb (lower (suffix name)) (lit ".txt") = true <->
  exists base ext, name = base ++ ext /\ base <> []
                   /\ lower ext = lit ".txt".
Proof.
  split.
  - intros H. apply str_eqb_eq in H. unfold suffix in H.
    destruct (rfind_dot name) as [i|]; [|discriminate].
    destruct ((0 <? i)%nat && (i <? List.length name - 1)%nat) eqn:E;
      [|discriminate].
    apply andb_true_iff in E as [E1 E2].
    apply Nat.ltb_lt in E1, E2.
    exists (firstn i name), (skipn i name).
    split; [symmetry; apply firstn_skipn|]. split; [|exact H].
    intros Hnil. apply (f_equal (@List.length char)) in Hnil.
    rewrite length_firstn in Hnil. cbn in Hnil. lia.
  - intros [base [ext [-> [Hbase Hext]]]].
    destruct (lower_txt_shape _ Hext) as [a [b [c [-> Hnd]]]].
    apply str_eqb_eq. unfold suffix.
    rewrite rfind_dot_none_app.
    change (rfind_dot [DOT; a; b; c])
      with (match rfind_dot [a; b; c] with
            | Some i => Some (S i)
            | None => if DOT =? DOT then Some 0%nat else None
            end).
    rewrite Hnd. cbn [N.eqb DOT Pos.eqb]. rewrite Nat.add_0_r.
    rewrite length_app. cbn [List.length].
    replace ((0 <? List.length base)%nat) with true
      by (symmetry; apply Nat.ltb_lt; destruct base; [contradiction | cbn; lia]).
    replace ((List.length base <? List.length base + 4 - 1)%nat) with true
      by (symmetry; apply Nat.ltb_lt; lia).
    cbn [andb]. rewrite skipn_app, Nat.sub_diag, skipn_all. exact Hext.
Qed.

Lemma X17_txt_names_witness :
  str_eqb (lower (suffix (lit "b.TXT"))) (lit ".txt") = true
  /\ str_eqb (lower (suffix (lit ".txt"))) (lit ".txt") = false
  /\ str_eqb (lower (suffix (lit "a.txt.bak"))) (lit ".txt") = false.
Proof.
  split; [|split; reflexivity].
  apply (proj2 (X17_txt_names (lit "b.TXT"))).
  exists (lit "b"), (lit ".TXT"). repeat split. discriminate.
Defined.

Lemma universal_newlines_no_CR s : ~ In CR (universal_newlines s).
Proof.
  induction s as [|c|c d r IHr IHd] using str_ind2.
  - intros [].
  - cbn. destruct (N.eqb_spec c CR) as [-> | Hne]; cbn.
    + intros [H | []]. discriminate.
    + intros [H | []]. congruence.
  - change (universal_newlines (c :: d :: r))
      with (if c =? CR
            then if d =? LF then LF :: universal_newlines r
                 else LF :: universal_newlines (d :: r)
            else c :: universal_newlines (d :: r)).
    destruct (N.eqb_spec c CR) as [-> | Hne].
    + destruct (d =? LF); intros [H | H]; try discriminate;
        [exact (IHr H) | exact (IHd H)].
    + intros [H | H]; [congruence | exact (IHd H)].
Qed.

Lemma read_text_no_CR enc e data s :
  read_text enc e data = Ok s -> ~ In CR s.
Proof.
  unfold read_text. destruct (decode enc e data); [|discriminate].
  intros [= <-]. apply universal_newlines_no_CR.
Qed.

Lemma try_encodings_no_CR encodings data s :
  try_encodings encodings data = Ok s -> ~ In CR s.
Proof.
  induction encodings as [|enc rest IH]; cbn [try_encodings].
  - apply read_text_no_CR.
  - destruct (read_text enc Strict data) as [t|[]] eqn:E; try discriminate.
    + intros [= <-]. exact (read_text_no_CR _ _ _ _ E).
    + exact IH.
Qed.

Lemma file_text_no_CR p : ~ In CR (file_text p).
Proof.
  unfold file_text. destruct (snd p) as [|data]; [intros []|].
  destruct (_read_text_with_fallback data) as [s|e] eqn:E; [|intros []].
  exact (try_encodings_no_CR _ _ _ E).
Qed.

Lemma separator_after_no_CR s : ~ In CR (separator_after s).
Proof.
  unfold separator_after. destruct (endswith s [LF]); cbn [In];
    intros H; repeat (destruct H as [H | H]; [discriminate H|]); exact H.
Qed.

Lemma following_no_CR previous contents :
  Forall (fun s => ~ In CR s) contents -> ~ In CR (following previous contents).
Proof.
  intros H. revert previous.
  induction H as [|s rest Hs _ IH]; intros previous; [intros []|].
  cbn [following]. intros Hin.
  apply in_app_or in Hin as [Hin | Hin];
    [exact (separator_after_no_CR _ Hin)|].
  apply in_app_or in Hin as [Hin | Hin]; [exact (Hs Hin) | exact (IH _ Hin)].
Qed.

(** X18. Whatever the files hold, the merged text has no carriage
    return: every end of line read, [\r\n] or [\r], is a newline in it. *)
Theorem X18_merged_text_no_carriage_return (dir : Directory bytes)
        (merged : str) (count : nat) :
  merge_txt_files (Some dir) = Ok (merged, count) -> ~ In CR merged.
Proof.
  rewrite merge_txt_files_texts. intros [= <- _].
  assert (H : Forall (fun s => ~ In CR s)
                (List.map file_text (sorted fst (filter selected_txt dir)))).
  { apply Forall_forall. intros s Hs. apply in_map_iff in Hs as [p [<- _]].
    apply file_text_no_CR. }
  destruct (List.map file_text (sorted fst (filter selected_txt dir)))
    as [|s rest]; [intros []|].
  inversion H as [|? ? Hs Hrest]; subst.
  cbn [merge_texts]. intros Hin.
  apply in_app_or in Hin as [Hin | Hin];
    [exact (Hs Hin) | exact (following_no_CR _ _ Hrest Hin)].
Qed.

End MergeSelection.

Section MergeSelectionSamples.

Lemma X16_merge_listing_irrelevant_witness :
  @merge_txt_files one_byte_codecs (Some (rev mixed_dir))
  = @merge_txt_files one_byte_codecs (Some mixed_dir)
  /\ @merge_txt_files one_byte_codecs (Some (filter selected_txt mixed_dir))
     = @merge_txt_files one_byte_codecs (Some mixed_dir)
  /\ @merge_txt_files one_byte_codecs (Some mixed_dir)
     = Ok (lit "first" ++ [LF; LF] ++ lit "second" ++ [LF], 2%nat).
Proof.
  destruct (@X16_merge_listing_irrelevant one_byte_codecs mixed_dir
              (rev mixed_dir))
    as [Horder Hfilter].
  - cbn. repeat constructor; cbn [In]; intros H;
      repeat (destruct H as [H | H]; [discriminate H|]); exact H.
  - apply Permutation_rev.
  - split; [exact Horder|]. split; [exact Hfilter | reflexivity].
Defined.

Lemma X18_merged_text_no_carriage_return_witness :
  @merge_txt_files one_byte_codecs (Some mixed_dir)
  = Ok (lit "first" ++ [LF; LF] ++ lit "second" ++ [LF], 2%nat)
  /\ ~ In CR (lit "first" ++ [LF; LF] ++ lit "second" ++ [LF]).
Proof.
  split; [reflexivity|].
  exact (@X18_merged_text_no_carriage_return one_byte_codecs mixed_dir
           _ 2%nat eq_refl).
Defined.

End MergeSelectionSamples.

(** ** Encoding and decoding *)

Section Encoding.

Context {C : Codecs}.

Lemma utf8_decode_BOM e rest :
  utf8_decode e (BOM_BYTES ++ rest)
  = option_map (cons BOM) (utf8_decode e rest).
Proof. reflexivity. Qed.

Lemma startswith_three (s : str) a b c :
  startswith s [a; b; c] = true -> exists rest, s = a :: b :: c :: rest.
Proof.
  destruct s as [|x [|y [|z rest]]]; cbn [startswith];
    rewrite ?andb_false_r; try discriminate.
  rewrite !andb_true_iff, !N.eqb_eq. intros [-> [-> [-> _]]].
  exists rest. reflexivity.
Qed.

Lemma starts_BOM_short (data : bytes) :
  (List.length data <? 3)%nat && startswith BOM_BYTES data = true ->
  data = [] \/ data = [239] \/ data = [239; 187].
Proof.
  unfold BOM_BYTES.
  destruct data as [|x [|y [|z rest]]]; cbn [List.length startswith].
  - intros _. left. reflexivity.
  - rewrite !andb_true_iff, N.eqb_eq. intros [_ [-> _]].
    right. left. reflexivity.
  - rewrite !andb_true_iff, !N.eqb_eq. intros [_ [-> [-> _]]].
    right. right. reflexivity.
  - discriminate.
Qed.

(** The decoder for [utf-8-sig] is the one for [utf-8], after the
    byte-order mark when the bytes start with it, but for the two files
    that are a beginning of the mark. *)
Lemma utf8_sig_decode_cases e data :
  ((data = [239] \/ data = [239; 187]) /\ utf8_sig_decode e data = Some [])
  \/ (exists rest, data = BOM_BYTES ++ rest
                   /\ utf8_sig_decode e data = utf8_decode e rest)
  \/ utf8_sig_decode e data = utf8_decode e data.
Proof.
  unfold utf8_sig_decode.
  destruct ((List.length data <? 3)%nat && startswith BOM_BYTES data)
    eqn:Eshort.
  - destruct (starts_BOM_short _ Eshort) as [-> | Hd].
    + right. right. reflexivity.
    + left. split; [exact Hd | reflexivity].
  - destruct (startswith data BOM_BYTES) eqn:Ebom.
    + right. left. apply startswith_three in Ebom as [rest ->].
      exists rest. split; reflexivity.
    + right. right. reflexivity.
Qed.

(** Where [utf-8] fails, [utf-8-sig] fails as well, but on the two files
    that are a beginning of the byte-order mark. *)
Lemma read_text_sig_after_plain data :
  read_text UTF_8 Strict data = Raise UnicodeDecodeError ->
  (read_text UTF_8_SIG Strict data = Ok []
   /\ (data = [239] \/ data = [239; 187]))
  \/ (read_text UTF_8_SIG Strict data = Raise UnicodeDecodeError
      /\ data <> [239] /\ data <> [239; 187]).
Proof.
  unfold read_text. cbn [decode].
  destruct (utf8_decode Strict data) as [s|] eqn:E; [discriminate|].
  intros _.
  destruct (utf8_sig_decode_cases Strict data)
    as [[Hd Hsig] | [[rest [-> Hsig]] | Hsig]]; rewrite Hsig.
  - left. split; [reflexivity | exact Hd].
  - right. rewrite utf8_decode_BOM in E.
    destruct (utf8_decode Strict rest); [discriminate|].
    split; [reflexivity|]. split; discriminate.
  - right. rewrite E. split; [reflexivity|].
    split; intros ->; unfold utf8_sig_decode in Hsig; discriminate Hsig.
Qed.

(** X19. A UTF-8 file that starts with a byte-order mark is read with
    U+FEFF as the first character of its text: the first encoding tried
    decodes it and keeps the mark.  The second encoding decodes what the
    first did not for two files only, the first byte of the mark and its
    first two bytes, which are read as the empty text. *)
Theorem X19_byte_order_mark_kept (data rest : bytes) (s : str) :
  utf8_decode Strict rest = Some s ->
  _read_text_with_fallback (BOM_BYTES ++ rest)
  = Ok (BOM :: universal_newlines s)
  /\ (read_text UTF_8 Strict data = Raise UnicodeDecodeError ->
      (read_text UTF_8_SIG Strict data = Ok []
       /\ _read_text_with_fallback data = Ok []
       /\ (data = [239] \/ data = [239; 187]))
      \/ (read_text UTF_8_SIG Strict data = Raise UnicodeDecodeError
          /\ data <> [239] /\ data <> [239; 187])).
Proof.
  intros Hs. split.
  - unfold _read_text_with_fallback. cbn [try_encodings].
    unfold read_text at 1. cbn [decode].
    rewrite utf8_decode_BOM, Hs. reflexivity.
  - intros E.
    destruct (read_text_sig_after_plain data E) as [[Hsig Hd] | Hfail];
      [left | right; exact Hfail].
    split; [exact Hsig|]. split; [|exact Hd].
    unfold _read_text_with_fallback. cbn [try_encodings].
    rewrite E, Hsig. reflexivity.
Qed.

End Encoding.

Section RoundTrip.

Context {C : Codecs}.

Lemma utf8_decode_encode_char e c rest :
  is_scalar c = true ->
  utf8_decode e (encode_char c ++ rest)
  = option_map (cons c) (utf8_decode e rest).
Proof.
  unfold is_scalar, encode_char. intros Hc.
  apply orb_true_iff in Hc.
  rewrite andb_true_iff, !N.ltb_lt, N.leb_le in Hc.
  euclid c. euclid (c / 64). euclid (c / 64 / 64). name_quotients.
  destruct (N.ltb_spec c 128); [|destruct (N.ltb_spec c 2048);
                                  [|destruct (N.ltb_spec c 65536)]].
  - cbn [app utf8_decode].
    destruct (N.ltb_spec c 128); [reflexivity | lia].
  - cbn [app utf8_decode]. unfold is_cont.
    repeat settle_test. do 2 f_equal. lia.
  - cbn [app utf8_decode]. unfold second_ok, is_cont.
    repeat settle_test; do 2 f_equal; lia.
  - cbn [app utf8_decode]. unfold second_ok, is_cont.
    repeat settle_test; do 2 f_equal; lia.
Qed.

Lemma utf8_decode_encode e s :
  forallb is_scalar s = true ->
  utf8_decode e (flat_map encode_char s) = Some s.
Proof.
  induction s as [|c s IH]; [reflexivity|].
  cbn [forallb flat_map]. intros H. apply andb_true_iff in H as [Hc Hs].
  rewrite (utf8_decode_encode_char _ _ _ Hc), (IH Hs). reflexivity.
Qed.

Lemma universal_newlines_fixed s : ~ In CR s -> universal_newlines s = s.
Proof.
  induction s as [|c r IH]; [reflexivity|].
  intros H. cbn [universal_newlines].
  destruct (N.eqb_spec c CR) as [-> | Hne].
  - exfalso. apply H. left. reflexivity.
  - f_equal. apply IH. intros Hin. apply H. right. exact Hin.
Qed.

(** X20. Text written as UTF-8 is read back by the merge utility as it
    was, but for its carriage returns: [\r\n] and [\r] come back as
    [\n]. *)
Theorem X20_utf8_round_trip (text : str) (data : bytes) :
  utf8_encode text = Some data ->
  _read_text_with_fallback data = Ok (universal_newlines text)
  /\ (~ In CR text -> _read_text_with_fallback data = Ok text).
Proof.
  unfold utf8_encode. destruct (forallb is_scalar text) eqn:E; [|discriminate].
  intros [= <-].
  assert (Hread : _read_text_with_fallback (flat_map encode_char text)
                  = Ok (universal_newlines text)).
  { unfold _read_text_with_fallback. cbn [try_encodings].
    unfold read_text at 1. cbn [decode].
    rewrite (utf8_decode_encode _ _ E). reflexivity. }
  split; [exact Hread|].
  intros Hcr. rewrite Hread, (universal_newlines_fixed _ Hcr). reflexivity.
Qed.

Lemma to_text_no_CR d : ~ In CR (to_text d).
Proof.
  intros Hin.
  pose proof (to_text_nl_only d) as Hn. unfold nl_only in Hn.
  pose proof (proj1 (forallb_forall _ _) Hn CR Hin) as Hc.
  discriminate Hc.
Qed.

(** X21. What the converter writes for a document, the merge utility
    reads back unchanged. *)
Theorem X21_converted_text_read_back (d : DocxText) (data : bytes) :
  utf8_encode (to_text d) = Some data ->
  _read_text_with_fallback data = Ok (to_text d).
Proof.
  unfold utf8_encode.
  destruct (forallb is_scalar (to_text d)) eqn:E; [|discriminate].
  intros [= <-].
  unfold _read_text_with_fallback. cbn [try_encodings].
  unfold read_text at 1. cbn [decode].
  rewrite (utf8_decode_encode _ _ E).
  rewrite (universal_newlines_fixed _ (to_text_no_CR d)). reflexivity.
Qed.

End RoundTrip.

Section EncodingSamples.

Lemma X19_byte_order_mark_kept_witness :
  utf8_decode Strict (lit "A") = Some (lit "A")
  /\ @_read_text_with_fallback one_byte_codecs (BOM_BYTES ++ lit "A")
     = Ok (BOM :: lit "A")
  /\ @read_text one_byte_codecs UTF_8 Strict [239; 187]
     = Raise UnicodeDecodeError
  /\ @_read_text_with_fallback one_byte_codecs [239; 187] = Ok [].
Proof.
  destruct (@X19_byte_order_mark_kept one_byte_codecs [239; 187] (lit "A")
              (lit "A") eq_refl)
    as [Hkept Hsig].
  split; [reflexivity|]. split; [exact Hkept|]. split; [reflexivity|].
  destruct (Hsig eq_refl) as [[_ [Hread _]] | [Hfail _]];
    [exact Hread | discriminate Hfail].
Defined.

Lemma X20_utf8_round_trip_witness :
  utf8_encode [228; 8364; 128512; CR; LF; 65]
  = Some [195; 164; 226; 130; 172; 240; 159; 152; 128; 13; 10; 65]
  /\ @_read_text_with_fallback one_byte_codecs
       [195; 164; 226; 130; 172; 240; 159; 152; 128; 13; 10; 65]
     = Ok [228; 8364; 128512; LF; 65].
Proof.
  split; [reflexivity|].
  exact (proj1 (@X20_utf8_round_trip one_byte_codecs
                  [228; 8364; 128512; CR; LF; 65] _ eq_refl)).
Defined.

Lemma X21_converted_text_read_back_witness :
  utf8_encode (to_text (mkDocxText [lit "x" ++ [TAB] ++ lit "y"; lit "z"]))
  = Some (lit "x" ++ [TAB] ++ lit "y" ++ [LF] ++ lit "z" ++ [LF])
  /\ @_read_text_with_fallback one_byte_codecs
       (lit "x" ++ [TAB] ++ lit "y" ++ [LF] ++ lit "z" ++ [LF])
     = Ok (to_text (mkDocxText [lit "x" ++ [TAB] ++ lit "y"; lit "z"])).
Proof.
  split; [reflexivity|].
  exact (@X21_converted_text_read_back one_byte_codecs
           (mkDocxText [lit "x" ++ [TAB] ++ lit "y"; lit "z"]) _ eq_refl).
Defined.

End EncodingSamples.

(** ** The merge of the desktop tool *)

Section Desktop.

Context {P : XMLParser}.

Lemma join_cons_next sep x y rest :
  join sep (x :: y :: rest) = x ++ sep ++ join sep (y :: rest).
Proof. reflexivity. Qed.

Lemma concat_snoc2 {A} (xs : list (list A)) a b :
  List.concat ((xs ++ [a]) ++ [b]) = List.concat xs ++ a ++ b.
Proof. rewrite !concat_snoc, <- app_assoc. reflexivity. Qed.

Lemma process_one_step total merged count i file r
      (rest : list (str * DocxFile)) :
  extract_docx_text (snd file) = Ok r ->
  (S i + List.length rest = total)%nat ->
  exists merged',
    process_one total (merged, count) (i, file) = Ok
      (merged', (count + if doc_ok file then 1 else 0)%nat)
    /\ List.concat merged'
       = List.concat merged ++ doc_text file
         ++ match rest with [] => [] | _ :: _ => UI_SEPARATOR end.
Proof.
  intros E Hlen. unfold process_one, doc_ok, doc_text.
  assert (Hlast : rest = [] -> (i <? total - 1)%nat = false).
  { intros ->. apply Nat.ltb_ge. cbn in Hlen. lia. }
  assert (Hmore : rest <> [] -> (i <? total - 1)%nat = true).
  { intros Hne. apply Nat.ltb_lt. destruct rest; [contradiction|].
    cbn in Hlen. lia. }
  rewrite E. destruct r as [d|]; cbn [bind].
  - eexists. split; [rewrite Nat.add_1_r; reflexivity|].
    destruct rest as [|f rest'].
    + rewrite (Hlast eq_refl).
      etransitivity; [exact (concat_snoc merged (to_text d))|].
      rewrite app_nil_r. reflexivity.
    + rewrite Hmore by discriminate.
      exact (concat_snoc2 merged (to_text d) UI_SEPARATOR).
  - eexists. split; [rewrite Nat.add_0_r; reflexivity|].
    destruct rest as [|f rest'].
    + rewrite (Hlast eq_refl). symmetry. apply app_nil_r.
    + rewrite Hmore by discriminate.
      exact (concat_snoc merged UI_SEPARATOR).
Qed.

Lemma process_loop total files i merged count :
  (forall file, In file files ->
                exists r, extract_docx_text (snd file) = Ok r) ->
  (i + List.length files = total)%nat ->
  exists merged',
    for_each (process_one total) (combine (seq i (List.length files)) files)
             (merged, count)
    = Ok (merged', (count + List.length (filter doc_ok files))%nat)
    /\ List.concat merged'
       = List.concat merged ++ join UI_SEPARATOR (List.map doc_text files).
Proof.
  revert i merged count.
  induction files as [|file rest IH]; intros i merged count Hall Hlen.
  - exists merged. cbn. rewrite Nat.add_0_r, app_nil_r. split; reflexivity.
  - cbn [List.length] in Hlen.
    destruct (Hall file (or_introl eq_refl)) as [r Hr].
    destruct (process_one_step total merged count i file r rest Hr)
      as [merged1 [E1 Hc1]]; [lia|].
    destruct (IH (S i) merged1 (count + if doc_ok file then 1 else 0)%nat)
      as [merged' [E Hc]];
      [intros f Hf; apply Hall; right; exact Hf | lia |].
    exists merged'. cbn [List.length seq combine for_each].
    rewrite E1. cbn [bind]. rewrite E. split.
    + do 2 f_equal. cbn [filter].
      destruct (doc_ok file); cbn [List.length]; lia.
    + rewrite Hc, Hc1. cbn [List.map].
      destruct rest as [|f rest'].
      * cbn. rewrite <- !app_assoc, !app_nil_r. reflexivity.
      * cbn [List.map]. rewrite join_cons_next, <- !app_assoc. reflexivity.
Qed.

(** A loop one of whose turns raises whatever the state raises. *)
Lemma for_each_raises {A S} (body : S -> A -> result S) xs x s :
  In x xs -> (forall s', exists e, body s' x = Raise e) ->
  exists e, for_each body xs s = Raise e.
Proof.
  intros Hin Hx. revert s.
  induction xs as [|y xs IH]; intros s; [contradiction|].
  cbn [for_each].
  destruct (body s y) as [s'|e] eqn:E; [|exists e; reflexivity].
  cbn [bind]. destruct Hin as [-> | Hin]; [|exact (IH Hin s')].
  destruct (Hx s) as [e He]. congruence.
Qed.

Lemma In_combine_seq {A} (xs : list A) start x :
  In x xs -> exists i, In (i, x) (combine (seq start (List.length xs)) xs).
Proof.
  revert start. induction xs as [|y xs IH]; intros start; [contradiction|].
  intros [-> | Hin].
  - exists start. left. reflexivity.
  - destruct (IH (S start) Hin) as [i Hi]. exists i. right. exact Hi.
Qed.

(** X22. When the extraction raises for none of the selected documents,
    the desktop tool writes their texts joined by its separator line, a
    document that is not extractable standing as an empty text between
    its separators, and the count it reports is the number of documents
    extracted.  When the extraction raises for one of them, the run ends
    in the handler of the exception and nothing is written. *)
Theorem X22_process_files_text (files_found : list (str * DocxFile)) :
  ((forall file, In file files_found ->
                 exists r, extract_docx_text (snd file) = Ok r) ->
   process_files files_found
   = Ok (join UI_SEPARATOR (List.map doc_text files_found),
         List.length (filter doc_ok files_found)))
  /\ (forall file e, In file files_found ->
                     extract_docx_text (snd file) = Raise e ->
                     exists e', process_files files_found = Raise e').
Proof.
  unfold process_files. split.
  - intros Hall.
    destruct (process_loop (List.length files_found) files_found 0 [] 0
                Hall eq_refl)
      as [merged [E Hc]].
    rewrite E. cbn [bind fst snd]. rewrite join_nil_concat, Hc. reflexivity.
  - intros file e Hin He.
    destruct (In_combine_seq files_found 0 file Hin) as [i Hi].
    destruct (for_each_raises (process_one (List.length files_found))
                _ (i, file) ([], 0%nat) Hi)
      as [e' He'].
    + intros [merged count]. exists e. unfold process_one.
      rewrite He. reflexivity.
    + exists e'. rewrite He'. reflexivity.
Qed.

End Desktop.

Section DesktopSamples.

Lemma selected_files_return file :
  In file [(lit "a.docx", Some sample_package); (lit "b.docx", None)] ->
  exists r, @extract_docx_text sample_parser (snd file) = Ok r.
Proof.
  intros [<- | [<- | []]]; eexists; reflexivity.
Defined.

Lemma X22_process_files_text_witness :
  @process_files sample_parser
     [(lit "a.docx", Some sample_package); (lit "b.docx", None)]
  = Ok (lit "cell" ++ [LF] ++ lit "x" ++ [TAB] ++ lit "y" ++ [LF]
        ++ lit "first" ++ [LF] ++ lit "second" ++ [LF] ++ UI_SEPARATOR,
        1%nat)
  /\ exists e,
       @process_files sample_parser
          [(lit "a.docx", Some sample_package);
           (lit "c.docx", Some legacy_footer_package)]
       = Raise e.
Proof.
  split.
  - etransitivity;
      [exact (proj1 (@X22_process_files_text sample_parser _)
                selected_files_return)|].
    reflexivity.
  - exact (proj2 (@X22_process_files_text sample_parser
                    [(lit "a.docx", Some sample_package);
                     (lit "c.docx", Some legacy_footer_package)])
             (lit "c.docx", Some legacy_footer_package) ValueError
             (or_intror (or_introl eq_refl)) eq_refl).
Defined.

End DesktopSamples.

(** ** The Markdown minifier *)

Section Minify.

Example minify_markdown_ex :
  _minify_markdown (lit "# t  " ++ [CR; LF; CR; CR; LF; LF] ++ lit "a	" ++ [CR]
                    ++ lit "b")
  = lit "# t" ++ [LF; LF] ++ lit "a" ++ [LF] ++ lit "b" ++ [LF].
Proof. reflexivity. Qed.

Lemma replace_crlf_cons c d r :
  replace_crlf (c :: d :: r)
  = if (c =? CR) && (d =? LF) then LF :: replace_crlf r
    else c :: replace_crlf (d :: r).
Proof. reflexivity. Qed.

Lemma replace_crlf_fixed s : no_CR s = true -> replace_crlf s = s.
Proof.
  induction s as [|c|c d r IHr IHd] using str_ind2; intros H;
    [reflexivity | reflexivity |].
  rewrite replace_crlf_cons.
  unfold no_CR in H. cbn [forallb] in H.
  apply andb_true_iff in H as [Hc Hd].
  apply negb_true_iff in Hc. rewrite Hc. cbn [andb].
  f_equal. apply IHd. exact Hd.
Qed.

Lemma replace_cr_fixed s : no_CR s = true -> replace_cr s = s.
Proof.
  induction s as [|c r IH]; [reflexivity|].
  unfold no_CR. cbn [forallb replace_cr List.map]. intros H.
  apply andb_true_iff in H as [Hc Hr]. apply negb_true_iff in Hc.
  rewrite Hc. f_equal. exact (IH Hr).
Qed.

Lemma replace_cr_no_CR s : no_CR (replace_cr s) = true.
Proof.
  induction s as [|c r IH]; [reflexivity|].
  unfold no_CR. cbn [replace_cr List.map forallb].
  fold (replace_cr r). fold (no_CR (replace_cr r)). rewrite IH.
  destruct (N.eqb_spec c CR) as [-> | Hne]; [reflexivity|].
  apply andb_true_iff. split; [|reflexivity].
  apply negb_true_iff, N.eqb_neq. exact Hne.
Qed.

Lemma split_nl_cons c r :
  split_nl (c :: r)
  = if c =? LF then [] :: split_nl r
    else (c :: hd [] (split_nl r)) :: tl (split_nl r).
Proof.
  cbn [split_nl]. destruct (c =? LF); [reflexivity|].
  destruct (split_nl r) as [|l ls] eqn:E; [|reflexivity].
  exfalso. exact (split_nl_nonempty _ E).
Qed.

Lemma split_nl_hd_tl s : split_nl s = hd [] (split_nl s) :: tl (split_nl s).
Proof.
  destruct (split_nl s) as [|l ls] eqn:E; [|reflexivity].
  exfalso. exact (split_nl_nonempty _ E).
Qed.

Lemma split_nl_forallb (Q : char -> bool) s :
  forallb Q s = true -> Forall (fun l => forallb Q l = true) (split_nl s).
Proof.
  induction s as [|c r IH]; intros H; [repeat constructor|].
  cbn [forallb] in H. apply andb_true_iff in H as [Hc Hr].
  specialize (IH Hr). rewrite split_nl_cons.
  rewrite (split_nl_hd_tl r) in IH. inversion IH as [|? ? Hl Hls]; subst.
  destruct (c =? LF).
  - constructor; [reflexivity|]. rewrite split_nl_hd_tl.
    constructor; assumption.
  - constructor; [|exact Hls]. cbn [forallb]. rewrite Hc. exact Hl.
Qed.

Lemma split_nl_one_line s :
  Forall (fun l => one_line l = true) (split_nl s).
Proof.
  induction s as [|c r IH]; [repeat constructor|].
  rewrite split_nl_cons.
  rewrite (split_nl_hd_tl r) in IH. inversion IH as [|? ? Hl Hls]; subst.
  destruct (c =? LF) eqn:E.
  - constructor; [reflexivity|]. rewrite split_nl_hd_tl.
    constructor; assumption.
  - constructor; [|exact Hls].
    unfold one_line in *. cbn [forallb]. rewrite E. exact Hl.
Qed.

Lemma join_split_nl s : join [LF] (split_nl s) = s.
Proof.
  induction s as [|c r IH]; [reflexivity|].
  rewrite split_nl_cons. rewrite (split_nl_hd_tl r) in IH.
  destruct (N.eqb_spec c LF) as [-> | Hne].
  - rewrite (split_nl_hd_tl r), join_cons_cons. cbn [app]. f_equal. exact IH.
  - rewrite join_push. f_equal. exact IH.
Qed.

Lemma split_nl_join ls :
  ls <> [] -> Forall (fun l => one_line l = true) ls ->
  split_nl (join [LF] ls) = ls.
Proof.
  intros Hne H. induction H as [|l rest Hl Hrest IH]; [contradiction|].
  clear Hne.
  assert (Hline : forall t, split_nl (l ++ LF :: t) = l :: split_nl t).
  { intros t. induction l as [|c l IHl]; [reflexivity|].
    unfold one_line in Hl. cbn [forallb] in Hl.
    apply andb_true_iff in Hl as [Hc Hl]. apply negb_true_iff in Hc.
    cbn [app]. rewrite split_nl_cons, Hc, (IHl Hl). reflexivity. }
  destruct rest as [|y rest'].
  - cbn [join]. clear IH Hline.
    induction l as [|c l IHl]; [reflexivity|].
    unfold one_line in Hl. cbn [forallb] in Hl.
    apply andb_true_iff in Hl as [Hc Hl]. apply negb_true_iff in Hc.
    rewrite split_nl_cons, Hc, (IHl Hl). reflexivity.
  - rewrite join_cons_cons. cbn [app]. rewrite Hline, IH; [reflexivity|].
    discriminate.
Qed.

Lemma forallb_rstrip (Q : char -> bool) s :
  forallb Q s = true -> forallb Q (rstrip s) = true.
Proof.
  destruct (rstrip_prefix s) as [q [Hs _]]. intros H.
  rewrite Hs, forallb_app in H. apply andb_true_iff in H. tauto.
Qed.

Lemma hd_split_nl_sub_blank_runs s :
  hd [] (split_nl (sub_blank_runs s)) = hd [] (split_nl s).
Proof.
  induction s as [|c r IH]; [reflexivity|].
  cbn [sub_blank_runs].
  destruct ((c =? LF) && starts_two_newlines r) eqn:E.
  - apply andb_true_iff in E as [Ec Er].
    rewrite (split_nl_cons c r), Ec. cbn [hd].
    pose proof (sub_blank_runs_head r) as Hh.
    destruct r as [|a r']; [discriminate|].
    rewrite starts_two_newlines_cons in Er.
    apply andb_true_iff in Er as [Ea _].
    cbn [starts_newline] in Hh. rewrite Ea in Hh.
    destruct (sub_blank_runs (a :: r')) as [|b t]; [discriminate|].
    cbn [starts_newline] in Hh. rewrite split_nl_cons, Hh. reflexivity.
  - rewrite !split_nl_cons. destruct (c =? LF); [reflexivity|].
    cbn [hd]. rewrite IH. reflexivity.
Qed.

Lemma last_sat_tail P c l : last_sat P (c :: l) = false -> last_sat P l = false.
Proof. destruct l; [reflexivity | trivial]. Qed.

Lemma split_nl_sub_blank_runs s :
  Forall (fun l => last_sat is_space l = false) (split_nl s) ->
  Forall (fun l => last_sat is_space l = false)
         (split_nl (sub_blank_runs s)).
Proof.
  induction s as [|c r IH]; intros H; [exact H|].
  rewrite split_nl_cons in H.
  assert (Hr : Forall (fun l => last_sat is_space l = false) (split_nl r)).
  { rewrite (split_nl_hd_tl r). destruct (c =? LF).
    - inversion H as [|? ? _ H']; subst. rewrite <- split_nl_hd_tl. exact H'.
    - inversion H as [|? ? Hl Hls]; subst.
      constructor; [exact (last_sat_tail _ _ _ Hl) | exact Hls]. }
  specialize (IH Hr). cbn [sub_blank_runs].
  destruct ((c =? LF) && starts_two_newlines r) eqn:E; [exact IH|].
  rewrite split_nl_cons. destruct (c =? LF) eqn:Ec.
  - constructor; [reflexivity | exact IH].
  - rewrite (split_nl_hd_tl (sub_blank_runs r)) in IH.
    inversion IH as [|? ? _ Hls]; subst.
    inversion H as [|? ? Hl _]; subst.
    constructor; [|exact Hls].
    rewrite hd_split_nl_sub_blank_runs. exact Hl.
Qed.

Lemma split_nl_snoc_LF s : split_nl (s ++ [LF]) = split_nl s ++ [[]].
Proof.
  induction s as [|c r IH]; [reflexivity|].
  cbn [app]. rewrite !split_nl_cons, IH.
  destruct (c =? LF); [reflexivity|].
  rewrite (split_nl_hd_tl r). reflexivity.
Qed.

Lemma endswith_LF_last s :
  endswith s [LF] = last_sat (fun c => c =? LF) s.
Proof.
  unfold endswith. induction s as [|c t _] using rev_ind; [reflexivity|].
  rewrite rev_app_distr, last_sat_app_one. cbn [rev app startswith].
  rewrite startswith_nil, andb_true_r. apply N.eqb_sym.
Qed.

(** The text before the last step, and what holds of it. *)
Lemma minify_body text :
  let body := sub_blank_runs
                (join [LF] (List.map rstrip
                              (split_nl (replace_cr (replace_crlf text))))) in
  _minify_markdown text = (if endswith body [LF] then body else body ++ [LF])
  /\ no_CR body = true
  /\ no_triple_nl body = true
  /\ Forall (fun l => last_sat is_space l = false) (split_nl body).
Proof.
  intros body. split; [reflexivity|]. split; [|split].
  - apply sub_blank_runs_forallb, join_forallb; [reflexivity|].
    apply Forall_forall. intros l Hl. apply in_map_iff in Hl as [l' [<- Hl']].
    apply forallb_rstrip.
    exact (proj1 (Forall_forall _ _)
             (split_nl_forallb _ _ (replace_cr_no_CR _)) l' Hl').
  - apply sub_blank_runs_no_triple.
  - apply split_nl_sub_blank_runs. rewrite split_nl_join.
    + apply Forall_forall. intros l Hl.
      apply in_map_iff in Hl as [l' [<- _]]. apply rstrip_last.
    + rewrite (split_nl_hd_tl (replace_cr (replace_crlf text))). discriminate.
    + apply Forall_forall. intros l Hl.
      apply in_map_iff in Hl as [l' [<- Hl']].
      apply forallb_rstrip.
      exact (proj1 (Forall_forall _ _) (split_nl_one_line _) l' Hl').
Qed.

Lemma no_CR_app a b : no_CR (a ++ b) = no_CR a && no_CR b.
Proof. apply forallb_app. Qed.

Lemma minify_shape text :
  no_CR (_minify_markdown text) = true
  /\ no_triple_nl (_minify_markdown text) = true
  /\ Forall (fun l => last_sat is_space l = false)
            (split_nl (_minify_markdown text))
  /\ endswith (_minify_markdown text) [LF] = true.
Proof.
  destruct (minify_body text) as [E [Hcr [Ht Hl]]]. cbv zeta in *.
  set (body := sub_blank_runs _) in *. rewrite E.
  destruct (endswith body [LF]) eqn:Ee.
  - repeat split; assumption.
  - split; [|split; [|split]].
    + rewrite no_CR_app, Hcr. reflexivity.
    + apply no_triple_nl_snoc_LF; [exact Ht|].
      rewrite <- endswith_LF_last. exact Ee.
    + rewrite split_nl_snoc_LF. apply Forall_app. split; [exact Hl|].
      repeat constructor.
    + rewrite endswith_LF_last, last_sat_app_one. reflexivity.
Qed.

(** X23. The minified text has no carriage return, no line ending in
    white space, no three newlines in a row, and ends with a newline. *)
Theorem X23_minify_markdown_invariant (text : str) :
  no_CR (_minify_markdown text) = true
  /\ Forall (fun l => last_sat is_space l = false)
            (split_nl (_minify_markdown text))
  /\ (forall a b, _minify_markdown text <> a ++ [LF; LF; LF] ++ b)
  /\ endswith (_minify_markdown text) [LF] = true.
Proof.
  destruct (minify_shape text) as [Hcr [Ht [Hl He]]].
  split; [exact Hcr|]. split; [exact Hl|]. split; [|exact He].
  apply no_triple_nl_spec. exact Ht.
Qed.

Lemma map_rstrip_fixed ls :
  Forall (fun l => last_sat is_space l = false) ls -> List.map rstrip ls = ls.
Proof.
  induction 1 as [|l ls Hl _ IH]; [reflexivity|].
  cbn [List.map]. rewrite (rstrip_fixed _ Hl), IH. reflexivity.
Qed.

(** X24. Minifying is idempotent: a minified text is left as it is. *)
Theorem X24_minify_markdown_idempotent (text : str) :
  _minify_markdown (_minify_markdown text) = _minify_markdown text.
Proof.
  destruct (minify_shape text) as [Hcr [Ht [Hl He]]].
  set (out := _minify_markdown text) in *.
  unfold _minify_markdown at 1.
  rewrite (replace_crlf_fixed _ Hcr), (replace_cr_fixed _ Hcr).
  rewrite (map_rstrip_fixed _ Hl), join_split_nl.
  rewrite (sub_blank_runs_fixed _ Ht), He. reflexivity.
Qed.

Lemma visible_replace_crlf s : visible (replace_crlf s) = visible s.
Proof.
  induction s as [|c|c d r IHr IHd] using str_ind2;
    [reflexivity | reflexivity |].
  rewrite replace_crlf_cons.
  destruct ((c =? CR) && (d =? LF)) eqn:E.
  - apply andb_true_iff in E as [Ec Ed].
    apply N.eqb_eq in Ec, Ed. subst c d.
    rewrite (visible_space LF), (visible_space CR), (visible_space LF);
      [exact IHr | reflexivity..].
  - rewrite (visible_cons c (replace_crlf (d :: r))), IHd.
    rewrite (visible_cons c (d :: r)). reflexivity.
Qed.

Lemma visible_replace_cr s : visible (replace_cr s) = visible s.
Proof.
  induction s as [|c r IH]; [reflexivity|].
  cbn [replace_cr List.map]. fold (replace_cr r).
  destruct (N.eqb_spec c CR) as [-> | Hne].
  - rewrite (visible_space LF), (visible_space CR); [exact IH | reflexivity..].
  - rewrite (visible_cons c (replace_cr r)), IH, (visible_cons c r).
    reflexivity.
Qed.

Lemma visible_rstrip s : visible (rstrip s) = visible s.
Proof.
  destruct (rstrip_prefix s) as [q [Hs Hq]].
  rewrite Hs at 2. rewrite visible_app, (visible_blank _ Hq), app_nil_r.
  reflexivity.
Qed.

Lemma visible_concat_map_rstrip ls :
  visible (List.concat (List.map rstrip ls)) = visible (List.concat ls).
Proof.
  induction ls as [|l ls IH]; [reflexivity|].
  cbn [List.map List.concat]. rewrite !visible_app, IH, visible_rstrip.
  reflexivity.
Qed.

(** X25. Minifying changes white space only: the characters other than
    white space are kept, all of them and in order. *)
Theorem X25_minify_markdown_keeps_visible_text (text : str) :
  visible (_minify_markdown text) = visible text.
Proof.
  destruct (minify_body text) as [E _]. cbv zeta in E. rewrite E.
  assert (Hbody : visible
                    (sub_blank_runs
                       (join [LF]
                          (List.map rstrip
                             (split_nl (replace_cr (replace_crlf text))))))
                  = visible text).
  { rewrite visible_sub_blank_runs, visible_join, visible_concat_map_rstrip.
    rewrite <- visible_join, join_split_nl.
    rewrite visible_replace_cr, visible_replace_crlf. reflexivity. }
  destruct (endswith _ [LF]); [exact Hbody|].
  rewrite visible_app, Hbody. apply app_nil_r.
Qed.

End Minify.

(** ** The order of the supplementary parts *)

Section PartOrder.

Lemma startswith_order p x y a b :
  startswith a (p ++ [x]) = true -> startswith b (p ++ [y]) = true ->
  x < y -> str_leb a b = true /\ a <> b.
Proof.
  revert a b. induction p as [|c p IH]; intros a b Ha Hb Hxy.
  - destruct a as [|a0 a]; [discriminate|].
    destruct b as [|b0 b]; [discriminate|].
    cbn [app startswith] in Ha, Hb.
    apply andb_true_iff in Ha as [Ha _]. apply andb_true_iff in Hb as [Hb _].
    apply N.eqb_eq in Ha, Hb. subst a0 b0. split.
    + cbn [str_leb]. apply orb_true_iff. left. apply N.ltb_lt. exact Hxy.
    + intros [= E _]. lia.
  - destruct a as [|a0 a]; [discriminate|].
    destruct b as [|b0 b]; [discriminate|].
    cbn [app startswith] in Ha, Hb.
    apply andb_true_iff in Ha as [Ha Ha'].
    apply andb_true_iff in Hb as [Hb Hb'].
    apply N.eqb_eq in Ha, Hb. subst a0 b0.
    destruct (IH a b Ha' Hb' Hxy) as [Hle Hne]. split.
    + cbn [str_leb]. rewrite N.eqb_refl, Hle. apply orb_true_r.
    + intros [= E]. contradiction.
Qed.

Lemma supplementary_kinds name :
  is_supplementary name = true ->
  (part_rank name = 0%nat /\ startswith name (lit "word/e") = true)
  \/ (part_rank name = 1%nat /\ startswith name (lit "word/foote") = true)
  \/ (part_rank name = 2%nat /\ startswith name (lit "word/footn") = true)
  \/ (part_rank name = 3%nat /\ startswith name (lit "word/h") = true).
Proof.
  unfold is_supplementary, part_rank. intros H.
  apply andb_true_iff in H as [H _].
  destruct (str_eqb name (lit "word/endnotes.xml")) eqn:E0.
  { left. apply str_eqb_eq in E0. subst name. split; reflexivity. }
  destruct (startswith name (lit "word/footer")) eqn:E1.
  { right. left. split; [reflexivity|].
    exact (startswith_app name (lit "word/foote") (lit "r") E1). }
  destruct (str_eqb name (lit "word/footnotes.xml")) eqn:E2.
  { right. right. left. apply str_eqb_eq in E2. subst name.
    split; reflexivity. }
  right. right. right. split; [reflexivity|].
  rewrite !orb_false_r in H.
  exact (startswith_app name (lit "word/h") (lit "eader") H).
Qed.

(** X26. The supplementary parts come out by kind: the endnotes, then
    the footers, then the footnotes, then the headers; the name of a part
    of an earlier kind is below the name of any part of a later kind. *)
Theorem X26_parts_by_kind (a b : str) :
  is_supplementary a = true -> is_supplementary b = true ->
  (part_rank a < part_rank b)%nat ->
  str_le a b /\ a <> b.
Proof.
  intros Ha Hb Hrank. unfold str_le.
  assert (Hfoot : forall n, startswith n (lit "word/foote") = true
                            \/ startswith n (lit "word/footn") = true ->
                            startswith n (lit "word/f") = true).
  { intros n [H | H].
    - exact (startswith_app n (lit "word/f") (lit "oote") H).
    - exact (startswith_app n (lit "word/f") (lit "ootn") H). }
  destruct (supplementary_kinds a Ha)
    as [[Ra Pa] | [[Ra Pa] | [[Ra Pa] | [Ra Pa]]]];
    destruct (supplementary_kinds b Hb)
      as [[Rb Pb] | [[Rb Pb] | [[Rb Pb] | [Rb Pb]]]];
    rewrite Ra, Rb in Hrank; try (exfalso; lia).
  - apply (startswith_order (lit "word/") 101 102);
      [exact Pa | apply Hfoot; left; exact Pb | reflexivity].
  - apply (startswith_order (lit "word/") 101 102);
      [exact Pa | apply Hfoot; right; exact Pb | reflexivity].
  - apply (startswith_order (lit "word/") 101 104);
      [exact Pa | exact Pb | reflexivity].
  - apply (startswith_order (lit "word/foot") 101 110);
      [exact Pa | exact Pb | reflexivity].
  - apply (startswith_order (lit "word/") 102 104);
      [apply Hfoot; left; exact Pa | exact Pb | reflexivity].
  - apply (startswith_order (lit "word/") 102 104);
      [apply Hfoot; right; exact Pa | exact Pb | reflexivity].
Qed.

Lemma X26_parts_by_kind_witness :
  str_le (lit "word/footer9.xml") (lit "word/footnotes.xml")
  /\ lit "word/footer9.xml" <> lit "word/footnotes.xml".
Proof.
  apply X26_parts_by_kind; [reflexivity | reflexivity |].
  cbn. apply Nat.lt_succ_diag_r.
Defined.

End PartOrder.

(** ** One line for a paragraph *)

Section OneLine.

Lemma splitlines_single p :
  p <> [] -> forallb (fun c => negb (is_linebreak c)) p = true ->
  splitlines p = [p].
Proof.
  induction p as [|c r IH]; intros Hne H; [contradiction|].
  cbn [forallb] in H. apply andb_true_iff in H as [Hc Hr].
  apply negb_true_iff in Hc. cbn [splitlines]. rewrite Hc.
  destruct r as [|d t]; [reflexivity|].
  rewrite (IH ltac:(discriminate) Hr). reflexivity.
Qed.

Lemma strip_head s c t : strip s = c :: t -> is_space c = false.
Proof.
  unfold strip. destruct (lstrip s) as [|a u] eqn:E; [discriminate|].
  pose proof (lstrip_head _ _ _ E) as Ha.
  rewrite (rstrip_nonspace _ _ Ha). intros [= <- _]. exact Ha.
Qed.

Lemma tidy_facts p :
  tidy p ->
  exists c t, p = c :: t /\ is_space c = false
              /\ last_sat is_space p = false
              /\ forallb (fun c => negb (is_linebreak c)) p = true.
Proof.
  intros [Hne [Hs Hb]]. destruct p as [|c t]; [contradiction|].
  exists c, t. split; [reflexivity|].
  split; [exact (strip_head _ _ _ Hs)|].
  split; [rewrite <- Hs; apply strip_last | exact Hb].
Qed.

Lemma nobreak_not_LF c :
  negb (is_linebreak c) = true -> (c =? LF) = false.
Proof.
  intros H. destruct (N.eqb_spec c LF) as [-> | Hne]; [discriminate H|].
  reflexivity.
Qed.

Lemma starts_two_of_newline t :
  starts_newline t = false -> starts_two_newlines t = false.
Proof.
  destruct t as [|a u]; [reflexivity|].
  rewrite starts_two_newlines_cons. cbn [starts_newline].
  intros ->. reflexivity.
Qed.

Lemma line_then_rest p t :
  forallb (fun c => negb (is_linebreak c)) p = true ->
  p <> [] -> last_sat is_space p = false ->
  starts_newline t = false ->
  hs_nl_free (p ++ LF :: t) = hs_nl_free t
  /\ no_triple_nl (p ++ LF :: t) = no_triple_nl t.
Proof.
  intros Hb Hne Hl Ht. induction p as [|c r IH]; [contradiction|].
  cbn [forallb] in Hb. apply andb_true_iff in Hb as [Hc Hr].
  pose proof (nobreak_not_LF _ Hc) as Hc'.
  destruct r as [|d u].
  - cbn [app hs_nl_free no_triple_nl starts_newline].
    rewrite N.eqb_refl, Hc'. cbn [last_sat] in Hl.
    destruct (is_hspace c) eqn:Eh;
      [rewrite (is_hspace_is_space _ Eh) in Hl; discriminate|].
    change (is_hspace LF) with false.
    rewrite (starts_two_of_newline _ Ht). split; reflexivity.
  - destruct (IH Hr ltac:(discriminate) Hl) as [IH1 IH2].
    change ((c :: d :: u) ++ LF :: t) with (c :: (d :: u) ++ LF :: t).
    cbn [hs_nl_free no_triple_nl]. rewrite IH1, IH2, Hc'.
    cbn [forallb] in Hr. apply andb_true_iff in Hr as [Hd _].
    cbn [app starts_newline]. rewrite (nobreak_not_LF _ Hd), andb_false_r.
    split; reflexivity.
Qed.

Lemma line_alone p :
  forallb (fun c => negb (is_linebreak c)) p = true ->
  hs_nl_free p = true /\ no_triple_nl p = true.
Proof.
  induction p as [|c r IH]; intros Hb; [split; reflexivity|].
  cbn [forallb] in Hb. apply andb_true_iff in Hb as [Hc Hr].
  destruct (IH Hr) as [IH1 IH2].
  cbn [hs_nl_free no_triple_nl]. rewrite IH1, IH2, (nobreak_not_LF _ Hc).
  destruct r as [|d u].
  - cbn. rewrite andb_false_r. split; reflexivity.
  - cbn [forallb] in Hr. apply andb_true_iff in Hr as [Hd _].
    cbn [starts_newline]. rewrite (nobreak_not_LF _ Hd), andb_false_r.
    split; reflexivity.
Qed.

Lemma tidy_join ps :
  ps <> [] -> Forall tidy ps ->
  hs_nl_free (join [LF] ps) = true
  /\ no_triple_nl (join [LF] ps) = true
  /\ nl_only (join [LF] ps) = true
  /\ last_sat is_space (join [LF] ps) = false
  /\ exists c t, join [LF] ps = c :: t /\ is_space c = false.
Proof.
  intros Hne H. induction H as [|p rest Hp Hrest IH]; [contradiction|].
  clear Hne. destruct (tidy_facts p Hp) as [c [t [Ep [Hc [Hl Hb]]]]].
  destruct rest as [|q rest'].
  - cbn [join]. destruct (line_alone p Hb) as [H1 H2].
    split; [exact H1|]. split; [exact H2|].
    split; [|split; [exact Hl|]].
    + unfold nl_only. eapply forallb_weaken; [|exact Hb].
      intros x Hx. rewrite Hx. reflexivity.
    + exists c, t. split; [exact Ep | exact Hc].
  - destruct (IH ltac:(discriminate)) as [I1 [I2 [I3 [I4 [c' [t' [E' Hc']]]]]]].
    rewrite join_cons_cons. cbn [app].
    assert (Hstart : starts_newline (join [LF] (q :: rest')) = false).
    { rewrite E'. cbn [starts_newline].
      destruct (N.eqb_spec c' LF) as [-> | Hn]; [discriminate Hc'|].
      reflexivity. }
    destruct (line_then_rest p _ Hb ltac:(rewrite Ep; discriminate) Hl Hstart)
      as [H1 H2].
    split; [rewrite H1; exact I1|]. split; [rewrite H2; exact I2|].
    split; [|split].
    + rewrite nl_only_app. apply andb_true_iff. split.
      * unfold nl_only. eapply forallb_weaken; [|exact Hb].
        intros x Hx. rewrite Hx. reflexivity.
      * change (LF :: join [LF] (q :: rest'))
          with ([LF] ++ join [LF] (q :: rest')).
        rewrite nl_only_app, I3. reflexivity.
    + change (p ++ LF :: join [LF] (q :: rest'))
        with (p ++ [LF] ++ join [LF] (q :: rest')).
      rewrite app_assoc, last_sat_app; [exact I4|].
      rewrite E'. discriminate.
    + exists c, (t ++ LF :: join [LF] (q :: rest')).
      split; [rewrite Ep; reflexivity | exact Hc].
Qed.

Lemma flat_map_splitlines_tidy ps :
  Forall tidy ps -> flat_map splitlines ps = ps.
Proof.
  induction 1 as [|p rest [Hne [_ Hb]] _ IH]; [reflexivity|].
  cbn [flat_map]. rewrite (splitlines_single p Hne Hb), IH. reflexivity.
Qed.

(** X27. When every paragraph line is not empty, is stripped and has no
    line boundary in it (the line of a paragraph with text and no break),
    the output is these lines as they are, one per line. *)
Theorem X27_one_line_per_paragraph (ps : list str) :
  ps <> [] -> Forall tidy ps ->
  to_text (mkDocxText ps) = join [LF] ps ++ [LF]
  /\ split_nl (to_text (mkDocxText ps)) = ps ++ [[]].
Proof.
  intros Hne Hps.
  destruct (tidy_join ps Hne Hps) as [H1 [H2 [_ [H4 [c [t [E Hc]]]]]]].
  assert (Htext : to_text (mkDocxText ps) = join [LF] ps ++ [LF]).
  { unfold to_text. cbn [paragraphs].
    rewrite (flat_map_splitlines_tidy _ Hps).
    rewrite (sub_trailing_hspace_fixed _ H1), (sub_blank_runs_fixed _ H2).
    f_equal. unfold strip. rewrite E, (lstrip_nonspace _ _ Hc), <- E.
    exact (rstrip_fixed _ H4). }
  split; [exact Htext|].
  rewrite Htext, split_nl_snoc_LF. f_equal.
  apply split_nl_join; [exact Hne|].
  apply Forall_forall. intros p Hp.
  destruct (proj1 (Forall_forall _ _) Hps p Hp) as [_ [_ Hb]].
  unfold one_line. eapply forallb_weaken; [|exact Hb].
  intros x Hx. rewrite (nobreak_not_LF _ Hx). reflexivity.
Qed.

Lemma X27_one_line_per_paragraph_witness :
  to_text (mkDocxText [lit "first line"; lit "x" ++ [TAB] ++ lit "y"])
  = lit "first line" ++ [LF] ++ lit "x" ++ [TAB] ++ lit "y" ++ [LF]
  /\ split_nl (to_text (mkDocxText
                          [lit "first line"; lit "x" ++ [TAB] ++ lit "y"]))
     = [lit "first line"; lit "x" ++ [TAB] ++ lit "y"; []].
Proof.
  apply (X27_one_line_per_paragraph
           [lit "first line"; lit "x" ++ [TAB] ++ lit "y"]).
  - discriminate.
  - repeat constructor; discriminate.
Defined.

End OneLine.
